(** * rss_crawler: the feed store, the fetcher, the formatter and the
      polling loop, embedded from [database.py], [rss_crawler.py] and [bot.py].

    Conventions of the embedding.
    - A Python [str] is a [string]; one [ascii] stands for one character, so
      [String.length] is Python's [len] and [replace] works character by
      character.
    - The SQLite file is a record of two tables, each a list of rows in rowid
      order, together with the two AUTOINCREMENT counters.
    - [CURRENT_TIMESTAMP] and [asyncio.sleep] use a logical clock that the
      caller threads through.
    - Everything outside the repository (feedparser, BeautifulSoup, the wall
      clock, the Telegram sink) is a field of a record of oracles. *)

From Stdlib Require Import List String Ascii Bool Arith PeanoNat Lia.
Import ListNotations.

Local Open Scope string_scope.
Local Open Scope list_scope.

(* ================================================================== *)
(** ** database.py *)
(* ================================================================== *)

Module Database.

Definition timestamp := nat.

(** A row of [rss_feeds]. *)
Record Feed := mkFeed {
  f_id : nat;
  f_url : string;
  f_name : string;
  f_last_check : option timestamp
}.

(** A row of [sent_posts]. *)
Record SentPost := mkSentPost {
  sp_id : nat;
  sp_feed_id : nat;
  sp_post_url : string;
  sp_sent_at : timestamp
}.

(** The database file: both tables and the largest rowid each table has
    handed out so far (the [sqlite_sequence] entries). *)
Record DB := mkDB {
  rss_feeds : list Feed;
  sent_posts : list SentPost;
  rss_feeds_seq : nat;
  sent_posts_seq : nat
}.

(** What a store call raises. *)
Inductive exn := IntegrityError.

Inductive result (A : Type) :=
| Ok (a : A)
| Raise (e : exn).

Arguments Ok {A} a.
Arguments Raise {A} e.

Definition empty_db : DB := mkDB [] [] 0 0.

(** [CREATE TABLE IF NOT EXISTS]: a missing file gets two empty tables, an
    existing one is left as it is. *)
Definition init_db (file : option DB) : DB :=
  match file with
  | None => empty_db
  | Some db => db
  end.

(** [SELECT ... FROM rss_feeds WHERE url = ?], first row. *)
Definition select_feed_by_url (url : string) (db : DB) : option Feed :=
  find (fun f => String.eqb (f_url f) url) (rss_feeds db).

(** [INSERT OR IGNORE INTO rss_feeds (url, name)]: a rowid is drawn from
    the AUTOINCREMENT counter first; the UNIQUE constraint on [url] then
    makes the insert of a url that is there leave both tables as they are,
    but the rowid it drew is spent. *)
Definition add_feed (url name : string) (db : DB) : DB :=
  let rowid := S (rss_feeds_seq db) in
  match select_feed_by_url url db with
  | Some _ => mkDB (rss_feeds db) (sent_posts db) rowid (sent_posts_seq db)
  | None =>
      mkDB (rss_feeds db ++ [mkFeed rowid url name None])
           (sent_posts db) rowid (sent_posts_seq db)
  end.

(** [SELECT * FROM rss_feeds]. *)
Definition get_all_feeds (db : DB) : list Feed := rss_feeds db.

(** [UPDATE rss_feeds SET last_check = CURRENT_TIMESTAMP WHERE id = ?]. *)
Definition update_feed_check_time (feed_id : nat) (now : timestamp) (db : DB) : DB :=
  mkDB (map (fun f =>
               if Nat.eqb (f_id f) feed_id
               then mkFeed (f_id f) (f_url f) (f_name f) (Some now)
               else f)
            (rss_feeds db))
       (sent_posts db) (rss_feeds_seq db) (sent_posts_seq db).

(** [SELECT 1 FROM sent_posts WHERE post_url = ?] has a row. *)
Definition is_post_sent (post_url : string) (db : DB) : bool :=
  existsb (fun sp => String.eqb (sp_post_url sp) post_url) (sent_posts db).

(** [INSERT INTO sent_posts (feed_id, post_url)]: a plain insert, so the
    UNIQUE constraint on [post_url] raises and nothing is committed. *)
Definition mark_post_sent (feed_id : nat) (post_url : string) (now : timestamp)
    (db : DB) : result DB :=
  if is_post_sent post_url db then Raise IntegrityError
  else
    let rowid := S (sent_posts_seq db) in
    Ok (mkDB (rss_feeds db)
             (sent_posts db ++ [mkSentPost rowid feed_id post_url now])
             (rss_feeds_seq db) rowid).

(** Both DELETEs run in the one transaction that the final commit closes. *)
Definition remove_feed (url : string) (db : DB) : bool * DB :=
  match select_feed_by_url url db with
  | None => (false, db)
  | Some feed =>
      let feed_id := f_id feed in
      (true,
       mkDB (filter (fun f => negb (Nat.eqb (f_id f) feed_id)) (rss_feeds db))
            (filter (fun sp => negb (Nat.eqb (sp_feed_id sp) feed_id)) (sent_posts db))
            (rss_feeds_seq db) (sent_posts_seq db))
  end.

(** The constraints the schema declares: [url] and [post_url] are UNIQUE,
    [id] is a primary key drawn from the AUTOINCREMENT counter. *)
Record schema_ok (db : DB) : Prop := mkSchemaOk {
  feed_urls_unique : NoDup (map f_url (rss_feeds db));
  feed_ids_unique : NoDup (map f_id (rss_feeds db));
  feed_ids_issued : forall f, In f (rss_feeds db) -> f_id f <= rss_feeds_seq db;
  post_urls_unique : NoDup (map sp_post_url (sent_posts db))
}.

End Database.

(* ================================================================== *)
(** ** rss_crawler.py *)
(* ================================================================== *)

Module RSSCrawler.

(** The charset of the [response_headers] handed to feedparser. *)
Inductive Charset := Utf8 | Ascii7.

Inductive BozoException := UnicodeEncodeError | OtherException.

(** An element of [entry.tags]: a dict that may lack ['term']. *)
Record Tag := mkTag { term : option string }.

(** A feedparser entry: every key the fetcher reads may be absent. *)
Record Entry := mkEntry {
  e_title : option string;
  e_link : option string;
  e_description : option string;
  e_published : option string;
  e_tags : option (list Tag);
  e_categories : option (list string)
}.

Record ParsedFeed := mkParsedFeed {
  bozo : bool;
  bozo_exception : BozoException;
  entries : list Entry
}.

(** The post dict built by [fetch_feed]. *)
Record Post := mkPost {
  title : string;
  link : string;
  description : string;
  published : string;
  tags : list string
}.

(** What the fetcher calls outside the repository.  [feedparser_parse]
    returns [None] when the call raises; [soup_get_text d] is the plain
    text BeautifulSoup extracts from [d], and [soup_raises d] tells whether
    getting it raises instead (the import of bs4, the construction of the
    soup or [get_text]); [datetime_now_isoformat] is asked once per
    entry. *)
Record Library := mkLibrary {
  feedparser_parse : string -> Charset -> option ParsedFeed;
  soup_get_text : string -> string;
  soup_raises : string -> bool;
  datetime_now_isoformat : nat -> string
}.

(** [d.get(key, default)]. *)
Definition get (field : option string) (default : string) : string :=
  match field with
  | Some v => v
  | None => default
  end.

(** Truth value of a [str]. *)
Definition truthy (s : string) : bool := negb (String.eqb s EmptyString).

(** [s[:n]]. *)
Fixpoint slice_to (n : nat) (s : string) : string :=
  match n, s with
  | S n', String c s' => String c (slice_to n' s')
  | _, _ => EmptyString
  end.

(** The [tags] list before the empty ones are filtered out. *)
Definition extract_tags (entry : Entry) : list string :=
  match e_tags entry with
  | Some ts => map (fun tag => get (term tag) EmptyString) ts
  | None =>
      match e_categories entry with
      | Some cs => cs
      | None => []
      end
  end.

(** The clean-up of the description. *)
Definition clean_description (lib : Library) (d : string) : string :=
  if truthy d then
    let text := soup_get_text lib d in
    if Nat.ltb 500 (String.length text) then (slice_to 500 text ++ "...")%string else text
  else d.

(** The body of the loop over [feed.entries]; [i] is the entry's position. *)
Definition build_post (lib : Library) (i : nat) (entry : Entry) : Post :=
  mkPost (get (e_title entry) "No title")
         (get (e_link entry) EmptyString)
         (clean_description lib (get (e_description entry) EmptyString))
         (get (e_published entry) (datetime_now_isoformat lib i))
         (filter truthy (extract_tags entry)).

Fixpoint build_posts (lib : Library) (i : nat) (es : list Entry) : list Post :=
  match es with
  | [] => []
  | entry :: es' => build_post lib i entry :: build_posts lib (S i) es'
  end.

Definition is_unicode_encode_error (e : BozoException) : bool :=
  match e with
  | UnicodeEncodeError => true
  | OtherException => false
  end.

(** Does the body of the loop raise on this entry?  The soup is only made
    for a description that is not empty. *)
Definition entry_raises (lib : Library) (entry : Entry) : bool :=
  truthy (get (e_description entry) EmptyString)
  && soup_raises lib (get (e_description entry) EmptyString).

(** [fetch_feed]: [None] is the documented error result.  The [except]
    clause covers the parse and the whole loop over [feed.entries], so an
    entry on which the loop raises, be it beyond the tenth, makes the
    fetch fail. *)
Definition fetch_feed (lib : Library) (url : string) : option (list Post) :=
  match feedparser_parse lib url Utf8 with
  | None => None
  | Some feed0 =>
      let retried :=
        if bozo feed0 && is_unicode_encode_error (bozo_exception feed0)
        then feedparser_parse lib url Ascii7
        else Some feed0 in
      match retried with
      | None => None
      | Some feed =>
          if bozo feed && negb (is_unicode_encode_error (bozo_exception feed))
          then None
          else if existsb (entry_raises lib) (entries feed) then None
          else Some (firstn 10 (build_posts lib 0 (entries feed)))
      end
  end.

(** [s.replace(old, new)] for a one-character [old]. *)
Fixpoint replace (old : ascii) (new : string) (s : string) : string :=
  match s with
  | EmptyString => EmptyString
  | String c s' =>
      if Ascii.eqb c old then (new ++ replace old new s')%string
      else String c (replace old new s')
  end.

(** The constants of the layout: the line feed, the double quote, and the
    label of the link (its emoji stands here as its UTF-8 bytes). *)
Definition newline : string := String (ascii_of_nat 10) EmptyString.
Definition dquote : ascii := ascii_of_nat 34.
Definition link_label : string := "🔗 Link".

Definition format_telegram_message (post : Post) (feed_name : string) : string :=
  let title := replace ">" "&gt;" (replace "<" "&lt;" (replace "&" "&amp;" (title post))) in
  let link := replace dquote "&quot;" (link post) in
  let description :=
    replace ">" "&gt;" (replace "<" "&lt;" (replace "&" "&amp;" (description post))) in
  (title ++ newline ++ newline ++
   "<a href=" ++ String dquote link ++ String dquote ">" ++ link_label ++ "</a>"
     ++ newline ++ newline ++
   description ++ newline ++ newline ++
   "<i>Feed: " ++ feed_name ++ "</i>" ++ newline)%string.

End RSSCrawler.

(* ================================================================== *)
(** ** bot.py: the polling loop *)
(* ================================================================== *)

Module Bot.

Import Database RSSCrawler.

(** What one pass of the loop sees of the outside: the fetcher's libraries
    and the channel sink.  [send_message n text] tells whether the [n]-th
    call of [bot.send_message] since start-up returns ([true]) or raises
    ([false]). *)
Record World := mkWorld {
  lib : Library;
  send_message : nat -> string -> bool
}.

(** The calls the loop makes, in the order it makes them. *)
Inductive Event :=
| EvFetch (url : string) (ok : bool)
| EvIsPostSent (post_url : string) (answer : bool)
| EvSend (text : string) (ok : bool)
| EvMarkPostSent (feed_id : nat) (post_url : string) (ok : bool)
| EvSleep (seconds : nat)
| EvLogError
| EvUpdateCheck (feed_id : nat).

(** The state the loop runs in: the database file, the logical clock and
    the number of sink calls made so far. *)
Record State := mkState {
  db : DB;
  clock : nat;
  sends : nat
}.

(** [not posts] for the fetcher's result: [None] and the empty list. *)
Definition not_posts (posts : option (list Post)) : bool :=
  match posts with
  | None => true
  | Some [] => true
  | Some (_ :: _) => false
  end.

(** The body of [for post in posts]. *)
Definition process_post (w : World) (feed_item : Feed) (post : Post) (st : State)
    : State * list Event :=
  if is_post_sent (link post) (db st) then
    (st, [EvIsPostSent (link post) true])
  else
    let message_text := format_telegram_message post (f_name feed_item) in
    if send_message w (sends st) message_text then
      match mark_post_sent (f_id feed_item) (link post) (clock st) (db st) with
      | Ok db' =>
          (mkState db' (clock st + 2) (S (sends st)),
           [EvIsPostSent (link post) false; EvSend message_text true;
            EvMarkPostSent (f_id feed_item) (link post) true; EvSleep 2])
      | Raise _ =>
          (mkState (db st) (clock st) (S (sends st)),
           [EvIsPostSent (link post) false; EvSend message_text true;
            EvMarkPostSent (f_id feed_item) (link post) false; EvLogError])
      end
    else
      (mkState (db st) (clock st) (S (sends st)),
       [EvIsPostSent (link post) false; EvSend message_text false; EvLogError]).

Fixpoint process_posts (w : World) (feed_item : Feed) (posts : list Post) (st : State)
    : State * list Event :=
  match posts with
  | [] => (st, [])
  | post :: rest =>
      let (st1, tr1) := process_post w feed_item post st in
      let (st2, tr2) := process_posts w feed_item rest st1 in
      (st2, tr1 ++ tr2)
  end.

(** The body of [for feed_item in feeds]. *)
Definition process_feed (w : World) (feed_item : Feed) (st : State)
    : State * list Event :=
  let posts := fetch_feed (lib w) (f_url feed_item) in
  if not_posts posts then
    (st, [EvFetch (f_url feed_item) (match posts with Some _ => true | None => false end)])
  else
    let (st1, tr1) := process_posts w feed_item (match posts with Some ps => ps | None => [] end) st in
    (mkState (update_feed_check_time (f_id feed_item) (clock st1) (db st1))
             (clock st1) (sends st1),
     EvFetch (f_url feed_item) true :: tr1 ++ [EvUpdateCheck (f_id feed_item)]).

Fixpoint process_feeds (w : World) (feeds : list Feed) (st : State)
    : State * list Event :=
  match feeds with
  | [] => (st, [])
  | feed_item :: rest =>
      let (st1, tr1) := process_feed w feed_item st in
      let (st2, tr2) := process_feeds w rest st1 in
      (st2, tr1 ++ tr2)
  end.

(** One iteration of [while True]: the feed list is read once, every feed
    is processed, then the loop sleeps 15 minutes.  The store calls of this
    embedding cannot fail, apart from the UNIQUE violation that
    [process_post] handles, so the outer [except] clause (log, sleep 60
    seconds, retry) is never entered and is left out.  An iteration runs
    without store commands interleaved inside it; they come between
    iterations (see [Op] below). *)
Definition cycle (w : World) (st : State) : State * list Event :=
  let feeds := get_all_feeds (db st) in
  let (st1, tr) := process_feeds w feeds st in
  (mkState (db st1) (clock st1 + 900) (sends st1), tr ++ [EvSleep 900]).

(** [check_feeds_periodically], cut after as many iterations as there are
    worlds in the list. *)
Fixpoint check_feeds_periodically (ws : list World) (st : State)
    : State * list Event :=
  match ws with
  | [] => (st, [])
  | w :: rest =>
      let (st1, tr1) := cycle w st in
      let (st2, tr2) := check_feeds_periodically rest st1 in
      (st2, tr1 ++ tr2)
  end.

(** What can happen to the store between two iterations: the command
    handlers' calls ([add_feed], [remove_feed], [get_all_feeds]), the two
    writers the loop uses, called on their own, and an iteration of the
    loop itself. *)
Inductive Op :=
| OpAddFeed (url name : string)
| OpRemoveFeed (url : string)
| OpListFeeds
| OpUpdateCheck (feed_id : nat)
| OpMarkPostSent (feed_id : nat) (post_url : string)
| OpCycle (w : World).

Definition with_db (st : State) (d : DB) : State := mkState d (clock st) (sends st).

Definition exec_op (o : Op) (st : State) : State * list Event :=
  match o with
  | OpAddFeed url name => (with_db st (add_feed url name (db st)), [])
  | OpRemoveFeed url => (with_db st (snd (remove_feed url (db st))), [])
  | OpListFeeds => (st, [])
  | OpUpdateCheck feed_id =>
      (with_db st (update_feed_check_time feed_id (clock st) (db st)), [])
  | OpMarkPostSent feed_id post_url =>
      match mark_post_sent feed_id post_url (clock st) (db st) with
      | Ok db' => (with_db st db', [])
      | Raise _ => (st, [])
      end
  | OpCycle w => cycle w st
  end.

Fixpoint exec (ops : list Op) (st : State) : State * list Event :=
  match ops with
  | [] => (st, [])
  | o :: rest =>
      let (st1, tr1) := exec_op o st in
      let (st2, tr2) := exec rest st1 in
      (st2, tr1 ++ tr2)
  end.

(** Reading a trace: the sends that returned, and the seconds slept. *)
Definition is_delivery (e : Event) : bool :=
  match e with
  | EvSend _ true => true
  | _ => false
  end.

Definition deliveries (tr : list Event) : nat := List.length (filter is_delivery tr).

Definition pause_of (e : Event) : nat :=
  match e with
  | EvSleep seconds => seconds
  | _ => 0
  end.

Definition slept (tr : list Event) : nat := list_sum (map pause_of tr).

(** The [update_feed_check_time] calls a trace holds for one feed id. *)
Definition is_update_of (feed_id : nat) (e : Event) : bool :=
  match e with
  | EvUpdateCheck i => Nat.eqb i feed_id
  | _ => false
  end.

Definition count_updates (feed_id : nat) (tr : list Event) : nat :=
  List.length (filter (is_update_of feed_id) tr).

(** The row of [rss_feeds] with a given id, and that row once checked. *)
Definition feed_row (feed_id : nat) (d : DB) : option Feed :=
  find (fun f => Nat.eqb (f_id f) feed_id) (rss_feeds d).

Definition checked_at (now : timestamp) (f : Feed) : Feed :=
  mkFeed (f_id f) (f_url f) (f_name f) (Some now).

(** Does the trace hold a successful [mark_post_sent] of the url [u]? *)
Definition is_mark_of (u : string) (e : Event) : bool :=
  match e with
  | EvMarkPostSent _ v true => String.eqb v u
  | _ => false
  end.

Definition marked (u : string) (tr : list Event) : bool := existsb (is_mark_of u) tr.

(** Would [o], run on the store [d], delete a ledger row of the url [u]?
    Only [remove_feed] deletes ledger rows, and only those recorded under
    the feed it removes. *)
Definition removes_row_of (u : string) (o : Op) (d : DB) : bool :=
  match o with
  | OpRemoveFeed url =>
      match select_feed_by_url url d with
      | Some f =>
          existsb (fun sp => String.eqb (sp_post_url sp) u
                             && Nat.eqb (sp_feed_id sp) (f_id f))
                  (sent_posts d)
      | None => false
      end
  | _ => false
  end.

(** No step of [ops], run from [st], deletes a ledger row of [u]. *)
Fixpoint row_survives (u : string) (ops : list Op) (st : State) : bool :=
  match ops with
  | [] => true
  | o :: rest =>
      negb (removes_row_of u o (db st)) && row_survives u rest (fst (exec_op o st))
  end.

(** The state [main] starts the loop in: a fresh database file. *)
Definition start : State := mkState (init_db None) 0 0.

End Bot.

(* ================================================================== *)
(** ** Concrete stores, feeds and worlds used in the examples *)
(* ================================================================== *)

(** The escaping the formatter is meant to perform on title and
    description, written character by character; the three chained
    [replace] calls of [format_telegram_message] are compared with it. *)
Module Escaping.

Definition escape_char (c : ascii) : string :=
  if Ascii.eqb c "&" then "&amp;"
  else if Ascii.eqb c "<" then "&lt;"
  else if Ascii.eqb c ">" then "&gt;"
  else String c EmptyString.

Fixpoint html_escape (s : string) : string :=
  match s with
  | EmptyString => EmptyString
  | String c s' => (escape_char c ++ html_escape s')%string
  end.

(** Does [s] hold one of the characters that mean something in markup? *)
Fixpoint has_markup_char (s : string) : bool :=
  match s with
  | EmptyString => false
  | String c s' =>
      Ascii.eqb c "&" || Ascii.eqb c "<" || Ascii.eqb c ">" || has_markup_char s'
  end.

End Escaping.

Module Samples.

Import Database RSSCrawler Bot.

(** A stand-in for BeautifulSoup's [get_text]: drops what stands between
    a "<" and the next ">". *)
Fixpoint strip_markup (in_tag : bool) (s : string) : string :=
  match s with
  | EmptyString => EmptyString
  | String c s' =>
      if in_tag then strip_markup (negb (Ascii.eqb c ">")) s'
      else if Ascii.eqb c "<" then strip_markup true s'
      else String c (strip_markup false s')
  end.

Fixpoint repeat_char (c : ascii) (n : nat) : string :=
  match n with
  | 0 => EmptyString
  | S n' => String c (repeat_char c n')
  end.

Definition entry_with (link : option string) (description : string)
    (ts : option (list Tag)) : Entry :=
  mkEntry (Some "A title") link (Some description) (Some "2024-05-01") ts None.

Definition long_entry : Entry :=
  entry_with (Some "http://news.example/long")
             ("<p>" ++ repeat_char "a" 600 ++ "</p>")%string None.

Definition short_entry : Entry :=
  entry_with (Some "http://news.example/short")
             ("<p>" ++ repeat_char "b" 400 ++ "</p>")%string None.

Definition twice_tagged_entry : Entry :=
  entry_with (Some "http://news.example/tags") "text"
             (Some [mkTag (Some "python"); mkTag None; mkTag (Some "python")]).

Definition categorised_entry : Entry :=
  mkEntry (Some "A title") (Some "http://news.example/cat") None None None
          (Some ["rust"; EmptyString; "rust"]).

Definition no_feed : string -> Charset -> option ParsedFeed := fun _ _ => None.

(** A BeautifulSoup that always works. *)
Definition never_raises : string -> bool := fun _ => false.

Definition plain_lib : Library :=
  mkLibrary no_feed (strip_markup false) never_raises (fun _ => "2024-05-02T10:00:00").

Definition news_url : string := "http://news.example/rss".

Definition blog_url : string := "http://blog.example/atom".

(** Two feeds (ids 1 and 2) and three ledger rows, two of them recorded
    under the feed [news]. *)
Definition store_two_feeds : DB :=
  db (fst (exec [OpAddFeed news_url "News"; OpAddFeed blog_url "Blog";
                 OpMarkPostSent 1 "http://news.example/1";
                 OpMarkPostSent 2 "http://blog.example/1";
                 OpMarkPostSent 1 "http://news.example/2"] start)).

(** Small entries for the loop. *)
Definition entry_a : Entry := entry_with (Some "http://news.example/a") "first" None.
Definition entry_b : Entry := entry_with (Some "http://news.example/b") "second" None.
Definition linkless_entry : Entry := entry_with None "no link here" None.

Definition feed_of (es : list Entry) : ParsedFeed := mkParsedFeed false OtherException es.

(** feedparser answering for [news_url] only. *)
Definition news_only (es : list Entry) : string -> Charset -> option ParsedFeed :=
  fun url _ => if String.eqb url news_url then Some (feed_of es) else None.

Definition lib_news (es : list Entry) : Library :=
  mkLibrary (news_only es) (strip_markup false) never_raises (fun _ => "2024-05-02T10:00:00").

(** Sinks: one that always accepts, one that always raises, one that
    raises on the first call only. *)
Definition sink_ok : nat -> string -> bool := fun _ _ => true.
Definition sink_down : nat -> string -> bool := fun _ _ => false.
Definition sink_first_fails : nat -> string -> bool := fun n _ => negb (Nat.eqb n 0).

Definition markup_post : Post :=
  mkPost "Q&A <live>" "http://news.example/q" "a < b" "2024-05-01" [].

Definition world_news_ab_down : World := mkWorld (lib_news [entry_a; entry_b]) sink_down.

(** The news feed parses without error and has no entry. *)
Definition world_news_empty : World := mkWorld (lib_news []) sink_ok.

(** The news feed cannot be fetched. *)
Definition world_unreachable : World :=
  mkWorld (mkLibrary no_feed (strip_markup false) never_raises (fun _ => "2024-05-02T10:00:00"))
          sink_ok.

(** The same link under two entries: the sink raises for the first and
    accepts the second. *)
Definition entry_a_again : Entry :=
  entry_with (Some "http://news.example/a") "first, corrected" None.

Definition world_same_link : World :=
  mkWorld (lib_news [entry_a; entry_a_again]) sink_first_fails.

(** The sink raises for [entry_a] and accepts [entry_b]. *)
Definition world_first_fails : World :=
  mkWorld (lib_news [entry_a; entry_b]) sink_first_fails.

(** feedparser answering for one url only. *)
Definition feed_at (at_url : string) (es : list Entry)
    : string -> Charset -> option ParsedFeed :=
  fun url _ => if String.eqb url at_url then Some (feed_of es) else None.

Definition world_linkless_at (at_url : string) : World :=
  mkWorld (mkLibrary (feed_at at_url [linkless_entry]) (strip_markup false)
                     never_raises (fun _ => "2024-05-02T10:00:00"))
          sink_ok.

(** Two feeds; the news feed has delivered a link-less post. *)
Definition state_linkless_sent : State :=
  fst (exec [OpAddFeed news_url "News"; OpAddFeed blog_url "Blog";
             OpCycle (world_linkless_at news_url)] start).

Definition world_news_ab : World := mkWorld (lib_news [entry_a; entry_b]) sink_ok.

(** The store after [/addfeed] of the news feed on a fresh database. *)
Definition state_news : State := fst (exec [OpAddFeed news_url "News"] start).

End Samples.

(* ================================================================== *)
(** ** Properties of states and traces used in the proofs *)
(* ================================================================== *)

Module TraceProperties.

Import Database RSSCrawler Bot.

(** The three ways the loop body can go.  The insert into the ledger
    cannot raise here: the url was looked up just before. *)
Inductive post_outcome (w : World) (f : Feed) (p : Post) (st : State)
    : State -> list Event -> Prop :=
| Skipped :
    is_post_sent (link p) (db st) = true ->
    post_outcome w f p st st [EvIsPostSent (link p) true]
| SendFailed :
    is_post_sent (link p) (db st) = false ->
    send_message w (sends st) (format_telegram_message p (f_name f)) = false ->
    post_outcome w f p st
      (mkState (db st) (clock st) (S (sends st)))
      [EvIsPostSent (link p) false;
       EvSend (format_telegram_message p (f_name f)) false; EvLogError]
| Delivered :
    is_post_sent (link p) (db st) = false ->
    send_message w (sends st) (format_telegram_message p (f_name f)) = true ->
    post_outcome w f p st
      (mkState (mkDB (rss_feeds (db st))
                     (sent_posts (db st)
                        ++ [mkSentPost (S (sent_posts_seq (db st))) (f_id f)
                                       (link p) (clock st)])
                     (rss_feeds_seq (db st)) (S (sent_posts_seq (db st))))
               (clock st + 2) (S (sends st)))
      [EvIsPostSent (link p) false;
       EvSend (format_telegram_message p (f_name f)) true;
       EvMarkPostSent (f_id f) (link p) true; EvSleep 2].

(** What a pass has asked and recorded so far: a url that [is_post_sent]
    reported as sent is still in the ledger, and every [mark_post_sent]
    call came right after a negative lookup of the same url and a send
    that returned. *)
Definition marks_guarded (st : State) (h : list Event) : Prop :=
  (forall u, In (EvIsPostSent u true) h -> is_post_sent u (db st) = true)
  /\ (forall pre fid u ok post,
        h = pre ++ EvMarkPostSent fid u ok :: post ->
        ok = true
        /\ ~ In (EvIsPostSent u true) pre
        /\ exists pre' text, pre = pre' ++ [EvIsPostSent u false; EvSend text true]).

(** The order of calls around a send: a send that returned is followed by
    the ledger insert and the 2-second sleep, a send that raised by the
    error log, and a 2-second sleep only ever follows such an insert. *)
Definition paced (h : list Event) : Prop :=
  (forall pre t post,
     h = pre ++ EvSend t true :: post ->
     exists fid u post', post = EvMarkPostSent fid u true :: EvSleep 2 :: post')
  /\ (forall pre t post,
        h = pre ++ EvSend t false :: post -> exists post', post = EvLogError :: post')
  /\ (forall pre post,
        h = pre ++ EvSleep 2 :: post ->
        exists pre' t fid u, pre = pre' ++ [EvSend t true; EvMarkPostSent fid u true]).

(** The clock moves by what was slept, and before the closing 15-minute
    sleep that is 2 seconds per delivery. *)
Definition clocked (c0 : nat) (st : State) (h : list Event) : Prop :=
  paced h /\ clock st = c0 + slept h /\ slept h = 2 * deliveries h.

(** The ledger holds [u] exactly when it did at [st0] or the calls made
    since then recorded it. *)
Definition ledger_grown (u : string) (st0 st : State) (h : list Event) : Prop :=
  is_post_sent u (db st) = is_post_sent u (db st0) || marked u h.

(** Nothing in the trace delivers the url [u]: every lookup of [u] answers
    "sent", no insert is made for [u], and every send comes right after a
    negative lookup of some other url. *)
Definition quiet (u : string) (h : list Event) : Prop :=
  (forall r, In (EvIsPostSent u r) h -> r = true)
  /\ (forall fid ok, ~ In (EvMarkPostSent fid u ok) h)
  /\ (forall pre t ok post,
        h = pre ++ EvSend t ok :: post ->
        exists pre' v, pre = pre' ++ [EvIsPostSent v false] /\ v <> u).

(** [u] is in the ledger and nothing so far delivered it again. *)
Definition stays_sent (u : string) (st : State) (h : list Event) : Prop :=
  is_post_sent u (db st) = true /\ quiet u h.

End TraceProperties.

(* ================================================================== *)
(** ** bot.py: the command handlers *)
(* ================================================================== *)

Module Commands.

Import Database RSSCrawler.

(** [str.isspace] on one character, for the characters below 256: the
    ASCII controls 9 to 13 and 28 to 31, the space, NEL and the no-break
    space. *)
Definition isspace (c : ascii) : bool :=
  let n := nat_of_ascii c in
  (Nat.leb 9 n && Nat.leb n 13) || (Nat.leb 28 n && Nat.leb n 31)
  || Nat.eqb n 32 || Nat.eqb n 133 || Nat.eqb n 160.

(** The leading whitespace dropped. *)
Fixpoint skip_space (s : string) : string :=
  match s with
  | EmptyString => EmptyString
  | String c s' => if isspace c then skip_space s' else s
  end.

(** The characters up to the first whitespace, and what follows them. *)
Fixpoint take_word (s : string) : string * string :=
  match s with
  | EmptyString => (EmptyString, EmptyString)
  | String c s' =>
      if isspace c then (EmptyString, s)
      else let (word, rest) := take_word s' in (String c word, rest)
  end.

(** [s.split(maxsplit=n)]: words separated by runs of whitespace; once
    [n] words are cut off, what is left goes into the last item without
    its leading whitespace, and is left out when it is empty. *)
Fixpoint split (maxsplit : nat) (s : string) : list string :=
  match skip_space s with
  | EmptyString => []
  | String c s' =>
      match maxsplit with
      | 0 => [String c s']
      | S n => let (word, rest) := take_word (String c s') in word :: split n rest
      end
  end.

(** An incoming message: who sent it and its text. *)
Record Message := mkMessage {
  from_user_id : nat;
  text : string
}.

(** What the handlers work on: the database file and the in-memory set
    [authenticated_users]. *)
Record App := mkApp {
  store : DB;
  authenticated_users : list nat
}.

(** [x in s], [s.add(x)] and [s.remove(x)] on the set of user ids. *)
Definition user_in (x : nat) (s : list nat) : bool := existsb (Nat.eqb x) s.

Definition user_add (x : nat) (s : list nat) : list nat :=
  if user_in x s then s else x :: s.

Definition user_remove (x : nat) (s : list nat) : list nat :=
  filter (fun y => negb (Nat.eqb x y)) s.

(** A handler takes the message and the state and gives the new state and
    the texts it replies with. *)
Definition Handler := Message -> App -> App * list string.

Definition newline : string := RSSCrawler.newline.

Definition reply_login_required : string :=
  "🔒 This command requires you to be logged in. Please use /login <password>.".

(** The decorator [require_authentication]. *)
Definition require_authentication (func : Handler) : Handler :=
  fun message app =>
    if negb (user_in (from_user_id message) (authenticated_users app))
    then (app, [reply_login_required])
    else func message app.

Definition reply_login_usage : string :=
  "Please provide the password. Usage: /login <password>".
Definition reply_logged_in : string := "✅ You are now logged in!".
Definition reply_incorrect_password : string := "❌ Incorrect password.".

(** [/login]; [password] is [BOT_PASSWORD]. *)
Definition login_command_handler (password : string) : Handler :=
  fun message app =>
    let args := split 1 (text message) in
    if Nat.ltb (List.length args) 2 then (app, [reply_login_usage])
    else
      let password_attempt := nth 1 args EmptyString in
      if String.eqb password_attempt password then
        (mkApp (store app) (user_add (from_user_id message) (authenticated_users app)),
         [reply_logged_in])
      else (app, [reply_incorrect_password]).

Definition reply_logged_out : string := "✅ You have been logged out.".
Definition reply_not_logged_in : string := "You are not currently logged in.".

(** [/logout]. *)
Definition logout_command_handler : Handler :=
  require_authentication (fun message app =>
    if user_in (from_user_id message) (authenticated_users app) then
      (mkApp (store app) (user_remove (from_user_id message) (authenticated_users app)),
       [reply_logged_out])
    else (app, [reply_not_logged_in])).

Definition reply_addfeed_usage : string :=
  ("Please provide both URL and name for the feed." ++ newline
   ++ "Usage: /addfeed <url> <name>")%string.
Definition reply_invalid_feed : string :=
  "❌ Invalid RSS feed URL or feed not accessible.".
Definition reply_feed_added (name : string) : string :=
  ("✅ Successfully added feed: " ++ name)%string.

(** [/addfeed]: the feed is fetched once as a test before it is stored. *)
Definition add_feed_command_handler (crawler : Library) : Handler :=
  require_authentication (fun message app =>
    let args := split 2 (text message) in
    if Nat.ltb (List.length args) 3 then (app, [reply_addfeed_usage])
    else
      let url := nth 1 args EmptyString in
      let name := nth 2 args EmptyString in
      match fetch_feed crawler url with
      | None => (app, [reply_invalid_feed])
      | Some _ =>
          (mkApp (add_feed url name (store app)) (authenticated_users app),
           [reply_feed_added name])
      end).

Definition reply_no_feeds : string := "No feeds configured yet.".

Definition feed_line (feed_item : Feed) : string :=
  ("• " ++ f_name feed_item ++ ": " ++ f_url feed_item ++ newline)%string.

(** [/listfeeds]. *)
Definition list_feeds_handler : Handler :=
  require_authentication (fun message app =>
    let feeds := get_all_feeds (store app) in
    match feeds with
    | [] => (app, [reply_no_feeds])
    | _ :: _ =>
        (app,
         [fold_left (fun response_message feed_item =>
                       (response_message ++ feed_line feed_item)%string)
                    feeds
                    ("📚 Configured feeds:" ++ newline ++ newline)%string])
    end).

Definition reply_removefeed_usage : string :=
  ("Please provide the URL of the feed to remove." ++ newline
   ++ "Usage: /removefeed <url>")%string.
Definition reply_feed_removed (url : string) : string :=
  ("✅ Successfully removed feed: " ++ url)%string.
Definition reply_feed_not_found : string :=
  "❌ Feed not found. Use /listfeeds to see available feeds.".

(** [/removefeed]. *)
Definition remove_feed_handler : Handler :=
  require_authentication (fun message app =>
    let args := split 1 (text message) in
    if Nat.ltb (List.length args) 2 then (app, [reply_removefeed_usage])
    else
      let url := nth 1 args EmptyString in
      let (success, store') := remove_feed url (store app) in
      if success then
        (mkApp store' (authenticated_users app), [reply_feed_removed url])
      else (app, [reply_feed_not_found])).

(** The commands, as the dispatcher hands them to their handlers. *)
Inductive Command :=
| Login (message : Message)
| Logout (message : Message)
| AddFeed (message : Message)
| ListFeeds (message : Message)
| RemoveFeed (message : Message).

Definition sender (c : Command) : nat :=
  match c with
  | Login m | Logout m | AddFeed m | ListFeeds m | RemoveFeed m => from_user_id m
  end.

Definition handle (password : string) (crawler : Library) (c : Command) (app : App)
    : App * list string :=
  match c with
  | Login m => login_command_handler password m app
  | Logout m => logout_command_handler m app
  | AddFeed m => add_feed_command_handler crawler m app
  | ListFeeds m => list_feeds_handler m app
  | RemoveFeed m => remove_feed_handler m app
  end.

Fixpoint handle_all (password : string) (crawler : Library) (cs : list Command)
    (app : App) : App * list string :=
  match cs with
  | [] => (app, [])
  | c :: rest =>
      let (app1, replies1) := handle password crawler c app in
      let (app2, replies2) := handle_all password crawler rest app1 in
      (app2, replies1 ++ replies2)
  end.

(** A [/login] message that carries the right password. *)
Definition logs_in (password : string) (c : Command) : bool :=
  match c with
  | Login m =>
      match split 1 (text m) with
      | _ :: attempt :: _ => String.eqb attempt password
      | _ => false
      end
  | _ => false
  end.

(** Has the string a whitespace character? *)
Fixpoint has_space (s : string) : bool :=
  match s with
  | EmptyString => false
  | String c s' => isspace c || has_space s'
  end.

End Commands.

(* ================================================================== *)
(** ** More readings of a trace *)
(* ================================================================== *)

Module Readings.

Import Database RSSCrawler Bot.

(** The sink calls of a trace. *)
Definition is_send (e : Event) : bool :=
  match e with
  | EvSend _ _ => true
  | _ => false
  end.

Definition count_sends (tr : list Event) : nat := List.length (filter is_send tr).

(** The successful ledger inserts of one url. *)
Definition count_marks (u : string) (tr : list Event) : nat :=
  List.length (filter (is_mark_of u) tr).

(** The urls looked up in the ledger, in the order of the lookups. *)
Fixpoint lookups (tr : list Event) : list string :=
  match tr with
  | [] => []
  | EvIsPostSent u _ :: rest => u :: lookups rest
  | _ :: rest => lookups rest
  end.

(** The links of the posts a feed's fetch returns; none when it fails. *)
Definition fetched_links (w : World) (f : Feed) : list string :=
  match fetch_feed (lib w) (f_url f) with
  | Some ps => map link ps
  | None => []
  end.


(** The identity of a feed row: everything but [last_check]. *)
Definition feed_identity (f : Feed) : nat * string * string :=
  (f_id f, f_url f, f_name f).

End Readings.

(* ================================================================== *)
(** ** More properties of states and traces used in the proofs *)
(* ================================================================== *)

Module LoopProperties.

Import Database RSSCrawler Bot TraceProperties Readings.

(** Along the loop a url is recorded at most once, and not at all when it
    was in the ledger at the start. *)
Definition recorded_once (u : string) (st0 st : State) (h : list Event) : Prop :=
  ledger_grown u st0 st h
  /\ count_marks u h <= 1
  /\ (is_post_sent u (db st0) = true -> count_marks u h = 0).

End LoopProperties.

(* ================================================================== *)
(** ** The feed store *)
(* ================================================================== *)

Import Database RSSCrawler Bot TraceProperties.

Lemma select_feed_by_url_some url db f :
  select_feed_by_url url db = Some f -> In f (rss_feeds db) /\ f_url f = url.
Proof.
  unfold select_feed_by_url. intros H.
  apply find_some in H. destruct H as [Hin Heq].
  split; [exact Hin | now apply String.eqb_eq].
Qed.

Lemma select_feed_by_url_none url db :
  select_feed_by_url url db = None <-> (forall f, In f (rss_feeds db) -> f_url f <> url).
Proof.
  unfold select_feed_by_url. split.
  - intros H f Hin Hu.
    pose proof (find_none _ _ H f Hin) as Hf. simpl in Hf.
    rewrite Hu, String.eqb_refl in Hf. discriminate.
  - intros H. destruct (find _ _) as [f|] eqn:E; [|reflexivity].
    apply find_some in E. destruct E as [Hin Heq].
    apply String.eqb_eq in Heq. exfalso. exact (H f Hin Heq).
Qed.

Lemma select_feed_by_url_unique url db f :
  NoDup (map f_url (rss_feeds db)) -> In f (rss_feeds db) -> f_url f = url ->
  select_feed_by_url url db = Some f.
Proof.
  unfold select_feed_by_url. induction (rss_feeds db) as [|g l IH]; simpl.
  - intros _ [].
  - intros Hnd [->|Hin] Hu.
    + rewrite Hu, String.eqb_refl. reflexivity.
    + inversion Hnd as [|? ? Hnotin Hnd']; subst.
      destruct (String.eqb (f_url g) (f_url f)) eqn:E.
      * apply String.eqb_eq in E. exfalso. apply Hnotin. rewrite E.
        now apply in_map.
      * now apply IH.
Qed.

Lemma filter_url_absent (l : list Feed) u :
  ~ In u (map f_url l) -> filter (fun g => String.eqb (f_url g) u) l = [].
Proof.
  induction l as [|g l IH]; simpl; [reflexivity|].
  intros Hnotin. destruct (String.eqb (f_url g) u) eqn:E.
  - apply String.eqb_eq in E. exfalso. apply Hnotin. now left.
  - apply IH. intros Hc. apply Hnotin. now right.
Qed.

Lemma filter_url_singleton (l : list Feed) f :
  NoDup (map f_url l) -> In f l ->
  filter (fun g => String.eqb (f_url g) (f_url f)) l = [f].
Proof.
  induction l as [|g l IH]; simpl.
  - intros _ [].
  - intros Hnd Hin. inversion Hnd as [|? ? Hnotin Hnd']; subst.
    destruct Hin as [->|Hin].
    + rewrite String.eqb_refl. f_equal. now apply filter_url_absent.
    + destruct (String.eqb (f_url g) (f_url f)) eqn:E.
      * apply String.eqb_eq in E. exfalso. apply Hnotin. rewrite E.
        now apply in_map.
      * now apply IH.
Qed.

(** Deleting rows keeps a column unique. *)
Lemma NoDup_map_filter {Row Key} (key : Row -> Key) (keep : Row -> bool) :
  forall rows : list Row,
  NoDup (map key rows) -> NoDup (map key (filter keep rows)).
Proof.
  intros rows. induction rows as [|r rows IH]; simpl; intros Hnd; [constructor|].
  inversion Hnd as [|? ? Hnotin Hnd']; subst.
  destruct (keep r); simpl; [|now apply IH].
  constructor; [|now apply IH].
  intros Hc. apply Hnotin. apply in_map_iff in Hc.
  destruct Hc as [x [Hx Hin]]. apply filter_In in Hin.
  apply in_map_iff. exists x. tauto.
Qed.

Lemma NoDup_snoc {A} (l : list A) (a : A) :
  NoDup l -> ~ In a l -> NoDup (l ++ [a]).
Proof.
  intros Hnd Hnotin. apply NoDup_app; [exact Hnd|repeat constructor; intros []|].
  intros x Hx [<-|[]]. exact (Hnotin Hx).
Qed.

Lemma is_post_sent_true u d :
  is_post_sent u d = true <-> In u (map sp_post_url (sent_posts d)).
Proof.
  unfold is_post_sent. rewrite existsb_exists, in_map_iff. split.
  - intros [sp [Hin Heq]]. apply String.eqb_eq in Heq. now exists sp.
  - intros [sp [Heq Hin]]. exists sp. split; [exact Hin|now apply String.eqb_eq].
Qed.

Lemma is_post_sent_false u d :
  is_post_sent u d = false <-> ~ In u (map sp_post_url (sent_posts d)).
Proof.
  rewrite <- is_post_sent_true. destruct (is_post_sent u d); split; intros H;
    try reflexivity; try discriminate; try (intros Hc; discriminate).
  exfalso. now apply H.
Qed.

Lemma map_update_check_id fid now (l : list Feed) :
  map f_id (map (fun f => if Nat.eqb (f_id f) fid
                          then mkFeed (f_id f) (f_url f) (f_name f) (Some now)
                          else f) l) = map f_id l.
Proof.
  rewrite map_map. apply map_ext. intros f. now destruct (Nat.eqb (f_id f) fid).
Qed.

Lemma map_update_check_url fid now (l : list Feed) :
  map f_url (map (fun f => if Nat.eqb (f_id f) fid
                           then mkFeed (f_id f) (f_url f) (f_name f) (Some now)
                           else f) l) = map f_url l.
Proof.
  rewrite map_map. apply map_ext. intros f. now destruct (Nat.eqb (f_id f) fid).
Qed.

(** *** The schema's constraints hold in every store the operations build *)

Lemma schema_ok_empty : schema_ok empty_db.
Proof. constructor; simpl; try constructor; intros f []. Qed.

Lemma schema_ok_init_db file :
  (forall d, file = Some d -> schema_ok d) -> schema_ok (init_db file).
Proof.
  destruct file as [d|]; simpl; intros H; [now apply H|apply schema_ok_empty].
Qed.

Lemma schema_ok_add_feed url name d : schema_ok d -> schema_ok (add_feed url name d).
Proof.
  intros [Hu Hi Hs Hp]. unfold add_feed.
  destruct (select_feed_by_url url d) eqn:E.
  { constructor; simpl; try assumption.
    intros g Hg. specialize (Hs g Hg). lia. }
  rewrite select_feed_by_url_none in E.
  constructor; simpl.
  - rewrite map_app. simpl. apply NoDup_snoc; [exact Hu|].
    intros Hc. apply in_map_iff in Hc. destruct Hc as [f [Hf Hin]].
    exact (E f Hin Hf).
  - rewrite map_app. simpl. apply NoDup_snoc; [exact Hi|].
    intros Hc. apply in_map_iff in Hc. destruct Hc as [f [Hf Hin]].
    specialize (Hs f Hin). lia.
  - intros f Hin. apply in_app_iff in Hin. destruct Hin as [Hin|[<-|[]]].
    + specialize (Hs f Hin). lia.
    + simpl. lia.
  - exact Hp.
Qed.

Lemma schema_ok_update_feed_check_time fid now d :
  schema_ok d -> schema_ok (update_feed_check_time fid now d).
Proof.
  intros [Hu Hi Hs Hp]. constructor; simpl.
  - now rewrite map_update_check_url.
  - now rewrite map_update_check_id.
  - intros f Hin. apply in_map_iff in Hin. destruct Hin as [g [Hg Hin]].
    specialize (Hs g Hin). destruct (Nat.eqb (f_id g) fid); subst; simpl; lia.
  - exact Hp.
Qed.

Lemma schema_ok_mark_post_sent fid u now d d' :
  schema_ok d -> mark_post_sent fid u now d = Ok d' -> schema_ok d'.
Proof.
  intros [Hu Hi Hs Hp]. unfold mark_post_sent.
  destruct (is_post_sent u d) eqn:E; [discriminate|].
  intros H. injection H as <-. constructor; simpl; try assumption.
  rewrite map_app. simpl. apply NoDup_snoc; [exact Hp|].
  now apply is_post_sent_false.
Qed.

Lemma schema_ok_remove_feed url d : schema_ok d -> schema_ok (snd (remove_feed url d)).
Proof.
  intros [Hu Hi Hs Hp]. unfold remove_feed.
  destruct (select_feed_by_url url d) as [f|]; simpl; [|now constructor].
  constructor; simpl.
  - now apply NoDup_map_filter.
  - now apply NoDup_map_filter.
  - intros g Hin. apply filter_In in Hin. now apply Hs.
  - now apply NoDup_map_filter.
Qed.

Lemma feed_of_url_unique d f g :
  NoDup (map f_url (rss_feeds d)) ->
  In f (rss_feeds d) -> In g (rss_feeds d) -> f_url f = f_url g -> f = g.
Proof.
  intros Hnd Hf Hg Hu.
  pose proof (select_feed_by_url_unique (f_url g) d f Hnd Hf Hu) as H1.
  pose proof (select_feed_by_url_unique (f_url g) d g Hnd Hg eq_refl) as H2.
  congruence.
Qed.

(** C7.  [remove_feed url] answers [False] and leaves the store as it is when
    no feed has that url.  When a feed has it, the answer is [True]; and
    whenever the answer is [True], some feed [f] with that url existed, the
    new [rss_feeds] is the old one without the rows of id [f_id f], the new
    [sent_posts] is the old one without the rows whose [feed_id] is
    [f_id f] (so no ledger row refers to the removed id any more), both in
    the same single transition, and no feed with that url is left. *)
Theorem remove_feed_cascade : forall url d,
  ((forall f, In f (rss_feeds d) -> f_url f <> url) ->
     remove_feed url d = (false, d))
  /\ (forall f, In f (rss_feeds d) -> f_url f = url ->
        fst (remove_feed url d) = true)
  /\ (forall d', remove_feed url d = (true, d') ->
        exists f, In f (rss_feeds d) /\ f_url f = url
          /\ (forall g, In g (rss_feeds d') <->
                        In g (rss_feeds d) /\ f_id g <> f_id f)
          /\ (forall sp, In sp (sent_posts d') <->
                         In sp (sent_posts d) /\ sp_feed_id sp <> f_id f)
          /\ (schema_ok d -> forall g, In g (rss_feeds d') -> f_url g <> url)).
Proof.
  intros url d. unfold remove_feed. repeat split.
  - intros H. apply select_feed_by_url_none in H. now rewrite H.
  - intros f Hin Hu. destruct (select_feed_by_url url d) eqn:E; [reflexivity|].
    rewrite select_feed_by_url_none in E. exfalso. exact (E f Hin Hu).
  - intros d'. destruct (select_feed_by_url url d) as [f|] eqn:E; [|discriminate].
    intros H. injection H as <-.
    destruct (select_feed_by_url_some _ _ _ E) as [Hin Hu].
    exists f. split; [exact Hin|]. split; [exact Hu|]. simpl. repeat split.
    + apply filter_In in H. tauto.
    + apply filter_In in H. destruct H as [_ H].
      apply negb_true_iff, Nat.eqb_neq in H. exact H.
    + intros [Hg Hne]. apply filter_In. split; [exact Hg|].
      now apply negb_true_iff, Nat.eqb_neq.
    + apply filter_In in H. tauto.
    + apply filter_In in H. destruct H as [_ H].
      apply negb_true_iff, Nat.eqb_neq in H. exact H.
    + intros [Hg Hne]. apply filter_In. split; [exact Hg|].
      now apply negb_true_iff, Nat.eqb_neq.
    + intros Hok g Hg Hgu. apply filter_In in Hg. destruct Hg as [Hg Hne].
      apply negb_true_iff, Nat.eqb_neq in Hne. apply Hne.
      f_equal. apply (feed_of_url_unique d); try assumption.
      * apply (feed_urls_unique _ Hok).
      * congruence.
Qed.

Lemma remove_feed_cascade_witness :
  remove_feed "http://nowhere.example/rss" Samples.store_two_feeds
    = (false, Samples.store_two_feeds)
  /\ fst (remove_feed Samples.news_url Samples.store_two_feeds) = true
  /\ exists f, In f (rss_feeds Samples.store_two_feeds) /\ f_url f = Samples.news_url
       /\ (forall sp, In sp (sent_posts (snd (remove_feed Samples.news_url
                                                 Samples.store_two_feeds))) ->
                      sp_feed_id sp <> f_id f).
Proof.
  destruct (remove_feed_cascade "http://nowhere.example/rss" Samples.store_two_feeds)
    as [Hfalse _].
  destruct (remove_feed_cascade Samples.news_url Samples.store_two_feeds)
    as [_ [Htrue Hcascade]].
  split.
  - apply Hfalse. intros f [<-|[<-|[]]]; discriminate.
  - split.
    + apply (Htrue (mkFeed 1 Samples.news_url "News" None)); [now left|reflexivity].
    + destruct (Hcascade (snd (remove_feed Samples.news_url Samples.store_two_feeds))
                  eq_refl) as [f [Hin [Hu [_ [Hsp _]]]]].
      exists f. split; [exact Hin|]. split; [exact Hu|].
      intros sp Hsp'. now apply Hsp in Hsp'.
Defined.

(** C8.  In a store that satisfies the schema, after [add_feed u n1] and
    then [add_feed u n2] the second call has changed neither table (the
    existing row is not modified), exactly one feed has url [u], and when
    no feed had url [u] before the first call its stored name is [n1]; a
    row of url [u] that was already there is the one that is kept.  Of the
    store only the id counter of [rss_feeds] differs after the second
    call: the ignored insert uses up an id. *)
Theorem add_feed_twice : forall d u n1 n2,
  schema_ok d ->
  let d1 := add_feed u n1 d in
  let d2 := add_feed u n2 d1 in
  rss_feeds d2 = rss_feeds d1 /\ sent_posts d2 = sent_posts d1
  /\ (exists f, filter (fun g => String.eqb (f_url g) u) (rss_feeds d2) = [f]
       /\ ((forall g, In g (rss_feeds d) -> f_url g <> u) -> f_name f = n1)
       /\ (forall g, In g (rss_feeds d) -> f_url g = u -> f = g))
  /\ rss_feeds_seq d2 = S (rss_feeds_seq d1)
  /\ sent_posts_seq d2 = sent_posts_seq d1.
Proof.
  intros d u n1 n2 Hok d1 d2.
  assert (Hok1 : schema_ok d1) by now apply schema_ok_add_feed.
  assert (Hsel : exists f, select_feed_by_url u d1 = Some f
            /\ ((forall g, In g (rss_feeds d) -> f_url g <> u) -> f_name f = n1)
            /\ (forall g, In g (rss_feeds d) -> f_url g = u -> f = g)).
  { destruct (select_feed_by_url u d) as [f0|] eqn:E.
    - exists f0. destruct (select_feed_by_url_some _ _ _ E) as [Hin Hu].
      split; [|split].
      + subst d1. unfold add_feed. rewrite E. exact E.
      + intros H. exfalso. exact (H f0 Hin Hu).
      + intros g Hg Hgu. apply (feed_of_url_unique d); try assumption.
        * apply (feed_urls_unique _ Hok).
        * congruence.
    - exists (mkFeed (S (rss_feeds_seq d)) u n1 None).
      pose proof (proj1 (select_feed_by_url_none u d) E) as Hfresh.
      split; [|split].
      + apply select_feed_by_url_unique.
        * apply (feed_urls_unique _ Hok1).
        * subst d1. unfold add_feed. rewrite E. simpl.
          apply in_app_iff. right. now left.
        * reflexivity.
      + reflexivity.
      + intros g Hg Hgu. exfalso. exact (Hfresh g Hg Hgu). }
  destruct Hsel as [f [Hsel [Hfresh Hold]]].
  assert (Hd2 : rss_feeds d2 = rss_feeds d1 /\ sent_posts d2 = sent_posts d1)
    by (subst d2; unfold add_feed; cbv zeta; rewrite Hsel; split; reflexivity).
  destruct Hd2 as [Hf2 Hs2]. split; [exact Hf2|]. split; [exact Hs2|].
  split; [|subst d2; unfold add_feed; cbv zeta; rewrite Hsel; split; reflexivity].
  exists f. split; [|split; assumption].
  destruct (select_feed_by_url_some _ _ _ Hsel) as [Hin Hu].
  rewrite Hf2, <- Hu. apply filter_url_singleton; [|exact Hin].
  apply (feed_urls_unique _ Hok1).
Qed.

Lemma add_feed_twice_witness :
  schema_ok empty_db
  /\ exists f, filter (fun g => String.eqb (f_url g) Samples.news_url)
                 (rss_feeds (add_feed Samples.news_url "Second"
                               (add_feed Samples.news_url "First" empty_db))) = [f]
       /\ f_name f = "First".
Proof.
  split; [apply schema_ok_empty|].
  destruct (add_feed_twice empty_db Samples.news_url "First" "Second" schema_ok_empty)
    as [_ [_ [[f [Hf [Hname _]]] _]]].
  exists f. split; [exact Hf|]. apply Hname. intros g [].
Defined.


(* ================================================================== *)
(** ** The fetcher *)
(* ================================================================== *)

Import Escaping.

Lemma length_append (a b : string) :
  String.length (a ++ b)%string = String.length a + String.length b.
Proof. induction a as [|c a IH]; simpl; [reflexivity|now rewrite IH]. Qed.

Lemma slice_to_prefix n : forall s,
  n <= String.length s ->
  String.length (slice_to n s) = n
  /\ exists rest, s = (slice_to n s ++ rest)%string.
Proof.
  induction n as [|n IH]; intros s Hle.
  - split; [now destruct s|]. exists s. now destruct s.
  - destruct s as [|c s]; simpl in *; [lia|].
    destruct (IH s) as [Hlen [rest Hrest]]; [lia|].
    split; [now rewrite Hlen|]. exists rest. now rewrite <- Hrest.
Qed.

Lemma truthy_false s : truthy s = false <-> s = EmptyString.
Proof.
  unfold truthy. rewrite negb_false_iff. apply String.eqb_eq.
Qed.

Lemma truthy_true s : truthy s = true <-> s <> EmptyString.
Proof.
  unfold truthy. rewrite negb_true_iff. apply String.eqb_neq.
Qed.

Lemma count_occ_filter_truthy (l : list string) s :
  s <> EmptyString ->
  count_occ string_dec (filter truthy l) s = count_occ string_dec l s.
Proof.
  intros Hs. induction l as [|a l IH]; simpl; [reflexivity|].
  destruct (truthy a) eqn:E; simpl.
  - destruct (string_dec a s); now rewrite IH.
  - apply truthy_false in E. destruct (string_dec a s); [congruence|exact IH].
Qed.

(** C5, as the code has it.  The tags of a post come from the entry's
    [tags] list when the entry has one (a tag without term counting as the
    empty string) and otherwise from its [categories] list; the empty
    strings are dropped and nothing else is: every other tag is kept in
    place as often as the source lists it, duplicates included. *)
Theorem tags_without_empty : forall lib0 i entry,
  let result := tags (build_post lib0 i entry) in
  ~ In EmptyString result
  /\ (forall ts, e_tags entry = Some ts ->
        result = filter truthy (map (fun t => get (term t) EmptyString) ts)
        /\ forall s, s <> EmptyString ->
             count_occ string_dec result s
             = count_occ string_dec (map (fun t => get (term t) EmptyString) ts) s)
  /\ (forall cs, e_tags entry = None -> e_categories entry = Some cs ->
        result = filter truthy cs
        /\ forall s, s <> EmptyString ->
             count_occ string_dec result s = count_occ string_dec cs s)
  /\ (e_tags entry = None -> e_categories entry = None -> result = []).
Proof.
  intros lib0 i entry result. subst result. simpl. unfold extract_tags.
  split; [|split; [|split]].
  - intros Hin. apply filter_In in Hin. destruct Hin as [_ H]. discriminate.
  - intros ts ->. split; [reflexivity|].
    intros s Hs. now apply count_occ_filter_truthy.
  - intros cs -> ->. split; [reflexivity|].
    intros s Hs. now apply count_occ_filter_truthy.
  - intros -> ->. reflexivity.
Qed.

Lemma tags_without_empty_witness :
  tags (build_post Samples.plain_lib 0 Samples.twice_tagged_entry) = ["python"; "python"]
  /\ tags (build_post Samples.plain_lib 0 Samples.categorised_entry) = ["rust"; "rust"].
Proof.
  destruct (tags_without_empty Samples.plain_lib 0 Samples.twice_tagged_entry)
    as [_ [Htags _]].
  destruct (tags_without_empty Samples.plain_lib 0 Samples.categorised_entry)
    as [_ [_ [Hcats _]]].
  split.
  - destruct (Htags _ eq_refl) as [-> _]. reflexivity.
  - destruct (Hcats _ eq_refl eq_refl) as [-> _]. reflexivity.
Defined.

(** C5 as stated fails: a tag the entry lists twice is in the result twice. *)
Lemma duplicate_tags_counterexample :
  tags (build_post Samples.plain_lib 0 Samples.twice_tagged_entry) = ["python"; "python"]
  /\ ~ NoDup (tags (build_post Samples.plain_lib 0 Samples.twice_tagged_entry)).
Proof.
  split; [reflexivity|].
  intros H. inversion H as [|? ? Hnotin _]; subst. apply Hnotin. now left.
Qed.

(** C6.  With [text] the plain text BeautifulSoup extracts from an entry's
    non-empty description: when [text] has more than 500 characters the
    stored description is its first 500 characters followed by "..."
    (503 characters in all), and when it has at most 500 the stored
    description is [text] itself.  An absent or empty description is
    stored as the empty string. *)
Theorem description_truncated : forall lib0 i entry,
  let raw := get (e_description entry) EmptyString in
  let text := soup_get_text lib0 raw in
  let stored := description (build_post lib0 i entry) in
  (raw = EmptyString -> stored = EmptyString)
  /\ (raw <> EmptyString -> 500 < String.length text ->
        stored = (slice_to 500 text ++ "...")%string
        /\ String.length (slice_to 500 text) = 500
        /\ (exists rest, text = (slice_to 500 text ++ rest)%string)
        /\ String.length stored = 503)
  /\ (raw <> EmptyString -> String.length text <= 500 -> stored = text).
Proof.
  intros lib0 i entry raw text stored. subst stored. simpl.
  fold raw. unfold clean_description. fold text.
  split; [|split].
  - intros ->. reflexivity.
  - intros Hraw Hlen. apply truthy_true in Hraw. rewrite Hraw.
    apply Nat.ltb_lt in Hlen. rewrite Hlen. apply Nat.ltb_lt in Hlen.
    destruct (slice_to_prefix 500 text) as [Hl Hrest]; [lia|].
    split; [reflexivity|]. split; [exact Hl|]. split; [exact Hrest|].
    rewrite length_append, Hl. reflexivity.
  - intros Hraw Hlen. apply truthy_true in Hraw. rewrite Hraw.
    destruct (Nat.ltb 500 (String.length text)) eqn:E; [|reflexivity].
    apply Nat.ltb_lt in E. lia.
Qed.

Lemma description_truncated_witness :
  description (build_post Samples.plain_lib 0 Samples.long_entry)
    = (Samples.repeat_char "a" 500 ++ "...")%string
  /\ description (build_post Samples.plain_lib 0 Samples.short_entry)
    = Samples.repeat_char "b" 400.
Proof.
  destruct (description_truncated Samples.plain_lib 0 Samples.long_entry)
    as [_ [Hlong _]].
  destruct (description_truncated Samples.plain_lib 0 Samples.short_entry)
    as [_ [_ Hshort]].
  split.
  - destruct Hlong as [-> _].
    + discriminate.
    + apply Nat.ltb_lt. vm_compute. reflexivity.
    + vm_compute. reflexivity.
  - rewrite Hshort.
    + vm_compute. reflexivity.
    + discriminate.
    + apply Nat.leb_le. vm_compute. reflexivity.
Defined.

(* ================================================================== *)
(** ** The formatter *)
(* ================================================================== *)

Lemma append_assoc (a b c : string) :
  ((a ++ b) ++ c)%string = (a ++ (b ++ c))%string.
Proof. induction a as [|x a IH]; simpl; [reflexivity|now rewrite IH]. Qed.

Lemma replace_append old new (a b : string) :
  replace old new (a ++ b)%string = (replace old new a ++ replace old new b)%string.
Proof.
  induction a as [|c a IH]; simpl; [reflexivity|].
  destruct (Ascii.eqb c old); rewrite IH; [|reflexivity].
  now rewrite append_assoc.
Qed.

(** The three chained [replace] calls escape each character once: the
    ampersands that the later calls introduce are not escaped again. *)
Lemma replace_chain_html_escape s :
  replace ">" "&gt;" (replace "<" "&lt;" (replace "&" "&amp;" s)) = html_escape s.
Proof.
  induction s as [|c s IH]; [reflexivity|].
  cbn [replace html_escape]. unfold escape_char.
  destruct (Ascii.eqb c "&") eqn:Eamp.
  - rewrite !replace_append, IH. reflexivity.
  - cbn [replace]. destruct (Ascii.eqb c "<") eqn:Elt.
    + rewrite !replace_append, IH. reflexivity.
    + cbn [replace]. destruct (Ascii.eqb c ">") eqn:Egt.
      * rewrite IH. reflexivity.
      * rewrite IH. reflexivity.
Qed.

Lemma html_escape_no_angle s c :
  In c (list_ascii_of_string (html_escape s)) -> c <> "<"%char /\ c <> ">"%char.
Proof.
  induction s as [|d s IH]; simpl; [intros []|].
  unfold escape_char.
  destruct (Ascii.eqb d "&") eqn:Eamp; [|destruct (Ascii.eqb d "<") eqn:Elt;
    [|destruct (Ascii.eqb d ">") eqn:Egt]]; simpl;
    intros H; repeat (destruct H as [<-|H]; [split; discriminate|]);
    try now apply IH.
  destruct H as [<-|H]; [|now apply IH].
  apply Ascii.eqb_neq in Elt, Egt. split; congruence.
Qed.

Lemma html_escape_length s :
  String.length s <= String.length (html_escape s)
  /\ (has_markup_char s = true -> String.length s < String.length (html_escape s)).
Proof.
  induction s as [|c s [IHle IHlt]]; simpl; [split; [lia|discriminate]|].
  rewrite length_append. unfold escape_char.
  destruct (Ascii.eqb c "&"); [simpl; split; intros; lia|].
  destruct (Ascii.eqb c "<"); [simpl; split; intros; lia|].
  destruct (Ascii.eqb c ">"); [simpl; split; intros; lia|].
  simpl. split; [lia|]. intros H. specialize (IHlt H). lia.
Qed.

(** C10.  The message ends with the line "<i>Feed: NAME</i>" in which NAME
    is the feed name exactly as it was passed, whatever characters it
    holds, while title and description stand in the message escaped
    character by character (no "<" or ">" survives in them).  Hence, for
    a feed name that holds "&", "<" or ">", the message differs from the
    one an escaped feed name would give. *)
Theorem feed_name_verbatim : forall post feed_name,
  let body :=
    (html_escape (title post) ++ newline ++ newline ++
     "<a href=" ++ String dquote (replace dquote "&quot;" (link post)) ++
     String dquote ">" ++ link_label ++ "</a>" ++ newline ++ newline ++
     html_escape (description post) ++ newline ++ newline)%string in
  let attribution := fun name => ("<i>Feed: " ++ name ++ "</i>" ++ newline)%string in
  format_telegram_message post feed_name = (body ++ attribution feed_name)%string
  /\ (forall c, In c (list_ascii_of_string (html_escape (title post))) ->
                c <> "<"%char /\ c <> ">"%char)
  /\ (forall c, In c (list_ascii_of_string (html_escape (description post))) ->
                c <> "<"%char /\ c <> ">"%char)
  /\ (has_markup_char feed_name = true ->
      attribution feed_name <> attribution (html_escape feed_name)
      /\ format_telegram_message post feed_name
         <> (body ++ attribution (html_escape feed_name))%string).
Proof.
  intros post feed_name body attribution.
  assert (Hfmt : format_telegram_message post feed_name
                 = (body ++ attribution feed_name)%string).
  { unfold format_telegram_message, body, attribution.
    rewrite !replace_chain_html_escape.
    rewrite !append_assoc. reflexivity. }
  split; [exact Hfmt|].
  split; [intros c; apply html_escape_no_angle|].
  split; [intros c; apply html_escape_no_angle|].
  intros Hmark.
  assert (Hattr : attribution feed_name <> attribution (html_escape feed_name)).
  { unfold attribution. intros Heq. apply (f_equal String.length) in Heq.
    rewrite !length_append in Heq.
    pose proof (proj2 (html_escape_length feed_name) Hmark). lia. }
  split; [exact Hattr|].
  rewrite Hfmt. intros Heq. apply (f_equal String.length) in Heq.
  rewrite !length_append in Heq.
  unfold attribution in Heq. rewrite !length_append in Heq.
  pose proof (proj2 (html_escape_length feed_name) Hmark). lia.
Qed.

(* ================================================================== *)
(** ** The polling loop *)
(* ================================================================== *)

(** *** One post *)

Lemma mark_post_sent_fresh fid u now d :
  is_post_sent u d = false ->
  mark_post_sent fid u now d
  = Ok (mkDB (rss_feeds d)
             (sent_posts d ++ [mkSentPost (S (sent_posts_seq d)) fid u now])
             (rss_feeds_seq d) (S (sent_posts_seq d))).
Proof. unfold mark_post_sent. now intros ->. Qed.

Lemma is_post_sent_snoc u d rows sp s1 s2 :
  is_post_sent u (mkDB rows (sent_posts d ++ [sp]) s1 s2)
  = is_post_sent u d || String.eqb (sp_post_url sp) u.
Proof.
  unfold is_post_sent. simpl. rewrite existsb_app. simpl.
  now rewrite orb_false_r.
Qed.

Lemma process_post_outcome w f p st :
  post_outcome w f p st (fst (process_post w f p st)) (snd (process_post w f p st)).
Proof.
  unfold process_post.
  destruct (is_post_sent (link p) (db st)) eqn:Hs.
  - now constructor.
  - destruct (send_message w (sends st) _) eqn:Hk.
    + rewrite (mark_post_sent_fresh _ _ _ _ Hs). simpl. now constructor.
    + simpl. now constructor.
Qed.

Lemma process_posts_app w f ps qs st :
  process_posts w f (ps ++ qs) st
  = (fst (process_posts w f qs (fst (process_posts w f ps st))),
     snd (process_posts w f ps st)
       ++ snd (process_posts w f qs (fst (process_posts w f ps st)))).
Proof.
  revert st. induction ps as [|p ps IH]; intros st; simpl.
  - now destruct (process_posts w f qs st).
  - destruct (process_post w f p st) as [st1 tr1].
    rewrite IH. destruct (process_posts w f ps st1) as [st2 tr2]. simpl.
    destruct (process_posts w f qs st2) as [st3 tr3]. simpl.
    now rewrite app_assoc.
Qed.

Lemma process_posts_cons w f p ps st :
  process_posts w f (p :: ps) st
  = (fst (process_posts w f ps (fst (process_post w f p st))),
     snd (process_post w f p st)
       ++ snd (process_posts w f ps (fst (process_post w f p st)))).
Proof.
  simpl. destruct (process_post w f p st) as [st1 tr1]. simpl.
  now destruct (process_posts w f ps st1).
Qed.

Lemma process_feeds_cons w f fs st :
  process_feeds w (f :: fs) st
  = (fst (process_feeds w fs (fst (process_feed w f st))),
     snd (process_feed w f st)
       ++ snd (process_feeds w fs (fst (process_feed w f st)))).
Proof.
  simpl. destruct (process_feed w f st) as [st1 tr1]. simpl.
  now destruct (process_feeds w fs st1).
Qed.

Lemma exec_cons o ops st :
  exec (o :: ops) st
  = (fst (exec ops (fst (exec_op o st))),
     snd (exec_op o st) ++ snd (exec ops (fst (exec_op o st)))).
Proof.
  simpl. destruct (exec_op o st) as [st1 tr1]. simpl.
  now destruct (exec ops st1).
Qed.

(** *** Invariants of a pass

    A property of the state and of the calls made so far that every
    elementary step keeps is kept by a whole iteration. *)

Section PassInvariant.

Variable w : World.
Variable Inv : State -> list Event -> Prop.

Hypothesis Inv_post : forall f p st h,
  Inv st h ->
  Inv (fst (process_post w f p st)) (h ++ snd (process_post w f p st)).
Hypothesis Inv_fetch : forall url ok st h, Inv st h -> Inv st (h ++ [EvFetch url ok]).
Hypothesis Inv_update : forall fid st h,
  Inv st h ->
  Inv (mkState (update_feed_check_time fid (clock st) (db st)) (clock st) (sends st))
      (h ++ [EvUpdateCheck fid]).
Hypothesis Inv_sleep : forall st h,
  Inv st h -> Inv (mkState (db st) (clock st + 900) (sends st)) (h ++ [EvSleep 900]).

Lemma process_posts_inv f ps : forall st h,
  Inv st h ->
  Inv (fst (process_posts w f ps st)) (h ++ snd (process_posts w f ps st)).
Proof.
  induction ps as [|p ps IH]; intros st h HI.
  - simpl. now rewrite app_nil_r.
  - rewrite process_posts_cons. simpl. rewrite app_assoc.
    apply IH. now apply Inv_post.
Qed.

Lemma process_feed_inv f st h :
  Inv st h ->
  Inv (fst (process_feed w f st)) (h ++ snd (process_feed w f st)).
Proof.
  intros HI. unfold process_feed.
  destruct (not_posts (fetch_feed (lib w) (f_url f))).
  - simpl. now apply Inv_fetch.
  - pose proof (process_posts_inv f
        (match fetch_feed (lib w) (f_url f) with Some ps => ps | None => [] end)
        st (h ++ [EvFetch (f_url f) true]) (Inv_fetch _ _ _ _ HI)) as H.
    destruct (process_posts w f _ st) as [st1 tr1]. simpl in *.
    apply (Inv_update (f_id f)) in H.
    now rewrite <- !app_assoc in H.
Qed.

Lemma process_feeds_inv fs : forall st h,
  Inv st h ->
  Inv (fst (process_feeds w fs st)) (h ++ snd (process_feeds w fs st)).
Proof.
  induction fs as [|f fs IH]; intros st h HI.
  - simpl. now rewrite app_nil_r.
  - rewrite process_feeds_cons. simpl. rewrite app_assoc.
    apply IH. now apply process_feed_inv.
Qed.

Lemma cycle_inv st h :
  Inv st h -> Inv (fst (cycle w st)) (h ++ snd (cycle w st)).
Proof.
  intros HI. unfold cycle.
  pose proof (process_feeds_inv (get_all_feeds (db st)) st h HI) as H.
  destruct (process_feeds w (get_all_feeds (db st)) st) as [st1 tr1]. simpl in *.
  rewrite app_assoc. now apply Inv_sleep.
Qed.

End PassInvariant.

(** *** Where an event of a trace built by appending comes from *)

Lemma app_eq_elt_split {A} (h seg : list A) : forall pre e post,
  h ++ seg = pre ++ e :: post ->
  (exists m, h = pre ++ e :: m /\ post = m ++ seg)
  \/ (exists m, seg = m ++ e :: post /\ pre = h ++ m).
Proof.
  induction h as [|a h IH]; intros pre e post H.
  - right. exists pre. now split.
  - destruct pre as [|b pre]; simpl in H; injection H as -> H.
    + left. exists h. now split.
    + destruct (IH _ _ _ H) as [[m [-> ->]]|[m [-> ->]]].
      * left. now exists m.
      * right. now exists m.
Qed.

Lemma cons_eq_inv {A} (a b : A) (l l' : list A) :
  a :: l = b :: l' -> a = b /\ l = l'.
Proof. intros H. now injection H. Qed.

(** Locates [e] in a trace segment that is written out. *)
Ltac locate H :=
  repeat match type of H with
  | _ :: _ = ?m ++ _ :: _ =>
      let x := fresh "x" in
      let Hhd := fresh "Hhd" in
      destruct m as [|x m]; simpl in H; apply cons_eq_inv in H;
      [destruct H as [Hhd H]; try discriminate Hhd; inversion Hhd; subst
      |destruct H as [Hhd H]; subst]
  | [] = ?m ++ _ :: _ => destruct m; discriminate H
  end.

Lemma is_post_sent_update_feed_check_time u fid now d :
  is_post_sent u (update_feed_check_time fid now d) = is_post_sent u d.
Proof. reflexivity. Qed.

(** *** The ledger stays unique *)

Lemma schema_ok_cycle w st : schema_ok (db st) -> schema_ok (db (fst (cycle w st))).
Proof.
  intros Hok.
  apply (cycle_inv w (fun st _ => schema_ok (db st))) with (h := []); try assumption.
  - intros f p s h H. destruct (process_post_outcome w f p s); simpl; try assumption.
    apply (schema_ok_mark_post_sent (f_id f) (link p) (clock s) (db s)); [exact H|].
    now apply mark_post_sent_fresh.
  - intros url ok s h H. exact H.
  - intros fid s h H. simpl. now apply schema_ok_update_feed_check_time.
  - intros s h H. exact H.
Qed.

Lemma schema_ok_exec_op o st :
  schema_ok (db st) -> schema_ok (db (fst (exec_op o st))).
Proof.
  intros Hok. destruct o; simpl; try assumption.
  - now apply schema_ok_add_feed.
  - now apply schema_ok_remove_feed.
  - now apply schema_ok_update_feed_check_time.
  - destruct (mark_post_sent feed_id post_url (clock st) (db st)) eqn:E; simpl;
      [|assumption].
    now apply (schema_ok_mark_post_sent _ _ _ _ _ Hok E).
  - now apply schema_ok_cycle.
Qed.

Lemma schema_ok_exec ops : forall st,
  schema_ok (db st) -> schema_ok (db (fst (exec ops st))).
Proof.
  induction ops as [|o ops IH]; intros st Hok; [exact Hok|].
  rewrite exec_cons. simpl. apply IH. now apply schema_ok_exec_op.
Qed.

Lemma NoDup_map_at_most_one (rows : list SentPost) u :
  NoDup (map sp_post_url rows) ->
  List.length (filter (fun sp => String.eqb (sp_post_url sp) u) rows) <= 1.
Proof.
  induction rows as [|sp rows IH]; simpl; intros Hnd; [lia|].
  inversion Hnd as [|? ? Hnotin Hnd']; subst.
  destruct (String.eqb (sp_post_url sp) u) eqn:E; [|now apply IH].
  apply String.eqb_eq in E. subst u. simpl.
  assert (Hnil : filter (fun sp0 => String.eqb (sp_post_url sp0) (sp_post_url sp)) rows
                 = []).
  { clear IH Hnd Hnd'. induction rows as [|r rows IHr]; simpl; [reflexivity|].
    destruct (String.eqb (sp_post_url r) (sp_post_url sp)) eqn:E.
    - apply String.eqb_eq in E. exfalso. apply Hnotin. simpl. now left.
    - apply IHr. intros Hc. apply Hnotin. simpl. now right. }
  rewrite Hnil. simpl. lia.
Qed.

Lemma marks_guarded_neutral st st' h e :
  (forall u, is_post_sent u (db st') = is_post_sent u (db st)) ->
  (forall u, e <> EvIsPostSent u true) ->
  (forall fid u ok, e <> EvMarkPostSent fid u ok) ->
  marks_guarded st h -> marks_guarded st' (h ++ [e]).
Proof.
  intros Hdb Hq Hm [H1 H2]. split.
  - intros u Hin. rewrite Hdb. apply in_app_iff in Hin.
    destruct Hin as [Hin|[->|[]]]; [now apply H1|]. exfalso. now apply (Hq u).
  - intros pre fid u ok post Heq.
    apply app_eq_elt_split in Heq. destruct Heq as [[m [-> ->]]|[m [Heq ->]]].
    + now apply (H2 pre fid u ok m).
    + locate Heq. exfalso. now apply (Hm fid u ok).
Qed.

Lemma marks_guarded_cycle w st :
  marks_guarded (fst (cycle w st)) (snd (cycle w st)).
Proof.
  apply (cycle_inv w marks_guarded) with (h := []).
  - intros f p s h [H1 H2].
    destruct (process_post_outcome w f p s) as [Hs|Hs Hk|Hs Hk].
    + split.
      * intros u Hin. apply in_app_iff in Hin.
        destruct Hin as [Hin|[Heq|[]]]; [now apply H1|]. now injection Heq as <-.
      * intros pre fid u ok post Heq.
        apply app_eq_elt_split in Heq. destruct Heq as [[m [-> ->]]|[m [Heq ->]]].
        -- now apply (H2 pre fid u ok m).
        -- locate Heq.
    + split.
      * intros u Hin. simpl. apply in_app_iff in Hin.
        destruct Hin as [Hin|[Heq|[Heq|[Heq|[]]]]]; try discriminate.
        now apply H1.
      * intros pre fid u ok post Heq.
        apply app_eq_elt_split in Heq. destruct Heq as [[m [-> ->]]|[m [Heq ->]]].
        -- now apply (H2 pre fid u ok m).
        -- locate Heq.
    + split.
      * intros u Hin. simpl. rewrite is_post_sent_snoc. apply in_app_iff in Hin.
        destruct Hin as [Hin|[Heq|[Heq|[Heq|[Heq|[]]]]]]; try discriminate.
        now rewrite (H1 u Hin).
      * intros pre fid u ok post Heq.
        apply app_eq_elt_split in Heq. destruct Heq as [[m [-> ->]]|[m [Heq ->]]].
        -- now apply (H2 pre fid u ok m).
        -- locate Heq. split; [reflexivity|]. split.
           ++ intros Hin. apply in_app_iff in Hin.
              destruct Hin as [Hin|[Heq|[Heq|[]]]]; try discriminate.
              apply H1 in Hin. congruence.
           ++ now exists h, (format_telegram_message p (f_name f)).
  - intros url ok s h H. apply (marks_guarded_neutral s); try easy.
  - intros fid s h H. apply (marks_guarded_neutral s); try easy.
  - intros s h H. apply (marks_guarded_neutral s); try easy.
  - split; [intros u []|]. intros pre fid u ok post Heq. now destruct pre.
Qed.

(** C1.  From a store that satisfies the schema (the fresh one that
    [init_db] creates, for instance), after any sequence of store
    operations and iterations of the loop no two rows of [sent_posts] have
    the same [post_url], whatever their [feed_id]: there is at most one row
    per url.  And in an iteration every call of [mark_post_sent] succeeds,
    comes right after a lookup of the same url that answered "not sent"
    and a send that returned, and no earlier lookup of that url in the
    same iteration answered "sent". *)
Theorem ledger_unique_and_guarded :
  (forall ops, NoDup (map sp_post_url (sent_posts (db (fst (exec ops start))))))
  /\ (forall ops st, schema_ok (db st) ->
        let rows := sent_posts (db (fst (exec ops st))) in
        NoDup (map sp_post_url rows)
        /\ forall u,
             List.length (filter (fun sp => String.eqb (sp_post_url sp) u) rows) <= 1)
  /\ (forall w st pre fid u ok post,
        snd (cycle w st) = pre ++ EvMarkPostSent fid u ok :: post ->
        ok = true
        /\ ~ In (EvIsPostSent u true) pre
        /\ exists pre' text, pre = pre' ++ [EvIsPostSent u false; EvSend text true]).
Proof.
  split; [|split].
  - intros ops. apply post_urls_unique. apply schema_ok_exec. apply schema_ok_empty.
  - intros ops st Hok rows.
    assert (Hnd : NoDup (map sp_post_url rows))
      by (apply post_urls_unique; now apply schema_ok_exec).
    split; [exact Hnd|]. intros u. now apply NoDup_map_at_most_one.
  - intros w st pre fid u ok post Heq.
    destruct (marks_guarded_cycle w st) as [_ H]. now apply (H pre fid u ok post).
Qed.

Lemma ledger_unique_and_guarded_witness :
  schema_ok (db Samples.state_news)
  /\ NoDup (map sp_post_url
              (sent_posts (db (fst (exec [OpCycle Samples.world_news_ab;
                                          OpRemoveFeed Samples.blog_url;
                                          OpCycle Samples.world_news_ab]
                                         Samples.state_news)))))
  /\ ~ In (EvIsPostSent "http://news.example/a" true)
          (firstn 3 (snd (cycle Samples.world_news_ab Samples.state_news))).
Proof.
  destruct ledger_unique_and_guarded as [_ [Hunique Hguard]].
  assert (Hok : schema_ok (db Samples.state_news))
    by (apply schema_ok_exec, schema_ok_empty).
  split; [exact Hok|]. split.
  - apply (Hunique _ Samples.state_news Hok).
  - apply (Hguard Samples.world_news_ab Samples.state_news
             (firstn 3 (snd (cycle Samples.world_news_ab Samples.state_news)))
             1 "http://news.example/a" true
             (skipn 4 (snd (cycle Samples.world_news_ab Samples.state_news)))).
    reflexivity.
Defined.

Lemma feed_name_verbatim_witness :
  has_markup_char "R&D <daily>" = true
  /\ format_telegram_message Samples.markup_post "R&D <daily>"
     <> format_telegram_message Samples.markup_post (html_escape "R&D <daily>").
Proof.
  split; [reflexivity|].
  destruct (feed_name_verbatim Samples.markup_post "R&D <daily>")
    as [_ [_ [_ Hraw]]].
  destruct (feed_name_verbatim Samples.markup_post (html_escape "R&D <daily>"))
    as [Hfmt _].
  rewrite Hfmt. apply Hraw. reflexivity.
Defined.

(** *** Pacing *)

Lemma paced_nil : paced [].
Proof. repeat split; intros; now destruct pre. Qed.

Lemma paced_app a b : paced a -> paced b -> paced (a ++ b).
Proof.
  intros [A1 [A2 A3]] [B1 [B2 B3]]. repeat split.
  - intros pre t post Heq. apply app_eq_elt_split in Heq.
    destruct Heq as [[m [Ha ->]]|[m [Hb ->]]].
    + destruct (A1 _ _ _ Ha) as [fid [u [post' ->]]]. now exists fid, u, (post' ++ b).
    + exact (B1 _ _ _ Hb).
  - intros pre t post Heq. apply app_eq_elt_split in Heq.
    destruct Heq as [[m [Ha ->]]|[m [Hb ->]]].
    + destruct (A2 _ _ _ Ha) as [post' ->]. now exists (post' ++ b).
    + exact (B2 _ _ _ Hb).
  - intros pre post Heq. apply app_eq_elt_split in Heq.
    destruct Heq as [[m [Ha ->]]|[m [Hb ->]]].
    + exact (A3 _ _ Ha).
    + destruct (B3 _ _ Hb) as [pre' [t [fid [u ->]]]].
      exists (a ++ pre'), t, fid, u. now rewrite app_assoc.
Qed.

Lemma paced_single e :
  (forall t ok, e <> EvSend t ok) -> e <> EvSleep 2 -> paced [e].
Proof.
  intros Hs Hp. repeat split.
  - intros pre t post Heq. locate Heq. exfalso. now apply (Hs t true).
  - intros pre t post Heq. locate Heq. exfalso. now apply (Hs t false).
  - intros pre post Heq. locate Heq. exfalso. now apply Hp.
Qed.

Lemma paced_process_post w f p st : paced (snd (process_post w f p st)).
Proof.
  destruct (process_post_outcome w f p st) as [Hs|Hs Hk|Hs Hk].
  - now apply paced_single.
  - repeat split.
    + intros pre t post Heq. locate Heq.
    + intros pre t post Heq. locate Heq. now exists [].
    + intros pre post Heq. locate Heq.
  - repeat split.
    + intros pre t post Heq. locate Heq. now exists (f_id f), (link p), [].
    + intros pre t post Heq. locate Heq.
    + intros pre post Heq. locate Heq.
      now exists [EvIsPostSent (link p) false],
                 (format_telegram_message p (f_name f)), (f_id f), (link p).
Qed.

Lemma slept_app a b : slept (a ++ b) = slept a + slept b.
Proof. unfold slept. now rewrite map_app, list_sum_app. Qed.

Lemma deliveries_app a b : deliveries (a ++ b) = deliveries a + deliveries b.
Proof. unfold deliveries. now rewrite filter_app, length_app. Qed.

Lemma clocked_process_feeds w fs st :
  clocked (clock st) (fst (process_feeds w fs st)) (snd (process_feeds w fs st)).
Proof.
  apply (process_feeds_inv w (clocked (clock st))) with (h := []).
  - intros f p s h [Hp [Hc Hd]]. split; [|split].
    + apply paced_app; [exact Hp|apply paced_process_post].
    + rewrite slept_app.
      destruct (process_post_outcome w f p s); unfold slept in *; simpl; lia.
    + rewrite slept_app, deliveries_app.
      destruct (process_post_outcome w f p s); unfold slept, deliveries; simpl;
        unfold slept, deliveries in Hd; lia.
  - intros url ok s h [Hp [Hc Hd]]. split; [|split].
    + apply paced_app; [exact Hp|now apply paced_single].
    + rewrite slept_app. unfold slept at 2. simpl. lia.
    + rewrite slept_app, deliveries_app. unfold slept at 2, deliveries at 2.
      simpl. lia.
  - intros fid s h [Hp [Hc Hd]]. split; [|split].
    + apply paced_app; [exact Hp|now apply paced_single].
    + rewrite slept_app. unfold slept at 2. simpl. lia.
    + rewrite slept_app, deliveries_app. unfold slept at 2, deliveries at 2.
      simpl. lia.
  - split; [apply paced_nil|]. unfold slept, deliveries. simpl. lia.
Qed.

Lemma cycle_unfold w st :
  cycle w st
  = (mkState (db (fst (process_feeds w (get_all_feeds (db st)) st)))
             (clock (fst (process_feeds w (get_all_feeds (db st)) st)) + 900)
             (sends (fst (process_feeds w (get_all_feeds (db st)) st))),
     snd (process_feeds w (get_all_feeds (db st)) st) ++ [EvSleep 900]).
Proof.
  unfold cycle. now destruct (process_feeds w (get_all_feeds (db st)) st).
Qed.

Lemma paced_cycle w st : paced (snd (cycle w st)).
Proof.
  rewrite cycle_unfold. simpl.
  apply paced_app; [apply clocked_process_feeds|].
  apply paced_single; [intros t ok|]; discriminate.
Qed.

Lemma snoc2_eq_inv {A} (x y : list A) (a b c d : A) :
  x ++ [a; b] = y ++ [c; d] -> a = c /\ b = d.
Proof.
  intros H.
  change (x ++ [a; b]) with (x ++ [a] ++ [b]) in H.
  change (y ++ [c; d]) with (y ++ [c] ++ [d]) in H.
  rewrite !app_assoc in H. apply app_inj_tail in H. destruct H as [H ->].
  apply app_inj_tail in H. destruct H as [_ ->]. now split.
Qed.

Lemma snoc1_eq_inv {A} (x y : list A) (a c d : A) :
  x ++ [a] = y ++ [c; d] -> a = d.
Proof.
  intros H. change (y ++ [c; d]) with (y ++ [c] ++ [d]) in H.
  rewrite app_assoc in H. apply app_inj_tail in H. now destruct H.
Qed.

(** C3, as the code has it.  In every iteration a send that returned is
    followed at once by the ledger insert and a sleep of 2 seconds, before
    the next post is looked at; a sleep of 2 seconds happens nowhere else.
    In particular a send that raised is followed by the error log and no
    sleep, and a post skipped as already sent is followed by no sleep.  The
    clock moves by 2 seconds per delivery plus the closing 900. *)
Theorem pause_after_delivery_only : forall w st,
  let tr := snd (cycle w st) in
  (forall pre t post,
     tr = pre ++ EvSend t true :: post ->
     exists fid u post', post = EvMarkPostSent fid u true :: EvSleep 2 :: post')
  /\ (forall pre post,
        tr = pre ++ EvSleep 2 :: post ->
        exists pre' t fid u, pre = pre' ++ [EvSend t true; EvMarkPostSent fid u true])
  /\ (forall pre t post,
        tr = pre ++ EvSend t false :: post ->
        exists post', post = EvLogError :: post'
                      /\ forall rest, post' <> EvSleep 2 :: rest)
  /\ (forall pre u post,
        tr = pre ++ EvIsPostSent u true :: post ->
        forall rest, post <> EvSleep 2 :: rest)
  /\ clock (fst (cycle w st)) = clock st + 2 * deliveries tr + 900.
Proof.
  intros w st tr. destruct (paced_cycle w st) as [P1 [P2 P3]]. fold tr in P1, P2, P3.
  split; [exact P1|]. split; [exact P3|]. split; [|split].
  - intros pre t post Heq. destruct (P2 _ _ _ Heq) as [post' ->].
    exists post'. split; [reflexivity|]. intros rest ->.
    change (pre ++ EvSend t false :: EvLogError :: EvSleep 2 :: rest)
      with (pre ++ [EvSend t false; EvLogError] ++ EvSleep 2 :: rest) in Heq.
    rewrite app_assoc in Heq.
    destruct (P3 _ _ Heq) as [pre' [t' [fid [u Hpre]]]].
    apply snoc2_eq_inv in Hpre. destruct Hpre as [_ Hpre]. discriminate.
  - intros pre u post Heq rest ->.
    change (pre ++ EvIsPostSent u true :: EvSleep 2 :: rest)
      with (pre ++ [EvIsPostSent u true] ++ EvSleep 2 :: rest) in Heq.
    rewrite app_assoc in Heq.
    destruct (P3 _ _ Heq) as [pre' [t' [fid [u' Hpre]]]].
    apply snoc1_eq_inv in Hpre. discriminate.
  - subst tr. rewrite cycle_unfold. simpl.
    destruct (clocked_process_feeds w (get_all_feeds (db st)) st) as [_ [Hc Hd]].
    rewrite Hc, Hd, deliveries_app.
    change (deliveries [EvSleep 900]) with 0. lia.
Qed.

Lemma pause_after_delivery_only_witness :
  (exists fid u post',
     skipn 3 (snd (cycle Samples.world_news_ab Samples.state_news))
     = EvMarkPostSent fid u true :: EvSleep 2 :: post')
  /\ exists pre' t fid u,
       firstn 4 (snd (cycle Samples.world_news_ab Samples.state_news))
       = pre' ++ [EvSend t true; EvMarkPostSent fid u true].
Proof.
  destruct (pause_after_delivery_only Samples.world_news_ab Samples.state_news)
    as [Hafter [Hbefore _]].
  split.
  - apply (Hafter (firstn 2 (snd (cycle Samples.world_news_ab Samples.state_news)))
             (format_telegram_message
                (build_post (lib Samples.world_news_ab) 0 Samples.entry_a) "News")).
    reflexivity.
  - apply (Hbefore _ (skipn 5 (snd (cycle Samples.world_news_ab Samples.state_news)))).
    reflexivity.
Defined.

(** C3 as stated fails: when the sink raises, the loop goes on to the next
    post without any 2-second sleep. *)
Lemma no_pause_after_failure_counterexample :
  let run := cycle Samples.world_news_ab_down Samples.state_news in
  In (EvSend (format_telegram_message
                (build_post (lib Samples.world_news_ab_down) 0 Samples.entry_a) "News")
             false) (snd run)
  /\ In (EvIsPostSent "http://news.example/b" false) (snd run)
  /\ ~ In (EvSleep 2) (snd run)
  /\ clock (fst run) = clock Samples.state_news + 900.
Proof.
  split; [|split; [|split]].
  - vm_compute. right. right. now left.
  - vm_compute. do 4 right. now left.
  - vm_compute. intros H.
    repeat (destruct H as [H|H]; [discriminate H|]). exact H.
  - reflexivity.
Qed.

(** *** Marking a feed as checked *)

Lemma count_updates_app fid a b :
  count_updates fid (a ++ b) = count_updates fid a + count_updates fid b.
Proof. unfold count_updates. now rewrite filter_app, length_app. Qed.

Lemma process_posts_keeps_feeds w f ps st fid :
  rss_feeds (db (fst (process_posts w f ps st))) = rss_feeds (db st)
  /\ clock st <= clock (fst (process_posts w f ps st))
  /\ count_updates fid (snd (process_posts w f ps st)) = 0.
Proof.
  apply (process_posts_inv w
           (fun s h => rss_feeds (db s) = rss_feeds (db st)
                       /\ clock st <= clock s /\ count_updates fid h = 0))
    with (h := []).
  - intros g p s h [Hr [Hc Hu]]. rewrite count_updates_app, Hu.
    destruct (process_post_outcome w g p s); simpl; repeat split;
      try assumption; try lia.
  - repeat split. lia.
Qed.

Lemma feed_row_update_feed_check_time fid fid' now d :
  feed_row fid (update_feed_check_time fid' now d)
  = if Nat.eqb fid' fid then option_map (checked_at now) (feed_row fid d)
    else feed_row fid d.
Proof.
  unfold feed_row, update_feed_check_time. simpl.
  induction (rss_feeds d) as [|g l IH]; simpl.
  - now destruct (Nat.eqb fid' fid).
  - destruct (Nat.eqb (f_id g) fid') eqn:E1; simpl.
    + apply Nat.eqb_eq in E1. rewrite <- E1.
      destruct (Nat.eqb (f_id g) fid) eqn:E2; [reflexivity|].
      rewrite <- E1, E2 in IH. exact IH.
    + destruct (Nat.eqb (f_id g) fid) eqn:E2.
      * apply Nat.eqb_eq in E2. subst fid. rewrite Nat.eqb_sym, E1. reflexivity.
      * exact IH.
Qed.

Lemma feed_row_same_feeds fid d d' :
  rss_feeds d' = rss_feeds d -> feed_row fid d' = feed_row fid d.
Proof. unfold feed_row. now intros ->. Qed.

Lemma feed_row_of_member d f :
  NoDup (map f_id (rss_feeds d)) -> In f (rss_feeds d) -> feed_row (f_id f) d = Some f.
Proof.
  unfold feed_row. induction (rss_feeds d) as [|g l IH]; simpl; [intros _ []|].
  intros Hnd [->|Hin]; [now rewrite Nat.eqb_refl|].
  inversion Hnd as [|? ? Hnotin Hnd']; subst.
  destruct (Nat.eqb (f_id g) (f_id f)) eqn:E; [|now apply IH].
  apply Nat.eqb_eq in E. exfalso. apply Hnotin. rewrite E. now apply in_map.
Qed.

(** What one feed of the pass does to the row of id [fid]. *)
Lemma process_feed_effect w f st fid :
  let st' := fst (process_feed w f st) in
  let tr := snd (process_feed w f st) in
  clock st <= clock st'
  /\ (not_posts (fetch_feed (lib w) (f_url f)) = true ->
        st' = st /\ count_updates fid tr = 0)
  /\ (not_posts (fetch_feed (lib w) (f_url f)) = false ->
        count_updates fid tr = (if Nat.eqb (f_id f) fid then 1 else 0)
        /\ feed_row fid (db st')
           = if Nat.eqb (f_id f) fid
             then option_map (checked_at (clock st')) (feed_row fid (db st))
             else feed_row fid (db st)).
Proof.
  unfold process_feed.
  destruct (not_posts (fetch_feed (lib w) (f_url f))); simpl.
  - split; [lia|]. split; [now split|discriminate].
  - pose proof (process_posts_keeps_feeds w f
        (match fetch_feed (lib w) (f_url f) with Some ps => ps | None => [] end)
        st fid) as [Hr [Hc Hu]].
    destruct (process_posts w f _ st) as [st1 tr1]. simpl in *.
    split; [exact Hc|]. split; [discriminate|]. intros _. split.
    + change (EvFetch (f_url f) true :: tr1 ++ [EvUpdateCheck (f_id f)])
        with ([EvFetch (f_url f) true] ++ tr1 ++ [EvUpdateCheck (f_id f)]).
      rewrite !count_updates_app, Hu. unfold count_updates. simpl.
      now destruct (Nat.eqb (f_id f) fid).
    + rewrite feed_row_update_feed_check_time.
      now rewrite (feed_row_same_feeds fid (db st) (db st1) Hr).
Qed.

Lemma process_feeds_clock w fs : forall st,
  clock st <= clock (fst (process_feeds w fs st)).
Proof.
  induction fs as [|g fs IH]; intros st; [simpl; lia|].
  rewrite process_feeds_cons. simpl.
  pose proof (process_feed_effect w g st 0) as [Hc _].
  specialize (IH (fst (process_feed w g st))). lia.
Qed.

(** A feed id that no fetched feed of the list carries is left alone. *)
Lemma process_feeds_untouched w fid fs : forall st,
  (forall g, In g fs -> f_id g = fid ->
             not_posts (fetch_feed (lib w) (f_url g)) = true) ->
  count_updates fid (snd (process_feeds w fs st)) = 0
  /\ feed_row fid (db (fst (process_feeds w fs st))) = feed_row fid (db st).
Proof.
  induction fs as [|g fs IH]; intros st Hall; [now split|].
  rewrite process_feeds_cons. simpl. rewrite count_updates_app.
  destruct (IH (fst (process_feed w g st))) as [Hu Hr].
  { intros g' Hin. apply Hall. now right. }
  rewrite Hu, Hr.
  pose proof (process_feed_effect w g st fid) as [_ [Hskip Hrun]].
  destruct (not_posts (fetch_feed (lib w) (f_url g))) eqn:E.
  - destruct (Hskip eq_refl) as [-> ->]. now split.
  - destruct (Hrun eq_refl) as [-> ->].
    destruct (Nat.eqb (f_id g) fid) eqn:Eid; [|now split].
    apply Nat.eqb_eq in Eid. rewrite (Hall g (or_introl eq_refl) Eid) in E.
    discriminate.
Qed.

(** A feed of the list whose fetch gave posts is marked exactly once. *)
Lemma process_feeds_checked w f fs : forall st,
  NoDup (map f_id fs) -> In f fs ->
  not_posts (fetch_feed (lib w) (f_url f)) = false ->
  count_updates (f_id f) (snd (process_feeds w fs st)) = 1
  /\ exists t, clock st <= t <= clock (fst (process_feeds w fs st))
       /\ feed_row (f_id f) (db (fst (process_feeds w fs st)))
          = option_map (checked_at t) (feed_row (f_id f) (db st)).
Proof.
  induction fs as [|g fs IH]; intros st Hnd Hin Hposts; [destruct Hin|].
  inversion Hnd as [|? ? Hnotin Hnd']; subst.
  rewrite process_feeds_cons. simpl. rewrite count_updates_app.
  pose proof (process_feed_effect w g st (f_id f)) as [Hc [Hskip Hrun]].
  pose proof (process_feeds_clock w fs (fst (process_feed w g st))) as Hc'.
  destruct Hin as [->|Hin].
  - (* the feed itself: the rest of the list cannot carry its id *)
    destruct (process_feeds_untouched w (f_id f) fs (fst (process_feed w f st)))
      as [Hu Hr].
    { intros g' Hin Hid. exfalso. apply Hnotin. rewrite <- Hid. now apply in_map. }
    destruct (Hrun Hposts) as [Hu1 Hr1]. rewrite Nat.eqb_refl in Hu1, Hr1.
    rewrite Hu, Hu1, Hr, Hr1. split; [reflexivity|].
    exists (clock (fst (process_feed w f st))). split; [lia|reflexivity].
  - (* a later feed: this one has another id *)
    assert (Hne : Nat.eqb (f_id g) (f_id f) = false).
    { apply Nat.eqb_neq. intros Hid. apply Hnotin. rewrite Hid. now apply in_map. }
    destruct (IH (fst (process_feed w g st)) Hnd' Hin Hposts) as [Hu [t [Ht Hr]]].
    rewrite Hu, Hr.
    destruct (not_posts (fetch_feed (lib w) (f_url g))) eqn:E.
    + destruct (Hskip eq_refl) as [Hst ->]. rewrite Hst in *.
      split; [reflexivity|]. exists t. split; [lia|reflexivity].
    + destruct (Hrun eq_refl) as [-> ->]. rewrite Hne.
      split; [reflexivity|]. exists t. split; [lia|reflexivity].
Qed.

(** C2, as the code has it.  For every feed of the list read at the start
    of an iteration: when its fetch fails or returns no entry,
    [update_feed_check_time] is not called for it and its row is unchanged
    at the end of the iteration; when its fetch returns at least one post,
    [update_feed_check_time] is called for it exactly once, whatever the
    ledger says about those posts, and its [last_check] ends as the time of
    that call. *)
Theorem last_check_updated_when_posts : forall w st f,
  schema_ok (db st) ->
  In f (get_all_feeds (db st)) ->
  let posts := fetch_feed (lib w) (f_url f) in
  let st' := fst (cycle w st) in
  let tr := snd (cycle w st) in
  (posts = None \/ posts = Some [] ->
     count_updates (f_id f) tr = 0 /\ feed_row (f_id f) (db st') = Some f)
  /\ (forall p ps, posts = Some (p :: ps) ->
        count_updates (f_id f) tr = 1
        /\ exists t, clock st <= t <= clock st'
             /\ feed_row (f_id f) (db st') = Some (checked_at t f)).
Proof.
  intros w st f Hok Hin posts st' tr.
  pose proof (feed_ids_unique _ Hok) as Hnd.
  pose proof (feed_row_of_member (db st) f Hnd Hin) as Hrow.
  subst st' tr. rewrite cycle_unfold. simpl. rewrite count_updates_app.
  change (count_updates (f_id f) [EvSleep 900]) with 0. rewrite Nat.add_0_r.
  unfold get_all_feeds in *. split.
  - intros Hnone.
    assert (Hskip : not_posts posts = true) by (destruct Hnone as [-> | ->]; reflexivity).
    destruct (process_feeds_untouched w (f_id f) (rss_feeds (db st)) st) as [Hu Hr].
    { intros g Hg Hid.
      pose proof (feed_row_of_member (db st) g Hnd Hg) as Hrow'.
      rewrite Hid, Hrow in Hrow'. injection Hrow' as <-. exact Hskip. }
    now rewrite Hu, Hr.
  - intros p ps Hsome.
    assert (Hrun : not_posts posts = false) by (now rewrite Hsome).
    destruct (process_feeds_checked w f (rss_feeds (db st)) st Hnd Hin Hrun)
      as [Hu [t [Ht Hr]]].
    split; [exact Hu|]. exists t. split; [lia|].
    now rewrite Hr, Hrow.
Qed.

Lemma last_check_updated_when_posts_witness :
  count_updates 1 (snd (cycle Samples.world_news_ab Samples.state_news)) = 1
  /\ count_updates 1 (snd (cycle Samples.world_unreachable Samples.state_news)) = 0
  /\ feed_row 1 (db (fst (cycle Samples.world_unreachable Samples.state_news)))
     = Some (mkFeed 1 Samples.news_url "News" None).
Proof.
  assert (Hok : schema_ok (db Samples.state_news))
    by (apply schema_ok_exec, schema_ok_empty).
  destruct (last_check_updated_when_posts Samples.world_news_ab Samples.state_news
              (mkFeed 1 Samples.news_url "News" None) Hok (or_introl eq_refl))
    as [_ Hposts].
  destruct (last_check_updated_when_posts Samples.world_unreachable Samples.state_news
              (mkFeed 1 Samples.news_url "News" None) Hok (or_introl eq_refl))
    as [Hfail _].
  split.
  - exact (proj1 (Hposts _ _ eq_refl)).
  - exact (Hfail (or_introl eq_refl)).
Defined.

(** C2 as stated fails on a fetch that succeeds with no entry: the feed is
    not marked as checked. *)
Lemma empty_fetch_counterexample :
  fetch_feed (lib Samples.world_news_empty) Samples.news_url = Some []
  /\ get_all_feeds (db Samples.state_news) = [mkFeed 1 Samples.news_url "News" None]
  /\ count_updates 1 (snd (cycle Samples.world_news_empty Samples.state_news)) = 0
  /\ feed_row 1 (db (fst (cycle Samples.world_news_empty Samples.state_news)))
     = Some (mkFeed 1 Samples.news_url "News" None).
Proof. repeat split. Qed.

(** *** What a pass adds to the ledger *)

Lemma marked_app u a b : marked u (a ++ b) = marked u a || marked u b.
Proof. unfold marked. apply existsb_app. Qed.

Lemma ledger_process_post w f p st u :
  is_post_sent u (db (fst (process_post w f p st)))
  = is_post_sent u (db st) || marked u (snd (process_post w f p st)).
Proof.
  destruct (process_post_outcome w f p st); simpl.
  - now rewrite orb_false_r.
  - now rewrite orb_false_r.
  - rewrite is_post_sent_snoc. simpl. now rewrite orb_false_r.
Qed.

Lemma ledger_grown_post w u st0 f p st h :
  ledger_grown u st0 st h ->
  ledger_grown u st0 (fst (process_post w f p st)) (h ++ snd (process_post w f p st)).
Proof.
  unfold ledger_grown. intros H.
  now rewrite ledger_process_post, marked_app, H, orb_assoc.
Qed.

Lemma ledger_grown_neutral u st0 st st' h e :
  is_post_sent u (db st') = is_post_sent u (db st) ->
  is_mark_of u e = false ->
  ledger_grown u st0 st h -> ledger_grown u st0 st' (h ++ [e]).
Proof.
  unfold ledger_grown. intros Hdb He H.
  rewrite marked_app, Hdb, H. unfold marked at 3. simpl.
  now rewrite He, !orb_false_r.
Qed.

Lemma ledger_process_posts w f ps st u :
  is_post_sent u (db (fst (process_posts w f ps st)))
  = is_post_sent u (db st) || marked u (snd (process_posts w f ps st)).
Proof.
  apply (process_posts_inv w (ledger_grown u st)) with (h := []).
  - intros g p s h. apply ledger_grown_post.
  - unfold ledger_grown. simpl. now rewrite orb_false_r.
Qed.

Lemma ledger_process_feeds w fs st u :
  is_post_sent u (db (fst (process_feeds w fs st)))
  = is_post_sent u (db st) || marked u (snd (process_feeds w fs st)).
Proof.
  apply (process_feeds_inv w (ledger_grown u st)) with (h := []).
  - intros g p s h. apply ledger_grown_post.
  - intros url ok s h. now apply ledger_grown_neutral.
  - intros fid s h. now apply ledger_grown_neutral.
  - unfold ledger_grown. simpl. now rewrite orb_false_r.
Qed.

Lemma ledger_cycle w st u :
  is_post_sent u (db (fst (cycle w st)))
  = is_post_sent u (db st) || marked u (snd (cycle w st)).
Proof.
  rewrite cycle_unfold. simpl. rewrite marked_app, ledger_process_feeds.
  unfold marked at 3. simpl. now rewrite orb_false_r.
Qed.

(** A post that is not in the ledger passes the filter: the loop formats
    it and calls the sink. *)
Lemma unsent_post_is_attempted w f p st :
  is_post_sent (link p) (db st) = false ->
  exists ok rest,
    snd (process_post w f p st)
    = EvIsPostSent (link p) false
        :: EvSend (format_telegram_message p (f_name f)) ok :: rest.
Proof.
  intros Hs. destruct (process_post_outcome w f p st) as [Hs'|Hs' Hk|Hs' Hk].
  - congruence.
  - now exists false, [EvLogError].
  - now exists true, [EvMarkPostSent (f_id f) (link p) true; EvSleep 2].
Qed.

Lemma process_feeds_app w fs gs st :
  process_feeds w (fs ++ gs) st
  = (fst (process_feeds w gs (fst (process_feeds w fs st))),
     snd (process_feeds w fs st)
       ++ snd (process_feeds w gs (fst (process_feeds w fs st)))).
Proof.
  revert st. induction fs as [|f fs IH]; intros st.
  - simpl. now destruct (process_feeds w gs st).
  - rewrite <- app_comm_cons, !process_feeds_cons, IH. simpl.
    now rewrite app_assoc.
Qed.

Lemma process_feed_posts w f st ps :
  fetch_feed (lib w) (f_url f) = Some ps -> ps <> [] ->
  process_feed w f st
  = (mkState (update_feed_check_time (f_id f)
                (clock (fst (process_posts w f ps st)))
                (db (fst (process_posts w f ps st))))
             (clock (fst (process_posts w f ps st)))
             (sends (fst (process_posts w f ps st))),
     EvFetch (f_url f) true
       :: snd (process_posts w f ps st) ++ [EvUpdateCheck (f_id f)]).
Proof.
  intros Hf Hne. unfold process_feed. rewrite Hf.
  destruct ps as [|p ps]; [congruence|]. cbn [not_posts].
  now destruct (process_posts w f (p :: ps) st).
Qed.

Lemma process_post_failed w f p st :
  is_post_sent (link p) (db st) = false ->
  send_message w (sends st) (format_telegram_message p (f_name f)) = false ->
  process_post w f p st
  = (mkState (db st) (clock st) (S (sends st)),
     [EvIsPostSent (link p) false;
      EvSend (format_telegram_message p (f_name f)) false; EvLogError]).
Proof. intros Hs Hk. unfold process_post. now rewrite Hs, Hk. Qed.

Lemma process_post_delivered w f p st :
  is_post_sent (link p) (db st) = false ->
  send_message w (sends st) (format_telegram_message p (f_name f)) = true ->
  snd (process_post w f p st)
  = [EvIsPostSent (link p) false;
     EvSend (format_telegram_message p (f_name f)) true;
     EvMarkPostSent (f_id f) (link p) true; EvSleep 2].
Proof.
  intros Hs Hk. unfold process_post.
  now rewrite Hs, Hk, (mark_post_sent_fresh _ _ _ _ Hs).
Qed.

(** A mark in the trace of a post, a feed or a list of feeds is the mark of
    the link of one of the posts processed there. *)
Lemma marked_process_post w f p st u :
  marked u (snd (process_post w f p st)) = true -> link p = u.
Proof.
  destruct (process_post_outcome w f p st); simpl; try discriminate.
  rewrite orb_false_r. apply String.eqb_eq.
Qed.

Lemma marked_process_posts w f u ps : forall st,
  marked u (snd (process_posts w f ps st)) = true ->
  exists R, In R ps /\ link R = u.
Proof.
  induction ps as [|p ps IH]; intros st; [discriminate|].
  rewrite process_posts_cons. simpl. rewrite marked_app.
  intros H. apply orb_true_iff in H. destruct H as [H|H].
  - exists p. split; [now left|]. exact (marked_process_post _ _ _ _ _ H).
  - destruct (IH _ H) as [R [Hin Hl]]. exists R. split; [now right|exact Hl].
Qed.

Lemma marked_process_feed w g st u :
  marked u (snd (process_feed w g st)) = true ->
  exists ps R, fetch_feed (lib w) (f_url g) = Some ps /\ In R ps /\ link R = u.
Proof.
  destruct (fetch_feed (lib w) (f_url g)) as [[|p ps]|] eqn:Hf.
  - unfold process_feed. rewrite Hf. discriminate.
  - rewrite (process_feed_posts w g st (p :: ps) Hf) by discriminate.
    cbn [snd].
    change (EvFetch (f_url g) true
              :: snd (process_posts w g (p :: ps) st) ++ [EvUpdateCheck (f_id g)])
      with ([EvFetch (f_url g) true]
              ++ snd (process_posts w g (p :: ps) st) ++ [EvUpdateCheck (f_id g)]).
    rewrite !marked_app.
    change (marked u [EvFetch (f_url g) true]) with false.
    change (marked u [EvUpdateCheck (f_id g)]) with false.
    rewrite orb_false_r, orb_false_l.
    intros H. destruct (marked_process_posts _ _ _ _ _ H) as [R [Hin Hl]].
    now exists (p :: ps), R.
  - unfold process_feed. rewrite Hf. discriminate.
Qed.

Lemma marked_process_feeds w u fs : forall st,
  marked u (snd (process_feeds w fs st)) = true ->
  exists g ps R, In g fs /\ fetch_feed (lib w) (f_url g) = Some ps
                 /\ In R ps /\ link R = u.
Proof.
  induction fs as [|g fs IH]; intros st; [discriminate|].
  rewrite process_feeds_cons. simpl. rewrite marked_app.
  intros H. apply orb_true_iff in H. destruct H as [H|H].
  - destruct (marked_process_feed _ _ _ _ H) as [ps [R [Hf [Hin Hl]]]].
    exists g, ps, R. repeat split; try assumption. now left.
  - destruct (IH _ H) as [g' [ps [R [Hg [Hf [Hin Hl]]]]]].
    exists g', ps, R. repeat split; try assumption. now right.
Qed.

(** The trace of an iteration, cut at one feed of the list. *)
Lemma cycle_through_feed w st fs1 f fs2 ps :
  get_all_feeds (db st) = fs1 ++ f :: fs2 ->
  fetch_feed (lib w) (f_url f) = Some ps -> ps <> [] ->
  exists st2,
    snd (cycle w st)
    = snd (process_feeds w fs1 st)
        ++ EvFetch (f_url f) true
        :: snd (process_posts w f ps (fst (process_feeds w fs1 st)))
        ++ EvUpdateCheck (f_id f) :: snd (process_feeds w fs2 st2) ++ [EvSleep 900].
Proof.
  intros Hfeeds Hf Hne. rewrite cycle_unfold, Hfeeds. cbn [snd].
  rewrite process_feeds_app. cbn [fst snd]. rewrite process_feeds_cons. cbn [fst snd].
  rewrite (process_feed_posts w f _ ps Hf Hne). cbn [fst snd].
  eexists. rewrite <- !app_assoc. rewrite <- app_comm_cons.
  rewrite <- !app_assoc. reflexivity.
Qed.

Lemma process_posts_two w f before P between Q after st0 :
  let stP := fst (process_posts w f before st0) in
  let stP' := fst (process_post w f P stP) in
  let stQ := fst (process_posts w f between stP') in
  let stQ' := fst (process_post w f Q stQ) in
  process_posts w f (before ++ P :: between ++ Q :: after) st0
  = (fst (process_posts w f after stQ'),
     snd (process_posts w f before st0)
       ++ snd (process_post w f P stP)
       ++ snd (process_posts w f between stP')
       ++ snd (process_post w f Q stQ)
       ++ snd (process_posts w f after stQ')).
Proof.
  intros stP stP' stQ stQ'.
  rewrite process_posts_app. cbn [fst snd].
  rewrite process_posts_cons. cbn [fst snd].
  rewrite process_posts_app. cbn [fst snd].
  rewrite process_posts_cons. cbn [fst snd].
  reflexivity.
Qed.

(** C4, as the code has it.  Take a feed of the list whose fetch returns
    the posts [before ++ P :: between ++ Q :: after], and suppose that at
    P's turn P's link is not in the ledger and the sink raises, and that at
    Q's turn Q's link is not in the ledger and the sink accepts.  Then the
    iteration goes on after P's failure (error log, then the posts between,
    then Q with its insert and pause, then the posts after, then the feed
    is marked as checked); P's attempt changes nothing in the store; Q's
    link is in the ledger at the end of the iteration; and P's link is in
    the ledger at the end exactly when some delivery of this iteration
    recorded that same link.  When none did (in particular when no later
    post of this feed and no post of a later feed carries P's link), the
    next iteration, whatever the feeds return then, treats P at its turn
    as follows: P's link is in the ledger exactly when a delivery earlier
    in that iteration recorded it; when none did (in particular when no
    post of an earlier feed and no earlier post of P's feed carries P's
    link), P passes the filter and is sent again; otherwise P is skipped. *)
Theorem failed_post_stays_eligible :
  forall w st fs1 f fs2 before P between Q after,
  get_all_feeds (db st) = fs1 ++ f :: fs2 ->
  fetch_feed (lib w) (f_url f) = Some (before ++ P :: between ++ Q :: after) ->
  let st0 := fst (process_feeds w fs1 st) in
  let stP := fst (process_posts w f before st0) in
  let stP' := fst (process_post w f P stP) in
  let stQ := fst (process_posts w f between stP') in
  let stQ' := fst (process_post w f Q stQ) in
  let final := fst (cycle w st) in
  let tr := snd (cycle w st) in
  is_post_sent (link P) (db stP) = false ->
  send_message w (sends stP) (format_telegram_message P (f_name f)) = false ->
  is_post_sent (link Q) (db stQ) = false ->
  send_message w (sends stQ) (format_telegram_message Q (f_name f)) = true ->
  (exists pre post,
     tr = pre
          ++ [EvIsPostSent (link P) false;
              EvSend (format_telegram_message P (f_name f)) false; EvLogError]
          ++ snd (process_posts w f between stP')
          ++ [EvIsPostSent (link Q) false;
              EvSend (format_telegram_message Q (f_name f)) true;
              EvMarkPostSent (f_id f) (link Q) true; EvSleep 2]
          ++ snd (process_posts w f after stQ')
          ++ EvUpdateCheck (f_id f) :: post)
  /\ db stP' = db stP
  /\ is_post_sent (link Q) (db final) = true
  /\ is_post_sent (link P) (db final) = marked (link P) tr
  /\ (marked (link P) tr = false ->
      forall w' fs1' f' fs2' before' after',
        get_all_feeds (db final) = fs1' ++ f' :: fs2' ->
        fetch_feed (lib w') (f_url f') = Some (before' ++ P :: after') ->
        let st0' := fst (process_feeds w' fs1' final) in
        let stP2 := fst (process_posts w' f' before' st0') in
        let earlier := snd (process_feeds w' fs1' final)
                       ++ snd (process_posts w' f' before' st0') in
        (exists post,
           snd (cycle w' final)
           = snd (process_feeds w' fs1' final)
             ++ EvFetch (f_url f') true
             :: snd (process_posts w' f' before' st0')
             ++ snd (process_post w' f' P stP2) ++ post)
        /\ is_post_sent (link P) (db stP2) = marked (link P) earlier
        /\ (marked (link P) earlier = false ->
            exists ok rest,
              snd (process_post w' f' P stP2)
              = EvIsPostSent (link P) false
                  :: EvSend (format_telegram_message P (f_name f')) ok :: rest)
        /\ (marked (link P) earlier = true ->
            process_post w' f' P stP2 = (stP2, [EvIsPostSent (link P) true]))
        /\ ((forall R, In R before' -> link R <> link P) ->
            (forall g ps R, In g fs1' -> fetch_feed (lib w') (f_url g) = Some ps ->
                            In R ps -> link R <> link P) ->
            marked (link P) earlier = false))
  /\ ((forall R, In R (between ++ Q :: after) -> link R <> link P) ->
      (forall g ps R, In g fs2 -> fetch_feed (lib w) (f_url g) = Some ps ->
                      In R ps -> link R <> link P) ->
      marked (link P) tr = false).
Proof.
  intros w st fs1 f fs2 before P between Q after Hfeeds Hfetch
         st0 stP stP' stQ stQ' final tr HsP HkP HsQ HkQ.
  assert (Hne : before ++ P :: between ++ Q :: after <> [])
    by (destruct before; discriminate).
  destruct (cycle_through_feed w st fs1 f fs2 _ Hfeeds Hfetch Hne) as [st2 Htr].
  fold tr st0 in Htr.
  rewrite (process_posts_two w f before P between Q after st0) in Htr.
  cbn [snd] in Htr. fold stP stP' stQ stQ' in Htr.
  pose proof (process_post_failed w f P stP HsP HkP) as HP.
  pose proof (process_post_delivered w f Q stQ HsQ HkQ) as HQ.
  assert (HtrP : snd (process_post w f P stP)
                 = [EvIsPostSent (link P) false;
                    EvSend (format_telegram_message P (f_name f)) false; EvLogError])
    by now rewrite HP.
  rewrite HtrP, HQ in Htr.
  (* the ledger before the iteration does not hold P's link *)
  assert (Hold : is_post_sent (link P) (db st) = false
                 /\ marked (link P) (snd (process_feeds w fs1 st)) = false
                 /\ marked (link P) (snd (process_posts w f before st0)) = false).
  { unfold stP in HsP. rewrite ledger_process_posts in HsP.
    unfold st0 in HsP at 1. rewrite ledger_process_feeds in HsP.
    apply orb_false_iff in HsP. destruct HsP as [HsP Hm2].
    apply orb_false_iff in HsP. destruct HsP as [Hm0 Hm1]. now repeat split. }
  destruct Hold as [Hold [Hm1 Hm2]].
  assert (Hledger : forall u, is_post_sent u (db final)
                              = is_post_sent u (db st) || marked u tr)
    by (intros u; apply ledger_cycle).
  split; [|split; [|split; [|split; [|split]]]].
  - exists (snd (process_feeds w fs1 st)
            ++ EvFetch (f_url f) true :: snd (process_posts w f before st0)),
           (snd (process_feeds w fs2 st2) ++ [EvSleep 900]).
    rewrite Htr. repeat (rewrite <- app_assoc; cbn [app]). reflexivity.
  - unfold stP'. now rewrite HP.
  - rewrite Hledger. apply orb_true_iff. right. rewrite Htr.
    rewrite marked_app. apply orb_true_iff. right.
    change (EvFetch (f_url f) true :: ?x) with ([EvFetch (f_url f) true] ++ x).
    rewrite !marked_app.
    change (marked (link Q)
              [EvIsPostSent (link Q) false;
               EvSend (format_telegram_message Q (f_name f)) true;
               EvMarkPostSent (f_id f) (link Q) true; EvSleep 2])
      with (String.eqb (link Q) (link Q) || false).
    rewrite String.eqb_refl. simpl. now rewrite !orb_true_r.
  - now rewrite Hledger, Hold.
  - intros Hm w' fs1' f' fs2' before' after' Hfeeds' Hfetch' st0' stP2 earlier.
    assert (Hfinal : is_post_sent (link P) (db final) = false)
      by now rewrite Hledger, Hold, Hm.
    assert (Hturn : is_post_sent (link P) (db stP2) = marked (link P) earlier).
    { unfold stP2. rewrite ledger_process_posts.
      unfold st0' at 1. rewrite ledger_process_feeds, Hfinal.
      unfold earlier. now rewrite marked_app. }
    split; [|split; [exact Hturn|split; [|split]]].
    + assert (Hne' : before' ++ P :: after' <> []) by (destruct before'; discriminate).
      destruct (cycle_through_feed w' final fs1' f' fs2' _ Hfeeds' Hfetch' Hne')
        as [st2' Htr'].
      fold st0' in Htr'. rewrite process_posts_app in Htr'. cbn [snd] in Htr'.
      fold stP2 in Htr'. rewrite process_posts_cons in Htr'. cbn [snd] in Htr'.
      eexists. rewrite Htr'. repeat (rewrite <- app_assoc; cbn [app]). reflexivity.
    + intros He. apply unsent_post_is_attempted. now rewrite Hturn.
    + intros He. unfold process_post. now rewrite Hturn, He.
    + intros Hbefore Hfeeds1.
      unfold earlier. rewrite marked_app. apply orb_false_iff. split.
      * destruct (marked (link P) (snd (process_feeds w' fs1' final))) eqn:E;
          [|reflexivity].
        destruct (marked_process_feeds _ _ _ _ E) as [g [ps [R [Hg [Hf [Hin Hl]]]]]].
        exfalso. exact (Hfeeds1 g ps R Hg Hf Hin Hl).
      * destruct (marked (link P) (snd (process_posts w' f' before' st0'))) eqn:E;
          [|reflexivity].
        destruct (marked_process_posts _ _ _ _ _ E) as [R [Hin Hl]].
        exfalso. exact (Hbefore R Hin Hl).
  - intros Hlater Hfeeds2. rewrite Htr.
    rewrite marked_app, Hm1, orb_false_l.
    change (EvFetch (f_url f) true :: ?x) with ([EvFetch (f_url f) true] ++ x).
    rewrite !marked_app, Hm2.
    change (marked (link P) [EvFetch (f_url f) true]) with false.
    change (marked (link P)
              [EvIsPostSent (link P) false;
               EvSend (format_telegram_message P (f_name f)) false; EvLogError])
      with false.
    change (marked (link P)
              [EvIsPostSent (link Q) false;
               EvSend (format_telegram_message Q (f_name f)) true;
               EvMarkPostSent (f_id f) (link Q) true; EvSleep 2])
      with (String.eqb (link Q) (link P) || false).
    assert (HQP : String.eqb (link Q) (link P) = false).
    { apply String.eqb_neq. apply Hlater. apply in_app_iff. right. now left. }
    assert (Hbetween : marked (link P) (snd (process_posts w f between stP')) = false).
    { destruct (marked (link P) (snd (process_posts w f between stP'))) eqn:E;
        [|reflexivity].
      destruct (marked_process_posts _ _ _ _ _ E) as [R [Hin Hl]].
      exfalso. apply (Hlater R); [|exact Hl]. apply in_app_iff. now left. }
    assert (Hafter : marked (link P) (snd (process_posts w f after stQ')) = false).
    { destruct (marked (link P) (snd (process_posts w f after stQ'))) eqn:E;
        [|reflexivity].
      destruct (marked_process_posts _ _ _ _ _ E) as [R [Hin Hl]].
      exfalso. apply (Hlater R); [|exact Hl]. apply in_app_iff. right. now right. }
    assert (Hrest : marked (link P) (snd (process_feeds w fs2 st2)) = false).
    { destruct (marked (link P) (snd (process_feeds w fs2 st2))) eqn:E;
        [|reflexivity].
      destruct (marked_process_feeds _ _ _ _ E) as [g [ps [R [Hg [Hf [Hin Hl]]]]]].
      exfalso. exact (Hfeeds2 g ps R Hg Hf Hin Hl). }
    change (EvUpdateCheck (f_id f) :: ?x) with ([EvUpdateCheck (f_id f)] ++ x).
    rewrite !marked_app, Hbetween, Hafter, Hrest, HQP.
    reflexivity.
Qed.

(** The sink raises for the first post and accepts the second; in the
    next iteration the feed returns the same two posts. *)
Lemma failed_post_stays_eligible_witness :
  is_post_sent "http://news.example/b"
    (db (fst (cycle Samples.world_first_fails Samples.state_news))) = true
  /\ is_post_sent "http://news.example/a"
       (db (fst (cycle Samples.world_first_fails Samples.state_news))) = false
  /\ exists ok rest,
       snd (process_post Samples.world_news_ab (mkFeed 1 Samples.news_url "News" (Some 2))
              (build_post (lib Samples.world_first_fails) 0 Samples.entry_a)
              (fst (cycle Samples.world_first_fails Samples.state_news)))
       = EvIsPostSent "http://news.example/a" false
           :: EvSend (format_telegram_message
                        (build_post (lib Samples.world_first_fails) 0 Samples.entry_a)
                        "News") ok
           :: rest.
Proof.
  destruct (failed_post_stays_eligible
              Samples.world_first_fails Samples.state_news
              [] (mkFeed 1 Samples.news_url "News" None) []
              [] (build_post (lib Samples.world_first_fails) 0 Samples.entry_a)
              [] (build_post (lib Samples.world_first_fails) 1 Samples.entry_b) []
              eq_refl eq_refl eq_refl eq_refl eq_refl eq_refl)
    as [_ [_ [HQ [HP [Hnext Hclean]]]]].
  assert (Hm : marked "http://news.example/a"
                 (snd (cycle Samples.world_first_fails Samples.state_news)) = false).
  { apply Hclean.
    - intros R [<-|[]]. discriminate.
    - intros g ps R []. }
  split; [exact HQ|]. split.
  - change "http://news.example/a"
      with (link (build_post (lib Samples.world_first_fails) 0 Samples.entry_a)).
    rewrite HP. exact Hm.
  - destruct (Hnext Hm Samples.world_news_ab
                [] (mkFeed 1 Samples.news_url "News" (Some 2)) []
                [] [build_post (lib Samples.world_first_fails) 1 Samples.entry_b]
                eq_refl eq_refl)
      as [_ [_ [Hsent [_ Hfirst]]]].
    apply Hsent. apply Hfirst.
    + intros R [].
    + intros g ps R [].
Defined.

(** C4 as stated fails when P and Q carry the same link: Q's delivery
    records the link, and P is filtered out from then on. *)
Lemma same_link_counterexample :
  let w := Samples.world_same_link in
  let P := build_post (lib w) 0 Samples.entry_a in
  let Q := build_post (lib w) 1 Samples.entry_a_again in
  let final := fst (cycle w Samples.state_news) in
  fetch_feed (lib w) Samples.news_url = Some [P; Q]
  /\ P <> Q
  /\ snd (cycle w Samples.state_news)
     = [EvFetch Samples.news_url true;
        EvIsPostSent (link P) false; EvSend (format_telegram_message P "News") false;
        EvLogError;
        EvIsPostSent (link Q) false; EvSend (format_telegram_message Q "News") true;
        EvMarkPostSent 1 (link Q) true; EvSleep 2;
        EvUpdateCheck 1; EvSleep 900]
  /\ is_post_sent (link P) (db final) = true
  /\ forall w' f', process_post w' f' P final = (final, [EvIsPostSent (link P) true]).
Proof.
  split; [reflexivity|]. split; [discriminate|]. split; [reflexivity|].
  split; [reflexivity|]. intros w' f'. reflexivity.
Qed.

(** *** A url that is in the ledger *)

Lemma quiet_nil u : quiet u [].
Proof.
  repeat split; try (intros; contradiction).
  - intros fid ok [].
  - intros pre t ok post H. now destruct pre.
Qed.

Lemma quiet_app u a b : quiet u a -> quiet u b -> quiet u (a ++ b).
Proof.
  intros [A1 [A2 A3]] [B1 [B2 B3]]. repeat split.
  - intros r Hin. apply in_app_iff in Hin. destruct Hin; [now apply A1|now apply B1].
  - intros fid ok Hin. apply in_app_iff in Hin.
    destruct Hin as [Hin|Hin]; [exact (A2 _ _ Hin)|exact (B2 _ _ Hin)].
  - intros pre t ok post Heq. apply app_eq_elt_split in Heq.
    destruct Heq as [[m [Ha ->]]|[m [Hb ->]]].
    + exact (A3 _ _ _ _ Ha).
    + destruct (B3 _ _ _ _ Hb) as [pre' [v [-> Hv]]].
      exists (a ++ pre'), v. split; [now rewrite app_assoc|exact Hv].
Qed.

Lemma quiet_single u e :
  (forall r, e <> EvIsPostSent u r) ->
  (forall fid ok, e <> EvMarkPostSent fid u ok) ->
  (forall t ok, e <> EvSend t ok) ->
  quiet u [e].
Proof.
  intros Hq Hm Hs. repeat split.
  - intros r [Heq|[]]. exfalso. exact (Hq r Heq).
  - intros fid ok [Heq|[]]. exact (Hm fid ok Heq).
  - intros pre t ok post Heq. locate Heq. exfalso. now apply (Hs t ok).
Qed.

Lemma quiet_process_post w f p st u :
  is_post_sent u (db st) = true ->
  is_post_sent u (db (fst (process_post w f p st))) = true
  /\ quiet u (snd (process_post w f p st)).
Proof.
  intros Hu. split; [now rewrite ledger_process_post, Hu|].
  destruct (process_post_outcome w f p st) as [Hs|Hs Hk|Hs Hk].
  - repeat split.
    + intros r [Heq|[]]. now injection Heq.
    + intros fid ok [Heq|[]]. discriminate.
    + intros pre t ok post Heq. locate Heq.
  - assert (Hne : link p <> u) by congruence. repeat split.
    + intros r [Heq|[Heq|[Heq|[]]]]; try discriminate. injection Heq as Hl _.
      contradiction.
    + intros fid ok [Heq|[Heq|[Heq|[]]]]; discriminate.
    + intros pre t ok post Heq. locate Heq. now exists [], (link p).
  - assert (Hne : link p <> u) by congruence. repeat split.
    + intros r [Heq|[Heq|[Heq|[Heq|[]]]]]; try discriminate. injection Heq as Hl _.
      contradiction.
    + intros fid ok [Heq|[Heq|[Heq|[Heq|[]]]]]; try discriminate.
      injection Heq as _ Hl _. contradiction.
    + intros pre t ok post Heq. locate Heq. now exists [], (link p).
Qed.

Lemma stays_sent_cycle w u st :
  is_post_sent u (db st) = true ->
  stays_sent u (fst (cycle w st)) (snd (cycle w st)).
Proof.
  intros Hu. apply (cycle_inv w (stays_sent u)) with (h := []).
  - intros f p s h [Hs Hq].
    destruct (quiet_process_post w f p s u Hs) as [Hs' Hq'].
    split; [exact Hs'|now apply quiet_app].
  - intros url ok s h [Hs Hq]. split; [exact Hs|].
    apply quiet_app; [exact Hq|]. apply quiet_single; discriminate.
  - intros fid s h [Hs Hq]. split; [exact Hs|].
    apply quiet_app; [exact Hq|]. apply quiet_single; discriminate.
  - intros s h [Hs Hq]. split; [exact Hs|].
    apply quiet_app; [exact Hq|]. apply quiet_single; discriminate.
  - split; [exact Hu|apply quiet_nil].
Qed.

(** [remove_feed] keeps the url in the ledger unless a row of that url is
    recorded under the feed it removes. *)
Lemma is_post_sent_remove_feed u url d :
  is_post_sent u d = true ->
  removes_row_of u (OpRemoveFeed url) d = false ->
  is_post_sent u (snd (remove_feed url d)) = true.
Proof.
  unfold removes_row_of, remove_feed.
  destruct (select_feed_by_url url d) as [f|]; [|now intros].
  intros Hu Hkeep. simpl. unfold is_post_sent in *. simpl.
  apply existsb_exists in Hu. destruct Hu as [sp [Hin Heq]].
  apply existsb_exists. exists sp. split; [|exact Heq].
  apply filter_In. split; [exact Hin|].
  destruct (Nat.eqb (sp_feed_id sp) (f_id f)) eqn:E; [|reflexivity].
  exfalso. assert (Hc : existsb (fun sp0 => String.eqb (sp_post_url sp0) u
                                             && Nat.eqb (sp_feed_id sp0) (f_id f))
                          (sent_posts d) = true).
  { apply existsb_exists. exists sp. split; [exact Hin|]. now rewrite Heq, E. }
  congruence.
Qed.

Lemma stays_sent_exec_op u o st :
  is_post_sent u (db st) = true ->
  removes_row_of u o (db st) = false ->
  stays_sent u (fst (exec_op o st)) (snd (exec_op o st)).
Proof.
  intros Hu Hkeep. destruct o; simpl.
  - split; [|apply quiet_nil]. simpl. unfold add_feed.
    now destruct (select_feed_by_url url (db st)).
  - split; [|apply quiet_nil]. simpl. now apply is_post_sent_remove_feed.
  - split; [exact Hu|apply quiet_nil].
  - split; [exact Hu|apply quiet_nil].
  - unfold mark_post_sent.
    destruct (is_post_sent post_url (db st)); simpl;
      (split; [|apply quiet_nil]); [exact Hu|].
    simpl. rewrite is_post_sent_snoc. now rewrite Hu.
  - now apply stays_sent_cycle.
Qed.

Lemma stays_sent_exec u ops : forall st,
  is_post_sent u (db st) = true ->
  row_survives u ops st = true ->
  stays_sent u (fst (exec ops st)) (snd (exec ops st)).
Proof.
  induction ops as [|o ops IH]; intros st Hu Hrow.
  - split; [exact Hu|apply quiet_nil].
  - simpl in Hrow. apply andb_true_iff in Hrow. destruct Hrow as [Hkeep Hrow].
    apply negb_true_iff in Hkeep.
    destruct (stays_sent_exec_op u o st Hu Hkeep) as [Hu1 Hq1].
    destruct (IH _ Hu1 Hrow) as [Hu2 Hq2].
    rewrite exec_cons. simpl. split; [exact Hu2|now apply quiet_app].
Qed.

(** C9, as the code has it.  An entry without link gets the empty string
    as link.  Once the empty string is in the ledger, it stays there
    through store operations and iterations of the loop for as long as no
    [remove_feed] removes a feed under which a row of the empty url is
    recorded; during that time every lookup of the empty url answers
    "sent", no insert is made for it, every send is that of a post with
    another link, and a link-less post of any feed is skipped. *)
Theorem linkless_posts_share_ledger_row :
  (forall lib0 i e, e_link e = None -> link (build_post lib0 i e) = EmptyString)
  /\ (forall ops st,
        is_post_sent EmptyString (db st) = true ->
        row_survives EmptyString ops st = true ->
        let st' := fst (exec ops st) in
        let tr := snd (exec ops st) in
        is_post_sent EmptyString (db st') = true
        /\ (forall r, In (EvIsPostSent EmptyString r) tr -> r = true)
        /\ (forall fid ok, ~ In (EvMarkPostSent fid EmptyString ok) tr)
        /\ (forall pre t ok post,
              tr = pre ++ EvSend t ok :: post ->
              exists pre' v, pre = pre' ++ [EvIsPostSent v false] /\ v <> EmptyString)
        /\ (forall w f p, link p = EmptyString ->
              process_post w f p st' = (st', [EvIsPostSent EmptyString true]))).
Proof.
  split.
  - intros lib0 i e He. simpl. now rewrite He.
  - intros ops st Hu Hrow st' tr.
    destruct (stays_sent_exec EmptyString ops st Hu Hrow) as [Hu' [Q1 [Q2 Q3]]].
    fold st' in Hu'. fold tr in Q1, Q2, Q3.
    split; [exact Hu'|]. split; [exact Q1|]. split; [exact Q2|]. split; [exact Q3|].
    intros w f p Hl. unfold process_post. now rewrite Hl, Hu'.
Qed.

Lemma linkless_posts_share_ledger_row_witness :
  let ops := [OpCycle (Samples.world_linkless_at Samples.blog_url);
              OpRemoveFeed Samples.blog_url;
              OpAddFeed Samples.blog_url "Blog again";
              OpCycle (Samples.world_linkless_at Samples.blog_url)] in
  link (build_post (lib (Samples.world_linkless_at Samples.blog_url)) 0
          Samples.linkless_entry) = EmptyString
  /\ is_post_sent EmptyString (db Samples.state_linkless_sent) = true
  /\ is_post_sent EmptyString (db (fst (exec ops Samples.state_linkless_sent))) = true
  /\ forall fid ok,
       ~ In (EvMarkPostSent fid EmptyString ok)
            (snd (exec ops Samples.state_linkless_sent)).
Proof.
  intros ops. destruct linkless_posts_share_ledger_row as [Hlink Hrow].
  split; [apply Hlink; reflexivity|]. split; [reflexivity|].
  destruct (Hrow ops Samples.state_linkless_sent eq_refl eq_refl)
    as [Hsent [_ [Hnomark _]]].
  split; [exact Hsent|exact Hnomark].
Defined.

(** C9 as stated fails once the feed under which the empty url was
    recorded is removed: the row goes with it, and the next link-less post
    is delivered. *)
Lemma linkless_redelivered_counterexample :
  let w := Samples.world_linkless_at Samples.blog_url in
  let p := build_post (lib w) 0 Samples.linkless_entry in
  let run := exec [OpRemoveFeed Samples.news_url; OpCycle w] Samples.state_linkless_sent in
  link p = EmptyString
  /\ sent_posts (db Samples.state_linkless_sent) = [mkSentPost 1 1 EmptyString 0]
  /\ snd run
     = [EvFetch Samples.blog_url true;
        EvIsPostSent EmptyString false; EvSend (format_telegram_message p "Blog") true;
        EvMarkPostSent 2 EmptyString true; EvSleep 2;
        EvUpdateCheck 2; EvSleep 900].
Proof. repeat split. Qed.

(* ================================================================== *)
(** ** More on the feed store *)
(* ================================================================== *)

Import Readings LoopProperties.

(** X1.  [mark_post_sent] raises exactly on a url that [is_post_sent]
    finds.  On any other url it succeeds, [is_post_sent] then finds the url,
    every other url is found or not as before, the feed table is untouched,
    and a second insert of the same url raises. *)
Theorem mark_post_sent_then_lookup : forall fid u now d,
  (is_post_sent u d = true -> mark_post_sent fid u now d = Raise IntegrityError)
  /\ (is_post_sent u d = false ->
      exists d', mark_post_sent fid u now d = Ok d'
        /\ is_post_sent u d' = true
        /\ (forall v, v <> u -> is_post_sent v d' = is_post_sent v d)
        /\ rss_feeds d' = rss_feeds d
        /\ forall fid' now', mark_post_sent fid' u now' d' = Raise IntegrityError).
Proof.
  intros fid u now d. split.
  - intros H. unfold mark_post_sent. now rewrite H.
  - intros H. rewrite (mark_post_sent_fresh _ _ _ _ H). eexists. split; [reflexivity|].
    assert (Hu : is_post_sent u
                   (mkDB (rss_feeds d)
                         (sent_posts d ++ [mkSentPost (S (sent_posts_seq d)) fid u now])
                         (rss_feeds_seq d) (S (sent_posts_seq d))) = true).
    { rewrite is_post_sent_snoc. simpl. now rewrite String.eqb_refl, orb_true_r. }
    split; [exact Hu|]. split; [|split; [reflexivity|]].
    + intros v Hv. rewrite is_post_sent_snoc. simpl.
      apply not_eq_sym, String.eqb_neq in Hv. now rewrite Hv, orb_false_r.
    + intros fid' now'. unfold mark_post_sent. now rewrite Hu.
Qed.

Lemma mark_post_sent_then_lookup_witness :
  mark_post_sent 2 "http://news.example/1" 7 Samples.store_two_feeds
    = Raise IntegrityError
  /\ exists d', mark_post_sent 2 "http://blog.example/9" 7 Samples.store_two_feeds = Ok d'
       /\ is_post_sent "http://blog.example/9" d' = true.
Proof.
  destruct (mark_post_sent_then_lookup 2 "http://news.example/1" 7
              Samples.store_two_feeds) as [Hraise _].
  destruct (mark_post_sent_then_lookup 2 "http://blog.example/9" 7
              Samples.store_two_feeds) as [_ Hok].
  split; [apply Hraise; reflexivity|].
  destruct (Hok eq_refl) as [d' [Hd [Hs _]]]. now exists d'.
Defined.

(** X2.  In a store that satisfies the schema, [add_feed] of a url that no
    feed has appends one row at the end of the table (so [get_all_feeds]
    lists feeds in the order they were added): it has the given url and
    name, no [last_check], and an id larger than every id in the table;
    and looking the url up finds that row. *)
Theorem add_feed_appends_fresh_row : forall url name d,
  schema_ok d ->
  (forall g, In g (rss_feeds d) -> f_url g <> url) ->
  exists f,
    get_all_feeds (add_feed url name d) = get_all_feeds d ++ [f]
    /\ f_url f = url /\ f_name f = name /\ f_last_check f = None
    /\ (forall g, In g (get_all_feeds d) -> f_id g < f_id f)
    /\ select_feed_by_url url (add_feed url name d) = Some f
    /\ sent_posts (add_feed url name d) = sent_posts d.
Proof.
  intros url name d Hok Hfresh.
  pose proof (schema_ok_add_feed url name d Hok) as Hok'.
  apply select_feed_by_url_none in Hfresh.
  unfold add_feed in *. rewrite Hfresh in *.
  exists (mkFeed (S (rss_feeds_seq d)) url name None). simpl.
  repeat split.
  - intros g Hg. pose proof (feed_ids_issued _ Hok g Hg). simpl. lia.
  - apply select_feed_by_url_unique.
    + apply (feed_urls_unique _ Hok').
    + simpl. apply in_app_iff. right. now left.
    + reflexivity.
Qed.

Lemma add_feed_appends_fresh_row_witness :
  exists f,
    get_all_feeds (add_feed "http://third.example/rss" "Third" Samples.store_two_feeds)
    = get_all_feeds Samples.store_two_feeds ++ [f]
    /\ f_id f = 3.
Proof.
  assert (Hok : schema_ok Samples.store_two_feeds)
    by (apply (schema_ok_exec _ start), schema_ok_empty).
  destruct (add_feed_appends_fresh_row "http://third.example/rss" "Third"
              Samples.store_two_feeds Hok) as [f [Hf _]].
  - intros g [<-|[<-|[]]]; discriminate.
  - exists f. split; [exact Hf|].
    apply (f_equal (fun l => map f_id l)) in Hf. simpl in Hf.
    cbv in Hf. now injection Hf.
Defined.


(** X4.  Removing a feed forgets what was delivered for it: in a store
    that satisfies the schema, a url whose ledger row was recorded under
    the removed feed is no longer found by [is_post_sent], while a url
    recorded under another feed still is. *)
Theorem remove_feed_forgets_history : forall url d f sp,
  schema_ok d ->
  select_feed_by_url url d = Some f ->
  In sp (sent_posts d) ->
  let d' := snd (remove_feed url d) in
  (sp_feed_id sp = f_id f -> is_post_sent (sp_post_url sp) d' = false)
  /\ (sp_feed_id sp <> f_id f -> is_post_sent (sp_post_url sp) d' = true).
Proof.
  intros url d f sp Hok Hsel Hin d'. subst d'. unfold remove_feed. rewrite Hsel.
  simpl. split.
  - intros Hid. apply is_post_sent_false. simpl. intros Hc.
    apply in_map_iff in Hc. destruct Hc as [sp' [Hu Hin']].
    apply filter_In in Hin'. destruct Hin' as [Hin' Hne].
    apply negb_true_iff, Nat.eqb_neq in Hne.
    pose proof (post_urls_unique _ Hok) as Hnd.
    assert (sp' = sp); [|congruence].
    clear - Hnd Hin Hin' Hu.
    induction (sent_posts d) as [|r rows IH]; [destruct Hin|].
    simpl in Hnd. inversion Hnd as [|? ? Hnotin Hnd']; subst.
    destruct Hin as [->|Hin], Hin' as [->|Hin']; try reflexivity.
    + exfalso. apply Hnotin. rewrite <- Hu. now apply in_map.
    + exfalso. apply Hnotin. rewrite Hu. now apply in_map.
    + now apply IH.
  - intros Hne. apply is_post_sent_true. simpl. apply in_map. apply filter_In.
    split; [exact Hin|]. now apply negb_true_iff, Nat.eqb_neq.
Qed.

Lemma remove_feed_forgets_history_witness :
  is_post_sent "http://news.example/1"
    (snd (remove_feed Samples.news_url Samples.store_two_feeds)) = false
  /\ is_post_sent "http://blog.example/1"
       (snd (remove_feed Samples.news_url Samples.store_two_feeds)) = true.
Proof.
  assert (Hok : schema_ok Samples.store_two_feeds)
    by (apply (schema_ok_exec _ start), schema_ok_empty).
  split.
  - apply (remove_feed_forgets_history Samples.news_url Samples.store_two_feeds
             (mkFeed 1 Samples.news_url "News" None)
             (mkSentPost 1 1 "http://news.example/1" 0) Hok eq_refl);
      [now left|reflexivity].
  - apply (remove_feed_forgets_history Samples.news_url Samples.store_two_feeds
             (mkFeed 1 Samples.news_url "News" None)
             (mkSentPost 2 2 "http://blog.example/1" 0) Hok eq_refl);
      [right; now left|discriminate].
Defined.

Lemma remove_feed_absent url d :
  (forall g, In g (rss_feeds d) -> f_url g <> url) -> remove_feed url d = (false, d).
Proof.
  intros H. unfold remove_feed.
  now rewrite (proj2 (select_feed_by_url_none url d) H).
Qed.

Lemma remove_feed_present url d f :
  select_feed_by_url url d = Some f ->
  remove_feed url d
  = (true,
     mkDB (filter (fun g => negb (Nat.eqb (f_id g) (f_id f))) (rss_feeds d))
          (filter (fun sp => negb (Nat.eqb (sp_feed_id sp) (f_id f))) (sent_posts d))
          (rss_feeds_seq d) (sent_posts_seq d)).
Proof. intros H. unfold remove_feed. now rewrite H. Qed.

Lemma remove_feed_url_gone url d :
  schema_ok d ->
  forall g, In g (rss_feeds (snd (remove_feed url d))) -> f_url g <> url.
Proof.
  intros Hok g Hg. destruct (select_feed_by_url url d) as [f|] eqn:Hsel.
  - rewrite (remove_feed_present _ _ _ Hsel) in Hg. simpl in Hg.
    apply filter_In in Hg. destruct Hg as [Hg Hne].
    apply negb_true_iff, Nat.eqb_neq in Hne. intros Hu. apply Hne.
    destruct (select_feed_by_url_some _ _ _ Hsel) as [Hf Hfu]. f_equal.
    apply (feed_of_url_unique d); try assumption;
      [apply (feed_urls_unique _ Hok)|congruence].
  - pose proof (proj1 (select_feed_by_url_none url d) Hsel) as Hnone.
    rewrite (remove_feed_absent _ _ Hnone) in Hg. now apply Hnone.
Qed.

Lemma add_feed_fresh url name d :
  (forall g, In g (rss_feeds d) -> f_url g <> url) ->
  add_feed url name d
  = mkDB (rss_feeds d ++ [mkFeed (S (rss_feeds_seq d)) url name None])
         (sent_posts d) (S (rss_feeds_seq d)) (sent_posts_seq d).
Proof.
  intros H. unfold add_feed.
  now rewrite (proj2 (select_feed_by_url_none url d) H).
Qed.




(** X5.  In a store that satisfies the schema, removing the same url a
    second time answers [False] and changes nothing. *)
Theorem remove_feed_twice : forall url d,
  schema_ok d ->
  remove_feed url (snd (remove_feed url d)) = (false, snd (remove_feed url d)).
Proof.
  intros url d Hok. apply remove_feed_absent. now apply remove_feed_url_gone.
Qed.

Lemma remove_feed_twice_witness :
  remove_feed Samples.news_url (snd (remove_feed Samples.news_url Samples.store_two_feeds))
  = (false, snd (remove_feed Samples.news_url Samples.store_two_feeds)).
Proof.
  apply remove_feed_twice. apply (schema_ok_exec _ start), schema_ok_empty.
Defined.

(** X6.  A feed that is removed and added again starts afresh: the new row
    has an id larger than the removed one (ids are not reused), the new
    name and no [last_check]. *)
Theorem readded_feed_is_new : forall url name d f,
  schema_ok d ->
  select_feed_by_url url d = Some f ->
  exists g,
    select_feed_by_url url (add_feed url name (snd (remove_feed url d))) = Some g
    /\ f_id f < f_id g /\ f_name g = name /\ f_last_check g = None
    /\ forall sp, In sp (sent_posts (add_feed url name (snd (remove_feed url d))))
                  -> sp_feed_id sp <> f_id f.
Proof.
  intros url name d f Hok Hsel.
  destruct (select_feed_by_url_some _ _ _ Hsel) as [Hin Hu].
  pose proof (remove_feed_url_gone url d Hok) as Hgone.
  pose proof (schema_ok_add_feed url name _ (schema_ok_remove_feed url d Hok)) as Hok2.
  rewrite (add_feed_fresh url name _ Hgone) in *.
  rewrite (remove_feed_present _ _ _ Hsel) in *. cbn [snd] in *.
  exists (mkFeed (S (rss_feeds_seq d)) url name None).
  split; [|split; [|split; [reflexivity|split; [reflexivity|]]]].
  - apply select_feed_by_url_unique; [apply (feed_urls_unique _ Hok2)| |reflexivity].
    simpl. apply in_app_iff. right. now left.
  - pose proof (feed_ids_issued _ Hok f Hin). simpl. lia.
  - simpl. intros sp Hsp. apply filter_In in Hsp. destruct Hsp as [_ Hne].
    now apply negb_true_iff, Nat.eqb_neq in Hne.
Qed.

Lemma readded_feed_is_new_witness :
  exists g,
    select_feed_by_url Samples.news_url
      (add_feed Samples.news_url "News, again"
         (snd (remove_feed Samples.news_url Samples.store_two_feeds))) = Some g
    /\ 1 < f_id g.
Proof.
  assert (Hok : schema_ok Samples.store_two_feeds)
    by (apply (schema_ok_exec _ start), schema_ok_empty).
  destruct (readded_feed_is_new Samples.news_url "News, again" Samples.store_two_feeds
              (mkFeed 1 Samples.news_url "News" None) Hok eq_refl)
    as [g [Hg [Hid _]]].
  exists g. split; [exact Hg|exact Hid].
Defined.

(** X7.  Starting from the fresh database, after any sequence of store
    operations and iterations of the loop no two feeds share a url, no two
    feeds share an id, and every feed id has been issued by the counter. *)
Theorem feeds_stay_unique : forall ops,
  let d := db (fst (exec ops start)) in
  NoDup (map f_url (rss_feeds d))
  /\ NoDup (map f_id (rss_feeds d))
  /\ (forall f, In f (rss_feeds d) -> 1 <= f_id f <= rss_feeds_seq d).
Proof.
  intros ops d.
  assert (Hinv : forall ops st,
             schema_ok (db st) /\ (forall f, In f (rss_feeds (db st)) -> 1 <= f_id f) ->
             forall f, In f (rss_feeds (db (fst (exec ops st)))) -> 1 <= f_id f).
  { clear. induction ops as [|o ops IH]; intros st [Hok Hpos]; [exact Hpos|].
    rewrite exec_cons. simpl. apply IH. split; [now apply schema_ok_exec_op|].
    intros f Hf.
    pose proof (feed_ids_issued _ (schema_ok_exec_op o st Hok)) as Hle.
    destruct (Nat.eq_dec (f_id f) 0) as [Hz|Hz]; [|lia]. exfalso.
    assert (Hkeep : forall g, In g (rss_feeds (db (fst (exec_op o st)))) ->
                      f_id g = 0 -> exists g', In g' (rss_feeds (db st)) /\ f_id g' = 0).
    { intros g Hg Hg0. destruct o; simpl in Hg.
      - unfold add_feed in Hg.
        destruct (select_feed_by_url url (db st)); [now exists g|].
        simpl in Hg. apply in_app_iff in Hg. destruct Hg as [Hg|[<-|[]]];
          [now exists g|discriminate].
      - unfold remove_feed in Hg.
        destruct (select_feed_by_url url (db st)); simpl in Hg; [|now exists g].
        apply filter_In in Hg. exists g. tauto.
      - now exists g.
      - apply in_map_iff in Hg. destruct Hg as [g' [Hg' Hin]]. exists g'.
        split; [exact Hin|]. destruct (Nat.eqb (f_id g') feed_id); now subst.
      - destruct (mark_post_sent feed_id post_url (clock st) (db st)) eqn:E;
          simpl in Hg; [|now exists g].
        unfold mark_post_sent in E.
        destruct (is_post_sent post_url (db st)); [discriminate|].
        injection E as <-. now exists g.
      - assert (Hid : map f_id (rss_feeds (db (fst (cycle w st))))
                      = map f_id (rss_feeds (db st))).
        { apply (cycle_inv w (fun s _ => map f_id (rss_feeds (db s))
                                         = map f_id (rss_feeds (db st))))
            with (h := []); try (intros; assumption); try reflexivity.
          - intros f0 p s h H.
            now destruct (process_post_outcome w f0 p s).
          - intros fid s h H. simpl. now rewrite map_update_check_id. }
        assert (Hin0 : In 0 (map f_id (rss_feeds (db st)))).
        { rewrite <- Hid, <- Hg0. now apply in_map. }
        apply in_map_iff in Hin0. destruct Hin0 as [g' [H0 Hin0]]. now exists g'. }
    destruct (Hkeep f Hf Hz) as [g' [Hg' Hg0]].
    specialize (Hpos g' Hg'). lia. }
  assert (Hok : schema_ok d) by (apply schema_ok_exec, schema_ok_empty).
  split; [apply (feed_urls_unique _ Hok)|]. split; [apply (feed_ids_unique _ Hok)|].
  intros f Hf. split.
  - apply (Hinv ops start); [|exact Hf]. split; [apply schema_ok_empty|intros g []].
  - now apply (feed_ids_issued _ Hok).
Qed.

(* ================================================================== *)
(** ** More on the fetcher *)
(* ================================================================== *)

Lemma nth_error_build_posts lib0 es : forall i k,
  nth_error (build_posts lib0 i es) k
  = option_map (build_post lib0 (i + k)) (nth_error es k).
Proof.
  induction es as [|e es IH]; intros i k.
  - now destruct k.
  - destruct k as [|k]; simpl.
    + now rewrite Nat.add_0_r.
    + rewrite IH. now rewrite Nat.add_succ_r.
Qed.

Lemma length_build_posts lib0 es : forall i,
  List.length (build_posts lib0 i es) = List.length es.
Proof. induction es as [|e es IH]; intros i; simpl; [reflexivity|now rewrite IH]. Qed.

Lemma nth_error_first {A} (n : nat) : forall (l : list A) k,
  k < n -> nth_error (firstn n l) k = nth_error l k.
Proof.
  induction n as [|n IH]; intros l k Hk; [lia|].
  destruct l as [|a l]; [reflexivity|]. destruct k as [|k]; [reflexivity|].
  simpl. apply IH. lia.
Qed.

Lemma in_first {A} (x : A) (n : nat) : forall l, In x (firstn n l) -> In x l.
Proof.
  induction n as [|n IH]; intros l; [intros []|].
  destruct l as [|a l]; [intros []|]. simpl.
  intros [->|H]; [now left|right; now apply IH].
Qed.

Lemma in_build_posts lib0 p es : forall i,
  In p (build_posts lib0 i es) -> exists k e, In e es /\ p = build_post lib0 k e.
Proof.
  induction es as [|e es IH]; intros i; simpl; [intros []|].
  intros [<-|Hin].
  - exists i, e. split; [now left|reflexivity].
  - destruct (IH _ Hin) as [k [e' [He' Hp]]]. exists k, e'. split; [now right|exact Hp].
Qed.

(** What a successful fetch returns is cut from one parsed feed, none of
    whose entries made the loop raise. *)
Lemma fetch_feed_some lib0 url posts :
  fetch_feed lib0 url = Some posts ->
  exists feed,
    (feedparser_parse lib0 url Utf8 = Some feed
     \/ feedparser_parse lib0 url Ascii7 = Some feed)
    /\ existsb (entry_raises lib0) (entries feed) = false
    /\ posts = firstn 10 (build_posts lib0 0 (entries feed)).
Proof.
  unfold fetch_feed.
  destruct (feedparser_parse lib0 url Utf8) as [f0|] eqn:E0; [|discriminate].
  destruct (bozo f0 && is_unicode_encode_error (bozo_exception f0)).
  - destruct (feedparser_parse lib0 url Ascii7) as [f1|] eqn:E1; [|discriminate].
    destruct (bozo f1 && negb (is_unicode_encode_error (bozo_exception f1)));
      [discriminate|].
    destruct (existsb (entry_raises lib0) (entries f1)) eqn:R; [discriminate|].
    intros H. injection H as <-. exists f1. split; [now right|now split].
  - destruct (bozo f0 && negb (is_unicode_encode_error (bozo_exception f0)));
      [discriminate|].
    destruct (existsb (entry_raises lib0) (entries f0)) eqn:R; [discriminate|].
    intros H. injection H as <-. exists f0. split; [now left|now split].
Qed.

Lemma fetch_feed_length lib0 url posts :
  fetch_feed lib0 url = Some posts -> List.length posts <= 10.
Proof.
  intros H. destruct (fetch_feed_some _ _ _ H) as [feed [_ [_ ->]]].
  rewrite length_firstn. lia.
Qed.

(** X8.  A successful fetch returns at most 10 posts: as many as the parsed
    feed has entries, up to 10, and the post at each position is built
    from the entry at the same position (the feed's order is kept, later
    entries are dropped). *)
Theorem fetch_feed_first_ten : forall lib0 url posts,
  fetch_feed lib0 url = Some posts ->
  List.length posts <= 10
  /\ exists feed,
       (feedparser_parse lib0 url Utf8 = Some feed
        \/ feedparser_parse lib0 url Ascii7 = Some feed)
       /\ List.length posts = Nat.min 10 (List.length (entries feed))
       /\ forall k, k < List.length posts ->
            nth_error posts k
            = option_map (build_post lib0 k) (nth_error (entries feed) k).
Proof.
  intros lib0 url posts H.
  destruct (fetch_feed_some _ _ _ H) as [feed [Hfeed [_ ->]]].
  rewrite length_firstn, length_build_posts. split; [lia|].
  exists feed. split; [exact Hfeed|]. split; [reflexivity|].
  intros k Hk. rewrite nth_error_first by lia.
  now rewrite nth_error_build_posts.
Qed.

Lemma fetch_feed_first_ten_witness :
  List.length
    (match fetch_feed (Samples.lib_news (repeat Samples.entry_a 12)) Samples.news_url with
     | Some ps => ps
     | None => []
     end) <= 10.
Proof.
  destruct (fetch_feed (Samples.lib_news (repeat Samples.entry_a 12)) Samples.news_url)
    as [ps|] eqn:E.
  - exact (proj1 (fetch_feed_first_ten _ _ _ E)).
  - simpl. lia.
Defined.

Lemma fetch_feed_unflagged lib0 url f0 :
  feedparser_parse lib0 url Utf8 = Some f0 -> bozo f0 = false ->
  fetch_feed lib0 url
  = if existsb (entry_raises lib0) (entries f0) then None
    else Some (firstn 10 (build_posts lib0 0 (entries f0))).
Proof.
  intros E B. unfold fetch_feed. rewrite E, B. cbn [andb]. now rewrite B.
Qed.

Lemma fetch_feed_flagged lib0 url f0 :
  feedparser_parse lib0 url Utf8 = Some f0 ->
  bozo f0 = true -> bozo_exception f0 = OtherException ->
  fetch_feed lib0 url = None.
Proof.
  intros E B X. unfold fetch_feed. rewrite E, B, X.
  cbn [andb is_unicode_encode_error]. now rewrite B, X.
Qed.

Lemma fetch_feed_retried lib0 url f0 :
  feedparser_parse lib0 url Utf8 = Some f0 ->
  bozo f0 = true -> bozo_exception f0 = UnicodeEncodeError ->
  fetch_feed lib0 url
  = match feedparser_parse lib0 url Ascii7 with
    | None => None
    | Some f1 =>
        if bozo f1 && negb (is_unicode_encode_error (bozo_exception f1)) then None
        else if existsb (entry_raises lib0) (entries f1) then None
        else Some (firstn 10 (build_posts lib0 0 (entries f1)))
    end.
Proof.
  intros E B X. unfold fetch_feed. rewrite E, B, X. reflexivity.
Qed.

Lemma some_entry_raises lib0 es :
  existsb (entry_raises lib0) es = true <->
  exists e, In e es
    /\ get (e_description e) EmptyString <> EmptyString
    /\ soup_raises lib0 (get (e_description e) EmptyString) = true.
Proof.
  rewrite existsb_exists. unfold entry_raises. split.
  - intros [e [Hin H]]. apply andb_true_iff in H. destruct H as [Ht Hr].
    exists e. split; [exact Hin|]. split; [now apply truthy_true|exact Hr].
  - intros [e [Hin [Ht Hr]]]. exists e. split; [exact Hin|].
    apply andb_true_iff. split; [now apply truthy_true|exact Hr].
Qed.

(** X9.  [fetch_feed] returns [None] in exactly four cases: the parse
    raises; the parse flags an error that is not a [UnicodeEncodeError];
    the parse flags a [UnicodeEncodeError] and the second parse, with the
    ASCII header, raises or flags an error of another kind; or the feed
    that passed these checks has an entry, at any position, with a
    non-empty description on which BeautifulSoup raises.  When no entry
    makes BeautifulSoup raise, a parse without flag is used as it is,
    without a second parse, and after a [UnicodeEncodeError] the second
    parse is used, also when it flags a [UnicodeEncodeError] again. *)
Theorem fetch_feed_outcome : forall lib0 url,
  (fetch_feed lib0 url = None <->
     feedparser_parse lib0 url Utf8 = None
     \/ (exists f0, feedparser_parse lib0 url Utf8 = Some f0
           /\ bozo f0 = true /\ bozo_exception f0 = OtherException)
     \/ (exists f0, feedparser_parse lib0 url Utf8 = Some f0
           /\ bozo f0 = true /\ bozo_exception f0 = UnicodeEncodeError
           /\ (feedparser_parse lib0 url Ascii7 = None
               \/ exists f1, feedparser_parse lib0 url Ascii7 = Some f1
                    /\ bozo f1 = true /\ bozo_exception f1 = OtherException))
     \/ (exists feed e,
           ((feedparser_parse lib0 url Utf8 = Some feed /\ bozo feed = false)
            \/ (exists f0, feedparser_parse lib0 url Utf8 = Some f0
                  /\ bozo f0 = true /\ bozo_exception f0 = UnicodeEncodeError
                  /\ feedparser_parse lib0 url Ascii7 = Some feed
                  /\ (bozo feed = false \/ bozo_exception feed = UnicodeEncodeError)))
           /\ In e (entries feed)
           /\ get (e_description e) EmptyString <> EmptyString
           /\ soup_raises lib0 (get (e_description e) EmptyString) = true))
  /\ (forall f0, feedparser_parse lib0 url Utf8 = Some f0 -> bozo f0 = false ->
        existsb (entry_raises lib0) (entries f0) = false ->
        fetch_feed lib0 url = Some (firstn 10 (build_posts lib0 0 (entries f0))))
  /\ (forall f0 f1,
        feedparser_parse lib0 url Utf8 = Some f0 ->
        bozo f0 = true -> bozo_exception f0 = UnicodeEncodeError ->
        feedparser_parse lib0 url Ascii7 = Some f1 ->
        bozo f1 = false \/ bozo_exception f1 = UnicodeEncodeError ->
        existsb (entry_raises lib0) (entries f1) = false ->
        fetch_feed lib0 url = Some (firstn 10 (build_posts lib0 0 (entries f1)))).
Proof.
  intros lib0 url.
  assert (Hpass : forall f1, bozo f1 = false \/ bozo_exception f1 = UnicodeEncodeError ->
                    bozo f1 && negb (is_unicode_encode_error (bozo_exception f1)) = false).
  { intros f1 [-> | ->]; [reflexivity|]. cbn [is_unicode_encode_error negb].
    apply andb_false_r. }
  split; [split|split].
  - (* a failed fetch has one of the four causes *)
    intros Hnone.
    destruct (feedparser_parse lib0 url Utf8) as [f0|] eqn:E0; [|now left].
    destruct (bozo f0) eqn:B0.
    + destruct (bozo_exception f0) eqn:X0.
      * rewrite (fetch_feed_retried _ _ _ E0 B0 X0) in Hnone.
        destruct (feedparser_parse lib0 url Ascii7) as [f1|] eqn:E1.
        2:{ right. right. left. exists f0. repeat split; try assumption. now left. }
        destruct (bozo f1) eqn:B1; destruct (bozo_exception f1) eqn:X1;
          cbn [andb negb is_unicode_encode_error] in Hnone.
        -- destruct (existsb (entry_raises lib0) (entries f1)) eqn:R; [|discriminate].
           apply some_entry_raises in R. destruct R as [e [Hin [Ht Hr]]].
           right. right. right. exists f1, e. split; [|now repeat split].
           right. exists f0. repeat split; try assumption. now right.
        -- right. right. left. exists f0. repeat split; try assumption.
           right. now exists f1.
        -- destruct (existsb (entry_raises lib0) (entries f1)) eqn:R; [|discriminate].
           apply some_entry_raises in R. destruct R as [e [Hin [Ht Hr]]].
           right. right. right. exists f1, e. split; [|now repeat split].
           right. exists f0. repeat split; try assumption. now left.
        -- destruct (existsb (entry_raises lib0) (entries f1)) eqn:R; [|discriminate].
           apply some_entry_raises in R. destruct R as [e [Hin [Ht Hr]]].
           right. right. right. exists f1, e. split; [|now repeat split].
           right. exists f0. repeat split; try assumption. now left.
      * right. left. now exists f0.
    + rewrite (fetch_feed_unflagged _ _ _ E0 B0) in Hnone.
      destruct (existsb (entry_raises lib0) (entries f0)) eqn:R; [|discriminate].
      apply some_entry_raises in R. destruct R as [e [Hin [Ht Hr]]].
      right. right. right. exists f0, e. split; [now left|now repeat split].
  - (* each of the four causes makes the fetch fail *)
    intros [H|[[f0 [E0 [B0 X0]]]|[[f0 [E0 [B0 [X0 H]]]]|[feed [e [Hfeed Hraise]]]]]].
    + unfold fetch_feed. now rewrite H.
    + exact (fetch_feed_flagged _ _ _ E0 B0 X0).
    + rewrite (fetch_feed_retried _ _ _ E0 B0 X0).
      destruct H as [->|[f1 [-> [B1 X1]]]]; [reflexivity|]. now rewrite B1, X1.
    + assert (R : existsb (entry_raises lib0) (entries feed) = true).
      { apply some_entry_raises. now exists e. }
      destruct Hfeed as [[E0 B0]|[f0 [E0 [B0 [X0 [E1 Hok]]]]]].
      * now rewrite (fetch_feed_unflagged _ _ _ E0 B0), R.
      * rewrite (fetch_feed_retried _ _ _ E0 B0 X0), E1, (Hpass _ Hok). now rewrite R.
  - intros f0 E0 B0 R. now rewrite (fetch_feed_unflagged _ _ _ E0 B0), R.
  - intros f0 f1 E0 B0 X0 E1 Hok R.
    rewrite (fetch_feed_retried _ _ _ E0 B0 X0), E1, (Hpass _ Hok). now rewrite R.
Qed.

(** A feed with a sixth entry on which BeautifulSoup raises. *)
Lemma fetch_feed_outcome_witness :
  fetch_feed (lib Samples.world_unreachable) Samples.news_url = None
  /\ fetch_feed (Samples.lib_news [Samples.entry_a]) Samples.news_url
     = Some [build_post (Samples.lib_news [Samples.entry_a]) 0 Samples.entry_a]
  /\ fetch_feed (mkLibrary (Samples.news_only [Samples.entry_a; Samples.entry_b])
                           (Samples.strip_markup false)
                           (fun d => String.eqb d "second")
                           (fun _ => "2024-05-02T10:00:00"))
                Samples.news_url = None.
Proof.
  destruct (fetch_feed_outcome (lib Samples.world_unreachable) Samples.news_url)
    as [Hnone _].
  destruct (fetch_feed_outcome (Samples.lib_news [Samples.entry_a]) Samples.news_url)
    as [_ [Hplain _]].
  destruct (fetch_feed_outcome
              (mkLibrary (Samples.news_only [Samples.entry_a; Samples.entry_b])
                         (Samples.strip_markup false)
                         (fun d => String.eqb d "second")
                         (fun _ => "2024-05-02T10:00:00"))
              Samples.news_url) as [Hraise _].
  split; [|split].
  - apply Hnone. now left.
  - exact (Hplain (Samples.feed_of [Samples.entry_a]) eq_refl eq_refl eq_refl).
  - apply Hraise. right. right. right.
    exists (Samples.feed_of [Samples.entry_a; Samples.entry_b]), Samples.entry_b.
    split; [left; now split|]. split; [right; now left|]. split; [discriminate|reflexivity].
Defined.

(** X10.  Every post of a successful fetch has a description of at most
    503 characters and only non-empty tags. *)
Theorem fetched_posts_bounded : forall lib0 url posts p,
  fetch_feed lib0 url = Some posts ->
  In p posts ->
  String.length (description p) <= 503
  /\ forall t, In t (tags p) -> t <> EmptyString.
Proof.
  intros lib0 url posts p H Hin.
  destruct (fetch_feed_some _ _ _ H) as [feed [_ [_ ->]]].
  apply in_first in Hin. apply in_build_posts in Hin.
  destruct Hin as [k [e [_ ->]]]. simpl. split.
  - unfold clean_description.
    destruct (truthy (get (e_description e) EmptyString)) eqn:T.
    + destruct (Nat.ltb 500 (String.length (soup_get_text lib0 _))) eqn:L.
      * apply Nat.ltb_lt in L. rewrite length_append.
        rewrite (proj1 (slice_to_prefix 500 _ (Nat.lt_le_incl _ _ L))). simpl. lia.
      * apply Nat.ltb_ge in L. lia.
    + apply truthy_false in T. rewrite T. simpl. lia.
  - intros t Ht. apply filter_In in Ht. destruct Ht as [_ Ht].
    now apply truthy_true.
Qed.

Lemma fetched_posts_bounded_witness :
  String.length
    (description (build_post (Samples.lib_news [Samples.long_entry]) 0
                    Samples.long_entry)) <= 503.
Proof.
  apply (fetched_posts_bounded (Samples.lib_news [Samples.long_entry]) Samples.news_url
           [build_post (Samples.lib_news [Samples.long_entry]) 0 Samples.long_entry]).
  - reflexivity.
  - now left.
Defined.

(* ================================================================== *)
(** ** More on the formatter *)
(* ================================================================== *)

Lemma chars_append (a b : string) :
  list_ascii_of_string (a ++ b)%string
  = list_ascii_of_string a ++ list_ascii_of_string b.
Proof. induction a as [|c a IH]; simpl; [reflexivity|now rewrite IH]. Qed.

Lemma replace_without old new s :
  ~ In old (list_ascii_of_string s) -> replace old new s = s.
Proof.
  induction s as [|c s IH]; simpl; intros H; [reflexivity|].
  destruct (Ascii.eqb c old) eqn:E.
  - apply Ascii.eqb_eq in E. exfalso. apply H. now left.
  - rewrite IH; [reflexivity|]. intros Hc. apply H. now right.
Qed.

Lemma replace_clears old new s :
  ~ In old (list_ascii_of_string new) ->
  ~ In old (list_ascii_of_string (replace old new s)).
Proof.
  intros Hnew. induction s as [|c s IH]; simpl; [intros []|].
  destruct (Ascii.eqb c old) eqn:E.
  - rewrite chars_append. intros Hc. apply in_app_iff in Hc. tauto.
  - simpl. intros [Hc|Hc]; [|tauto].
    apply Ascii.eqb_neq in E. congruence.
Qed.

(** X11.  The link stands in the message between the double quotes of the
    [href] attribute with each of its own double quotes replaced by
    "&quot;": what stands between the two quotes holds no double quote, and
    a link without double quote stands there unchanged. *)
Theorem link_quotes_escaped : forall post feed_name,
  let href := replace dquote "&quot;" (link post) in
  ~ In dquote (list_ascii_of_string href)
  /\ (~ In dquote (list_ascii_of_string (link post)) -> href = link post)
  /\ exists before after,
       format_telegram_message post feed_name
       = (before ++ "<a href=" ++ String dquote (href ++ String dquote after))%string.
Proof.
  intros post feed_name href. split; [|split].
  - apply replace_clears. simpl.
    intros H. repeat (destruct H as [H|H]; [discriminate H|]). exact H.
  - intros H. now apply replace_without.
  - exists (replace ">" "&gt;" (replace "<" "&lt;" (replace "&" "&amp;" (title post)))
            ++ newline ++ newline)%string,
           (">" ++ link_label ++ "</a>" ++ newline ++ newline ++
            replace ">" "&gt;"
              (replace "<" "&lt;" (replace "&" "&amp;" (description post)))
            ++ newline ++ newline ++ "<i>Feed: " ++ feed_name ++ "</i>" ++ newline)%string.
    unfold format_telegram_message. fold href.
    rewrite !append_assoc. reflexivity.
Qed.

Lemma link_quotes_escaped_witness :
  replace dquote "&quot;" (link Samples.markup_post) = link Samples.markup_post.
Proof.
  apply (link_quotes_escaped Samples.markup_post "News"). simpl.
  intros H. repeat (destruct H as [H|H]; [discriminate H|]). exact H.
Defined.

Lemma html_escape_plain s : has_markup_char s = false -> html_escape s = s.
Proof.
  induction s as [|c s IH]; simpl; [reflexivity|]. intros H.
  apply orb_false_iff in H. destruct H as [H Hs].
  apply orb_false_iff in H. destruct H as [H Hgt].
  apply orb_false_iff in H. destruct H as [Hamp Hlt].
  unfold escape_char. rewrite Hamp, Hlt, Hgt. simpl. now rewrite IH.
Qed.

Lemma html_escape_injective : forall s1 s2,
  html_escape s1 = html_escape s2 -> s1 = s2.
Proof.
  induction s1 as [|c1 s1 IH]; intros s2 H.
  - destruct s2 as [|c2 s2]; [reflexivity|]. simpl in H. unfold escape_char in H.
    destruct (Ascii.eqb c2 "&"); [discriminate|].
    destruct (Ascii.eqb c2 "<"); [discriminate|].
    destruct (Ascii.eqb c2 ">"); discriminate.
  - destruct s2 as [|c2 s2].
    + simpl in H. unfold escape_char in H.
      destruct (Ascii.eqb c1 "&"); [discriminate|].
      destruct (Ascii.eqb c1 "<"); [discriminate|].
      destruct (Ascii.eqb c1 ">"); discriminate.
    + simpl in H. unfold escape_char in H.
      destruct (Ascii.eqb c1 "&") eqn:A1; [apply Ascii.eqb_eq in A1|];
      [|destruct (Ascii.eqb c1 "<") eqn:L1; [apply Ascii.eqb_eq in L1|];
        [|destruct (Ascii.eqb c1 ">") eqn:G1; [apply Ascii.eqb_eq in G1|]]];
      (destruct (Ascii.eqb c2 "&") eqn:A2; [apply Ascii.eqb_eq in A2|];
       [|destruct (Ascii.eqb c2 "<") eqn:L2; [apply Ascii.eqb_eq in L2|];
         [|destruct (Ascii.eqb c2 ">") eqn:G2; [apply Ascii.eqb_eq in G2|]]]);
      simpl in H; subst; try discriminate H;
      try (injection H as H; f_equal; now apply IH);
      try (injection H as Hc H; subst;
           try (rewrite Ascii.eqb_refl in *; discriminate);
           f_equal; now apply IH).
Qed.

(** X12.  The escaping of title and description loses nothing: two texts
    that the three chained [replace] calls turn into the same text are
    equal. *)
Theorem escaping_is_injective : forall s1 s2,
  replace ">" "&gt;" (replace "<" "&lt;" (replace "&" "&amp;" s1))
  = replace ">" "&gt;" (replace "<" "&lt;" (replace "&" "&amp;" s2)) ->
  s1 = s2.
Proof.
  intros s1 s2. rewrite !replace_chain_html_escape. apply html_escape_injective.
Qed.

Lemma escaping_is_injective_witness :
  "a<b" = String "a" (String "<" (String "b" EmptyString)).
Proof. apply escaping_is_injective. reflexivity. Defined.

(** X13.  A post whose title and description hold none of "&", "<", ">"
    and whose link holds no double quote is laid out with all three
    exactly as they are. *)
Theorem plain_post_unchanged : forall post feed_name,
  has_markup_char (title post) = false ->
  has_markup_char (description post) = false ->
  ~ In dquote (list_ascii_of_string (link post)) ->
  format_telegram_message post feed_name
  = (title post ++ newline ++ newline ++
     "<a href=" ++ String dquote (link post) ++ String dquote ">" ++ link_label
       ++ "</a>" ++ newline ++ newline ++
     description post ++ newline ++ newline ++
     "<i>Feed: " ++ feed_name ++ "</i>" ++ newline)%string.
Proof.
  intros post feed_name Ht Hd Hl. unfold format_telegram_message.
  rewrite !replace_chain_html_escape.
  rewrite (html_escape_plain _ Ht), (html_escape_plain _ Hd).
  now rewrite (replace_without _ _ _ Hl).
Qed.

Lemma plain_post_unchanged_witness :
  exists rest,
    format_telegram_message (build_post Samples.plain_lib 0 Samples.entry_a) "News"
    = ("A title" ++ rest)%string.
Proof.
  eexists. rewrite plain_post_unchanged.
  - reflexivity.
  - reflexivity.
  - reflexivity.
  - simpl. intros H. repeat (destruct H as [H|H]; [discriminate H|]). exact H.
Defined.

(* ================================================================== *)
(** ** More on the polling loop *)
(* ================================================================== *)

Lemma count_marks_app u a b : count_marks u (a ++ b) = count_marks u a + count_marks u b.
Proof. unfold count_marks. now rewrite filter_app, length_app. Qed.

Lemma marked_count u h : marked u h = negb (Nat.eqb (count_marks u h) 0).
Proof.
  unfold marked, count_marks. induction h as [|e h IH]; simpl; [reflexivity|].
  destruct (is_mark_of u e); simpl; [reflexivity|exact IH].
Qed.

Lemma recorded_once_neutral u st0 st st' h e :
  is_post_sent u (db st') = is_post_sent u (db st) ->
  is_mark_of u e = false ->
  recorded_once u st0 st h -> recorded_once u st0 st' (h ++ [e]).
Proof.
  intros Hdb He [Hg [Hle H0]]. split; [now apply (ledger_grown_neutral u st0 st)|].
  assert (Hc : count_marks u [e] = 0) by (unfold count_marks; simpl; now rewrite He).
  rewrite count_marks_app, Hc, Nat.add_0_r. split; [exact Hle|exact H0].
Qed.

Lemma recorded_once_cycle w u st0 st h :
  recorded_once u st0 st h ->
  recorded_once u st0 (fst (cycle w st)) (h ++ snd (cycle w st)).
Proof.
  apply (cycle_inv w (recorded_once u st0)).
  - intros f p s h' [Hg [Hle H0]].
    split; [now apply ledger_grown_post|].
    rewrite count_marks_app.
    destruct (process_post_outcome w f p s) as [Hs|Hs Hk|Hs Hk].
    + change (count_marks u [EvIsPostSent (link p) true]) with 0.
      rewrite Nat.add_0_r. now split.
    + change (count_marks u [EvIsPostSent (link p) false;
                             EvSend (format_telegram_message p (f_name f)) false;
                             EvLogError]) with 0.
      rewrite Nat.add_0_r. now split.
    + change (count_marks u [EvIsPostSent (link p) false;
                             EvSend (format_telegram_message p (f_name f)) true;
                             EvMarkPostSent (f_id f) (link p) true; EvSleep 2])
        with (List.length (if String.eqb (link p) u
                           then [EvMarkPostSent (f_id f) (link p) true] else [])).
      destruct (String.eqb (link p) u) eqn:E; simpl.
      * apply String.eqb_eq in E. subst u. unfold ledger_grown in Hg.
        rewrite Hs in Hg. symmetry in Hg. apply orb_false_iff in Hg.
        destruct Hg as [Hst0 Hm]. rewrite marked_count in Hm.
        apply negb_false_iff, Nat.eqb_eq in Hm. rewrite Hm. split; [lia|].
        intros H. congruence.
      * rewrite Nat.add_0_r. now split.
  - intros url ok s h'. now apply recorded_once_neutral.
  - intros fid s h'. now apply recorded_once_neutral.
  - intros s h'. now apply recorded_once_neutral.
Qed.

Lemma quiet_no_marks u h : quiet u h -> count_marks u h = 0.
Proof.
  intros [_ [Hnone _]]. unfold count_marks.
  destruct (filter (is_mark_of u) h) as [|e l] eqn:E; [reflexivity|].
  exfalso. assert (He : In e (filter (is_mark_of u) h)) by (rewrite E; now left).
  apply filter_In in He. destruct He as [Hin Hm].
  destruct e; try discriminate Hm. destruct ok; [|discriminate Hm].
  simpl in Hm. apply String.eqb_eq in Hm. subst post_url.
  exact (Hnone _ _ Hin).
Qed.

(** One step of a run records a url at most once, and then the url is in
    the ledger after the step. *)
Lemma recorded_once_exec_op u o st :
  is_post_sent u (db st) = false ->
  count_marks u (snd (exec_op o st)) <= 1
  /\ (count_marks u (snd (exec_op o st)) = 1 ->
      is_post_sent u (db (fst (exec_op o st))) = true).
Proof.
  intros Hu.
  assert (Hnil : count_marks u [] <= 1 /\ (count_marks u [] = 1 -> False)).
  { unfold count_marks. simpl. split; [lia|discriminate]. }
  destruct o; cbn [exec_op];
    try (cbn [snd]; split; [apply Hnil|intros H; now apply Hnil in H]).
  - destruct (mark_post_sent feed_id post_url (clock st) (db st)); cbn [snd];
      (split; [apply Hnil|intros H; now apply Hnil in H]).
  - destruct (recorded_once_cycle w u st st []) as [Hg [Hle _]].
    + split; [|split]; [|unfold count_marks; simpl; lia|reflexivity].
      unfold ledger_grown. simpl. now rewrite orb_false_r.
    + simpl in Hg, Hle. split; [exact Hle|]. intros H1.
      unfold ledger_grown in Hg. rewrite Hg, marked_count, H1. apply orb_true_r.
Qed.

(** X14.  Over any run of iterations of the loop and store operations in
    which no [remove_feed] deletes a ledger row of the url, whatever the
    feeds return and whatever the sink does, [mark_post_sent] succeeds in
    the loop at most once for that url, and never when the url was in the
    ledger at the start of the run. *)
Theorem link_recorded_at_most_once : forall ops st u,
  row_survives u ops st = true ->
  count_marks u (snd (exec ops st)) <= 1
  /\ (is_post_sent u (db st) = true -> count_marks u (snd (exec ops st)) = 0).
Proof.
  intros ops st u Hrow.
  assert (Hsent : forall ops s,
             is_post_sent u (db s) = true -> row_survives u ops s = true ->
             count_marks u (snd (exec ops s)) = 0).
  { intros ops0 s Hs Hr. apply quiet_no_marks.
    now destruct (stays_sent_exec u ops0 s Hs Hr). }
  split; [|intros Hu; now apply Hsent].
  revert st Hrow. induction ops as [|o ops IH]; intros st Hrow.
  - unfold count_marks. simpl. lia.
  - destruct (is_post_sent u (db st)) eqn:Hu.
    { rewrite (Hsent (o :: ops) st Hu Hrow). lia. }
    simpl in Hrow. apply andb_true_iff in Hrow. destruct Hrow as [_ Hrow].
    rewrite exec_cons. cbn [snd]. rewrite count_marks_app.
    destruct (recorded_once_exec_op u o st Hu) as [Hle Hone].
    specialize (IH _ Hrow).
    destruct (Nat.eq_dec (count_marks u (snd (exec_op o st))) 1) as [E|E].
    + rewrite (Hsent ops _ (Hone E) Hrow). lia.
    + lia.
Qed.

(** Two iterations with a [/removefeed] of a feed that is not configured
    between them. *)
Lemma link_recorded_at_most_once_witness :
  row_survives "http://news.example/a"
    [OpCycle Samples.world_news_ab; OpRemoveFeed Samples.blog_url;
     OpCycle Samples.world_news_ab] Samples.state_news = true
  /\ count_marks "http://news.example/a"
       (snd (exec [OpCycle Samples.world_news_ab; OpRemoveFeed Samples.blog_url;
                   OpCycle Samples.world_news_ab] Samples.state_news)) <= 1.
Proof.
  split; [reflexivity|].
  apply (link_recorded_at_most_once
           [OpCycle Samples.world_news_ab; OpRemoveFeed Samples.blog_url;
            OpCycle Samples.world_news_ab]
           Samples.state_news "http://news.example/a").
  reflexivity.
Defined.



(** X16.  An iteration leaves the list of feeds as it is but for
    [last_check]: same rows in the same order with the same ids, urls and
    names, and the same id counter. *)
Theorem cycle_keeps_feed_list : forall w st,
  map feed_identity (rss_feeds (db (fst (cycle w st))))
  = map feed_identity (rss_feeds (db st))
  /\ rss_feeds_seq (db (fst (cycle w st))) = rss_feeds_seq (db st).
Proof.
  intros w st.
  apply (cycle_inv w (fun s _ =>
           map feed_identity (rss_feeds (db s)) = map feed_identity (rss_feeds (db st))
           /\ rss_feeds_seq (db s) = rss_feeds_seq (db st))) with (h := []).
  - intros f p s h H. now destruct (process_post_outcome w f p s).
  - intros url ok s h H. exact H.
  - intros fid s h [H1 H2]. simpl. split; [|exact H2]. rewrite <- H1.
    rewrite map_map. apply map_ext. intros g. now destruct (Nat.eqb (f_id g) fid).
  - intros s h H. exact H.
  - now split.
Qed.

Lemma count_sends_app a b : count_sends (a ++ b) = count_sends a + count_sends b.
Proof. unfold count_sends. now rewrite filter_app, length_app. Qed.

Lemma process_posts_sends w f ps : forall st,
  count_sends (snd (process_posts w f ps st)) <= List.length ps
  /\ sends (fst (process_posts w f ps st))
     = sends st + count_sends (snd (process_posts w f ps st)).
Proof.
  induction ps as [|p ps IH]; intros st; [simpl; unfold count_sends; simpl; lia|].
  rewrite process_posts_cons. cbn [fst snd]. rewrite count_sends_app.
  destruct (IH (fst (process_post w f p st))) as [Hle Hs]. rewrite Hs.
  destruct (process_post_outcome w f p st); unfold count_sends at 1 3;
    simpl; unfold count_sends in *; lia.
Qed.

Lemma process_feed_sends w f st :
  count_sends (snd (process_feed w f st)) <= 10
  /\ sends (fst (process_feed w f st))
     = sends st + count_sends (snd (process_feed w f st)).
Proof.
  destruct (fetch_feed (lib w) (f_url f)) as [[|p ps]|] eqn:Hf.
  - unfold process_feed. rewrite Hf. simpl. unfold count_sends. simpl. lia.
  - rewrite (process_feed_posts w f st (p :: ps) Hf) by discriminate. cbn [fst snd].
    change (EvFetch (f_url f) true
              :: snd (process_posts w f (p :: ps) st) ++ [EvUpdateCheck (f_id f)])
      with ([EvFetch (f_url f) true]
              ++ snd (process_posts w f (p :: ps) st) ++ [EvUpdateCheck (f_id f)]).
    rewrite !count_sends_app.
    change (count_sends [EvFetch (f_url f) true]) with 0.
    change (count_sends [EvUpdateCheck (f_id f)]) with 0.
    destruct (process_posts_sends w f (p :: ps) st) as [Hle Hs].
    pose proof (fetch_feed_length _ _ _ Hf) as Hten.
    cbn [sends]. rewrite Hs. lia.
  - unfold process_feed. rewrite Hf. simpl. unfold count_sends. simpl. lia.
Qed.

(** X17.  An iteration calls the sink at most 10 times per configured
    feed, and at most once per fetched post. *)
Theorem sink_calls_bounded : forall w st,
  count_sends (snd (cycle w st)) <= 10 * List.length (get_all_feeds (db st))
  /\ sends (fst (cycle w st)) = sends st + count_sends (snd (cycle w st)).
Proof.
  intros w st. rewrite cycle_unfold. cbn [fst snd sends]. rewrite count_sends_app.
  change (count_sends [EvSleep 900]) with 0. rewrite Nat.add_0_r.
  generalize (get_all_feeds (db st)) as fs. intros fs. revert st.
  induction fs as [|f fs IH]; intros st.
  - simpl. unfold count_sends. simpl. lia.
  - rewrite process_feeds_cons. cbn [fst snd]. rewrite count_sends_app.
    destruct (process_feed_sends w f st) as [Hle Hs].
    destruct (IH (fst (process_feed w f st))) as [Hle' Hs'].
    rewrite Hs', Hs. simpl List.length. lia.
Qed.

Lemma lookups_app a b : lookups (a ++ b) = lookups a ++ lookups b.
Proof.
  induction a as [|e a IH]; simpl; [reflexivity|].
  destruct e; try exact IH. simpl. now rewrite IH.
Qed.

Lemma process_posts_lookups w f ps : forall st,
  lookups (snd (process_posts w f ps st)) = map link ps.
Proof.
  induction ps as [|p ps IH]; intros st; [reflexivity|].
  rewrite process_posts_cons. cbn [fst snd]. rewrite lookups_app, IH.
  now destruct (process_post_outcome w f p st).
Qed.

Lemma process_feed_lookups w f st :
  lookups (snd (process_feed w f st)) = fetched_links w f.
Proof.
  unfold fetched_links.
  destruct (fetch_feed (lib w) (f_url f)) as [[|p ps]|] eqn:Hf.
  - unfold process_feed. now rewrite Hf.
  - rewrite (process_feed_posts w f st (p :: ps) Hf) by discriminate. cbn [snd].
    change (EvFetch (f_url f) true
              :: snd (process_posts w f (p :: ps) st) ++ [EvUpdateCheck (f_id f)])
      with ([EvFetch (f_url f) true]
              ++ snd (process_posts w f (p :: ps) st) ++ [EvUpdateCheck (f_id f)]).
    rewrite !lookups_app, process_posts_lookups. simpl. now rewrite app_nil_r.
  - unfold process_feed. now rewrite Hf.
Qed.

Lemma process_feeds_lookups w fs : forall st,
  lookups (snd (process_feeds w fs st)) = flat_map (fetched_links w) fs.
Proof.
  induction fs as [|f fs IH]; intros st; [reflexivity|].
  rewrite process_feeds_cons. cbn [fst snd].
  now rewrite lookups_app, IH, process_feed_lookups.
Qed.

(** X18.  In an iteration every post of every fetched feed is looked up in
    the ledger exactly once, feed after feed in the order of the feed list
    and post after post in the order the fetch returned them, whatever
    the sink does to earlier posts. *)
Theorem lookups_in_feed_order : forall w st,
  lookups (snd (cycle w st)) = flat_map (fetched_links w) (get_all_feeds (db st)).
Proof.
  intros w st. rewrite cycle_unfold. cbn [snd].
  rewrite lookups_app, process_feeds_lookups. simpl. now rewrite app_nil_r.
Qed.

(** With a sink that accepts everything, every url an iteration looked up
    is in the ledger when the iteration ends. *)
Lemma looked_up_then_sent w st :
  (forall n t, send_message w n t = true) ->
  forall u, In u (lookups (snd (cycle w st))) ->
            is_post_sent u (db (fst (cycle w st))) = true.
Proof.
  intros Hsink.
  apply (cycle_inv w (fun s h => forall u, In u (lookups h) ->
                                           is_post_sent u (db s) = true))
    with (h := []).
  - intros f p s h H u Hin. rewrite lookups_app in Hin. apply in_app_iff in Hin.
    rewrite ledger_process_post.
    destruct Hin as [Hin|Hin]; [now rewrite (H u Hin)|].
    destruct (process_post_outcome w f p s) as [Hs|Hs Hk|Hs Hk].
    + destruct Hin as [<-|[]]. now rewrite Hs.
    + rewrite Hsink in Hk. discriminate.
    + destruct Hin as [<-|[]]. simpl. now rewrite String.eqb_refl, !orb_true_r.
  - intros url ok s h H u Hin. rewrite lookups_app in Hin. simpl in Hin.
    rewrite app_nil_r in Hin. now apply H.
  - intros fid s h H u Hin. rewrite lookups_app in Hin. simpl in Hin.
    rewrite app_nil_r in Hin. now apply H.
  - intros s h H u Hin. rewrite lookups_app in Hin. simpl in Hin.
    rewrite app_nil_r in Hin. now apply H.
  - intros u [].
Qed.

Lemma process_posts_all_sent w f ps : forall st,
  (forall p, In p ps -> is_post_sent (link p) (db st) = true) ->
  process_posts w f ps st = (st, map (fun p => EvIsPostSent (link p) true) ps).
Proof.
  induction ps as [|p ps IH]; intros st H; [reflexivity|].
  rewrite process_posts_cons.
  assert (Hp : process_post w f p st = (st, [EvIsPostSent (link p) true])).
  { unfold process_post. now rewrite (H p (or_introl eq_refl)). }
  rewrite Hp. cbn [fst snd]. rewrite IH by (intros q Hq; apply H; now right).
  reflexivity.
Qed.

Lemma process_feeds_all_sent w fs : forall st,
  (forall f u, In f fs -> In u (fetched_links w f) -> is_post_sent u (db st) = true) ->
  count_sends (snd (process_feeds w fs st)) = 0
  /\ sent_posts (db (fst (process_feeds w fs st))) = sent_posts (db st).
Proof.
  induction fs as [|f fs IH]; intros st H; [now split|].
  rewrite process_feeds_cons. cbn [fst snd]. rewrite count_sends_app.
  assert (Hf : count_sends (snd (process_feed w f st)) = 0
               /\ sent_posts (db (fst (process_feed w f st))) = sent_posts (db st)).
  { destruct (fetch_feed (lib w) (f_url f)) as [[|p ps]|] eqn:Hf.
    - unfold process_feed. rewrite Hf. now split.
    - rewrite (process_feed_posts w f st (p :: ps) Hf) by discriminate.
      rewrite process_posts_all_sent.
      + cbn [fst snd db sent_posts update_feed_check_time]. split; [|reflexivity].
        change (EvFetch (f_url f) true
                  :: map (fun q => EvIsPostSent (link q) true) (p :: ps)
                  ++ [EvUpdateCheck (f_id f)])
          with ([EvFetch (f_url f) true]
                  ++ map (fun q => EvIsPostSent (link q) true) (p :: ps)
                  ++ [EvUpdateCheck (f_id f)]).
        rewrite !count_sends_app.
        assert (Hnil : forall qs,
                   count_sends (map (fun q => EvIsPostSent (link q) true) qs) = 0).
        { clear. induction qs as [|q qs IH]; [reflexivity|exact IH]. }
        now rewrite Hnil.
      + intros q Hq. apply (H f); [now left|]. unfold fetched_links. rewrite Hf.
        now apply in_map.
    - unfold process_feed. rewrite Hf. now split. }
  destruct Hf as [Hc Hs].
  destruct (IH (fst (process_feed w f st))) as [Hc' Hs'].
  { intros g u Hg Hu. apply is_post_sent_true. rewrite Hs.
    apply is_post_sent_true. apply (H g); [now right|exact Hu]. }
  rewrite Hc, Hc', Hs', Hs. now split.
Qed.

(** X19.  When the sink accepts every message of an iteration, an
    iteration that follows it and fetches the same feed contents calls the
    sink not once and leaves the ledger as it is: nothing is delivered a
    second time. *)
Theorem second_pass_sends_nothing : forall w w' st,
  (forall n t, send_message w n t = true) ->
  lib w' = lib w ->
  count_sends (snd (cycle w' (fst (cycle w st)))) = 0
  /\ sent_posts (db (fst (cycle w' (fst (cycle w st)))))
     = sent_posts (db (fst (cycle w st))).
Proof.
  intros w w' st Hsink Hlib.
  assert (Hkeep : map f_url (rss_feeds (db (fst (cycle w st))))
                  = map f_url (rss_feeds (db st))).
  { apply (cycle_inv w (fun s _ => map f_url (rss_feeds (db s))
                                   = map f_url (rss_feeds (db st)))) with (h := []).
    - intros f p s h H. now destruct (process_post_outcome w f p s).
    - intros url ok s h H. exact H.
    - intros fid s h H. simpl. now rewrite map_update_check_url.
    - intros s h H. exact H.
    - reflexivity. }
  rewrite (cycle_unfold w' (fst (cycle w st))). cbn [fst snd db].
  rewrite count_sends_app. change (count_sends [EvSleep 900]) with 0.
  rewrite Nat.add_0_r. apply process_feeds_all_sent.
  intros f u Hf Hu. apply looked_up_then_sent; [exact Hsink|].
  rewrite cycle_unfold. cbn [snd]. rewrite lookups_app, process_feeds_lookups.
  apply in_app_iff. left. apply in_flat_map.
  assert (Hin : In (f_url f) (map f_url (rss_feeds (db st))))
    by (rewrite <- Hkeep; now apply in_map).
  apply in_map_iff in Hin. destruct Hin as [g [Hgu Hg]].
  exists g. split; [exact Hg|].
  unfold fetched_links in *. now rewrite <- Hlib, Hgu.
Qed.

Lemma second_pass_sends_nothing_witness :
  count_sends (snd (cycle Samples.world_news_ab_down
                      (fst (cycle Samples.world_news_ab Samples.state_news)))) = 0.
Proof.
  apply (second_pass_sends_nothing Samples.world_news_ab Samples.world_news_ab_down
           Samples.state_news).
  - reflexivity.
  - reflexivity.
Defined.

(* ================================================================== *)
(** ** The command handlers *)
(* ================================================================== *)

Import Commands.

Lemma user_in_add x y s : user_in x (user_add y s) = user_in x s || Nat.eqb x y.
Proof.
  unfold user_add. destruct (user_in y s) eqn:E.
  - destruct (Nat.eqb x y) eqn:Exy; [|now rewrite orb_false_r].
    apply Nat.eqb_eq in Exy. subst. now rewrite E.
  - simpl. now rewrite orb_comm.
Qed.

Lemma user_in_remove x y s :
  user_in x (user_remove y s) = user_in x s && negb (Nat.eqb x y).
Proof.
  unfold user_in, user_remove. induction s as [|z s IH]; simpl; [reflexivity|].
  destruct (Nat.eqb y z) eqn:Eyz; simpl.
  - apply Nat.eqb_eq in Eyz. subst z. rewrite IH.
    destruct (Nat.eqb x y); simpl; [now rewrite andb_false_r|reflexivity].
  - rewrite IH. destruct (Nat.eqb x z) eqn:Exz; simpl; [|reflexivity].
    apply Nat.eqb_eq in Exz. subst z.
    rewrite Nat.eqb_sym in Eyz. now rewrite Eyz.
Qed.

(** The login check: a sender who is not logged in gets the same reply from
    every handler behind [require_authentication], and nothing changes. *)
Lemma require_authentication_refuses func m app :
  user_in (from_user_id m) (authenticated_users app) = false ->
  require_authentication func m app = (app, [reply_login_required]).
Proof. intros H. unfold require_authentication. now rewrite H. Qed.

Lemma require_authentication_passes func m app :
  user_in (from_user_id m) (authenticated_users app) = true ->
  require_authentication func m app = func m app.
Proof. intros H. unfold require_authentication. now rewrite H. Qed.

Lemma login_without_password password m app :
  logs_in password (Login m) = false ->
  fst (login_command_handler password m app) = app
  /\ (snd (login_command_handler password m app) = [reply_login_usage]
      \/ snd (login_command_handler password m app) = [reply_incorrect_password]).
Proof.
  unfold logs_in, login_command_handler.
  destruct (split 1 (text m)) as [|a [|b rest]]; simpl.
  - intros _. split; [reflexivity|now left].
  - intros _. split; [reflexivity|now left].
  - intros ->. split; [reflexivity|now right].
Qed.

(** X20.  As long as no [/login] message carries the password, commands
    from senders who are not logged in change neither the store nor the
    set of logged-in users, whatever they are and however many: each gets
    the login-required reply, or for a [/login] the usage or the
    wrong-password reply. *)
Theorem strangers_change_nothing : forall password crawler cs app,
  (forall c, In c cs ->
     user_in (sender c) (authenticated_users app) = false
     /\ logs_in password c = false) ->
  fst (handle_all password crawler cs app) = app
  /\ forall r, In r (snd (handle_all password crawler cs app)) ->
       r = reply_login_required \/ r = reply_login_usage
       \/ r = reply_incorrect_password.
Proof.
  intros password crawler cs app. induction cs as [|c cs IH]; intros H.
  - split; [reflexivity|intros r []].
  - destruct (H c (or_introl eq_refl)) as [Hout Hpw].
    assert (Hc : fst (handle password crawler c app) = app
                 /\ forall r, In r (snd (handle password crawler c app)) ->
                      r = reply_login_required \/ r = reply_login_usage
                      \/ r = reply_incorrect_password).
    { destruct c as [m|m|m|m|m]; simpl in *.
      - destruct (login_without_password password m app Hpw) as [Hs [Hr|Hr]];
          (split; [exact Hs|]); rewrite Hr; intros r [<-|[]]; auto.
      - unfold logout_command_handler.
        rewrite require_authentication_refuses by exact Hout.
        split; [reflexivity|]. intros r [<-|[]]. now left.
      - unfold add_feed_command_handler.
        rewrite require_authentication_refuses by exact Hout.
        split; [reflexivity|]. intros r [<-|[]]. now left.
      - unfold list_feeds_handler.
        rewrite require_authentication_refuses by exact Hout.
        split; [reflexivity|]. intros r [<-|[]]. now left.
      - unfold remove_feed_handler.
        rewrite require_authentication_refuses by exact Hout.
        split; [reflexivity|]. intros r [<-|[]]. now left. }
    destruct Hc as [Hs Hr]. simpl.
    destruct (handle password crawler c app) as [app1 r1]. simpl in Hs, Hr. subst app1.
    destruct IH as [IHs IHr]; [intros c' Hc'; apply H; now right|].
    destruct (handle_all password crawler cs app) as [app2 r2]. simpl in *.
    split; [exact IHs|]. intros r Hin. apply in_app_iff in Hin.
    destruct Hin; [now apply Hr|now apply IHr].
Qed.

Lemma strangers_change_nothing_witness :
  fst (handle_all "secret" Samples.plain_lib
         [AddFeed (mkMessage 7 "/addfeed http://x.example/rss X");
          Login (mkMessage 7 "/login guess");
          RemoveFeed (mkMessage 7 "/removefeed http://news.example/rss")]
         (mkApp Samples.store_two_feeds [1]))
  = mkApp Samples.store_two_feeds [1].
Proof.
  apply (strangers_change_nothing "secret" Samples.plain_lib).
  intros c [<-|[<-|[<-|[]]]]; split; reflexivity.
Defined.

(** X21.  [/login] never touches the store and never logs anyone out.  The
    sender is logged in afterwards exactly when they were before or the
    text after the command word (leading whitespace dropped, the rest as
    typed) equals the password; nobody else's status changes. *)
Theorem login_grants_on_password : forall password m app,
  let app' := fst (login_command_handler password m app) in
  store app' = store app
  /\ forall x,
       user_in x (authenticated_users app')
       = user_in x (authenticated_users app)
         || (logs_in password (Login m) && Nat.eqb x (from_user_id m)).
Proof.
  intros password m app app'. subst app'.
  unfold logs_in, login_command_handler.
  destruct (split 1 (text m)) as [|a [|b rest]]; simpl.
  - split; [reflexivity|]. intros x. now rewrite orb_false_r.
  - split; [reflexivity|]. intros x. now rewrite orb_false_r.
  - destruct (String.eqb b password); simpl.
    + split; [reflexivity|]. intros x. apply user_in_add.
    + split; [reflexivity|]. intros x. now rewrite orb_false_r.
Qed.

(** X22.  After [/logout] from a logged-in sender, that sender is logged
    out and everybody else's status and the store are as before; the
    reply "You are not currently logged in." is never given, by any
    [/logout]. *)
Theorem logout_revokes : forall m app,
  (user_in (from_user_id m) (authenticated_users app) = true ->
   let app' := fst (logout_command_handler m app) in
   store app' = store app
   /\ snd (logout_command_handler m app) = [reply_logged_out]
   /\ forall x,
        user_in x (authenticated_users app')
        = user_in x (authenticated_users app) && negb (Nat.eqb x (from_user_id m)))
  /\ ~ In reply_not_logged_in (snd (logout_command_handler m app)).
Proof.
  intros m app. unfold logout_command_handler, require_authentication. split.
  - intros H. rewrite H. simpl. rewrite ?H. simpl.
    split; [reflexivity|]. split; [reflexivity|]. intros x. apply user_in_remove.
  - destruct (user_in (from_user_id m) (authenticated_users app)) eqn:E; simpl.
    + rewrite ?E. simpl. intros [H|[]]. discriminate.
    + intros [H|[]]. discriminate.
Qed.

Lemma logout_revokes_witness :
  user_in 7 (authenticated_users
               (fst (logout_command_handler (mkMessage 7 "/logout")
                       (mkApp Samples.store_two_feeds [1; 7])))) = false.
Proof.
  destruct (logout_revokes (mkMessage 7 "/logout") (mkApp Samples.store_two_feeds [1; 7]))
    as [H _].
  destruct (H eq_refl) as [_ [_ Hx]]. rewrite Hx. reflexivity.
Defined.

(** *** Cutting the command text into words *)

Lemma split_unfold n s :
  split n s
  = match skip_space s with
    | EmptyString => []
    | String c s' =>
        match n with
        | 0 => [String c s']
        | S k => fst (take_word (String c s')) :: split k (snd (take_word (String c s')))
        end
    end.
Proof.
  destruct n; simpl; destruct (skip_space s) as [|c s']; try reflexivity.
  simpl. destruct (isspace c); [reflexivity|]. now destruct (take_word s').
Qed.

Lemma skip_space_head s c s' : skip_space s = String c s' -> isspace c = false.
Proof.
  induction s as [|a s IH]; simpl; [discriminate|].
  destruct (isspace a) eqn:E; [exact IH|]. intros H. injection H as <- _. exact E.
Qed.

Lemma skip_space_word w : has_space w = false -> skip_space w = w.
Proof.
  destruct w as [|c w]; simpl; [reflexivity|]. intros H.
  apply orb_false_iff in H. destruct H as [H _]. now rewrite H.
Qed.

Lemma take_word_no_space s : has_space (fst (take_word s)) = false.
Proof.
  induction s as [|c s IH]; simpl; [reflexivity|].
  destruct (isspace c) eqn:E; [reflexivity|].
  destruct (take_word s) as [w r]. simpl in *. now rewrite E, IH.
Qed.

Lemma take_word_append w c r :
  has_space w = false -> isspace c = true ->
  take_word (w ++ String c r) = (w, String c r).
Proof.
  intros Hw Hc. induction w as [|a w IH]; simpl.
  - now rewrite Hc.
  - simpl in Hw. apply orb_false_iff in Hw. destruct Hw as [Ha Hw].
    rewrite Ha, (IH Hw). reflexivity.
Qed.

Lemma take_word_whole w : has_space w = false -> take_word w = (w, EmptyString).
Proof.
  intros Hw. induction w as [|a w IH]; simpl; [reflexivity|].
  simpl in Hw. apply orb_false_iff in Hw. destruct Hw as [Ha Hw].
  now rewrite Ha, (IH Hw).
Qed.

(** A word followed by whitespace is cut off as it is. *)
Lemma split_word_then k w c r :
  has_space w = false -> w <> EmptyString -> isspace c = true ->
  split (S k) (w ++ String c r) = w :: split k (String c r).
Proof.
  intros Hw Hne Hc. rewrite split_unfold.
  destruct w as [|a w]; [congruence|].
  assert (Ha : isspace a = false)
    by (simpl in Hw; now apply orb_false_iff in Hw).
  change (String a w ++ String c r)%string with (String a (w ++ String c r)).
  cbn [skip_space]. rewrite Ha.
  change (String a (w ++ String c r)) with (String a w ++ String c r)%string.
  now rewrite (take_word_append _ _ _ Hw Hc).
Qed.

(** A last word is an item of its own. *)
Lemma split_last_word k w :
  has_space w = false -> w <> EmptyString -> split k w = [w].
Proof.
  intros Hw Hne. rewrite split_unfold, (skip_space_word _ Hw).
  destruct w as [|a w]; [congruence|]. destruct k; [reflexivity|].
  rewrite (take_word_whole _ Hw). cbn [fst snd]. now rewrite (split_unfold k).
Qed.

(** The items that [split] cuts off as words are not empty and hold no
    whitespace. *)
Lemma split_first_item k s a rest :
  split (S k) s = a :: rest ->
  has_space a = false /\ a <> EmptyString
  /\ exists r, rest = split k r.
Proof.
  rewrite split_unfold. destruct (skip_space s) as [|c s'] eqn:E; [discriminate|].
  intros H. injection H as <- <-.
  pose proof (skip_space_head _ _ _ E) as Hc.
  split; [apply (take_word_no_space (String c s'))|]. split.
  - simpl. rewrite Hc. now destruct (take_word s').
  - now exists (snd (take_word (String c s'))).
Qed.

Lemma split_items_not_empty k : forall s a, In a (split k s) -> a <> EmptyString.
Proof.
  induction k as [|k IH]; intros s a; rewrite split_unfold;
    destruct (skip_space s) as [|c s'] eqn:E.
  - intros [].
  - intros [<-|[]]. discriminate.
  - intros [].
  - intros [<-|Hin]; [|now apply IH in Hin].
    pose proof (skip_space_head _ _ _ E) as Hc.
    simpl. rewrite Hc. now destruct (take_word s').
Qed.

(** X23.  [/addfeed] leaves the set of logged-in users alone, and the
    store too unless it adds the feed.  When the store changes, the sender
    is logged in, the test fetch of the url has succeeded, and the url that
    went into [add_feed] is not empty and holds no whitespace; the name is
    not empty.  A url whose test fetch fails is never stored. *)
Theorem addfeed_stores_validated_feeds : forall crawler m app,
  let app' := fst (add_feed_command_handler crawler m app) in
  let url := nth 1 (split 2 (text m)) EmptyString in
  let name := nth 2 (split 2 (text m)) EmptyString in
  authenticated_users app' = authenticated_users app
  /\ (store app' = store app \/ store app' = add_feed url name (store app))
  /\ (store app' <> store app ->
      user_in (from_user_id m) (authenticated_users app) = true
      /\ fetch_feed crawler url <> None
      /\ has_space url = false /\ url <> EmptyString /\ name <> EmptyString)
  /\ (fetch_feed crawler url = None -> store app' = store app).
Proof.
  intros crawler m app app' url name. subst app'.
  unfold add_feed_command_handler, require_authentication.
  assert (Hsame : forall d : DB,
             (d = d \/ d = add_feed url name d)
             /\ (d <> d ->
                 user_in (from_user_id m) (authenticated_users app) = true
                 /\ fetch_feed crawler url <> None
                 /\ has_space url = false /\ url <> EmptyString /\ name <> EmptyString)
             /\ (fetch_feed crawler url = None -> d = d)).
  { intros d. split; [now left|]. split; [intros Hc; now contradiction Hc|reflexivity]. }
  destruct (user_in (from_user_id m) (authenticated_users app)) eqn:Hin;
    cbn [fst store authenticated_users]; [|split; [reflexivity|apply Hsame]].
  fold url name.
  destruct (Nat.ltb (List.length (split 2 (text m))) 3) eqn:Hlen;
    cbn [fst store authenticated_users]; [split; [reflexivity|apply Hsame]|].
  destruct (fetch_feed crawler url) eqn:Hf;
    cbn [fst store authenticated_users]; [|split; [reflexivity|apply Hsame]].
  split; [reflexivity|]. split; [now right|]. split; [|discriminate].
  intros _. split; [reflexivity|]. split; [discriminate|].
  apply Nat.ltb_ge in Hlen.
  destruct (split 2 (text m)) as [|a [|b [|c rest]]] eqn:Hs; simpl in Hlen; try lia.
  destruct (split_first_item _ _ _ _ Hs) as [_ [_ [r Hr]]].
  symmetry in Hr. destruct (split_first_item _ _ _ _ Hr) as [Hb [Hbne _]].
  subst url name. simpl. split; [exact Hb|]. split; [exact Hbne|].
  apply (split_items_not_empty 2 (text m)). rewrite Hs. right. right. now left.
Qed.

Lemma addfeed_stores_validated_feeds_witness :
  store (fst (add_feed_command_handler Samples.plain_lib
                (mkMessage 1 "/addfeed http://x.example/rss X")
                (mkApp Samples.store_two_feeds [1])))
  = Samples.store_two_feeds.
Proof.
  apply (addfeed_stores_validated_feeds Samples.plain_lib
           (mkMessage 1 "/addfeed http://x.example/rss X")
           (mkApp Samples.store_two_feeds [1])).
  reflexivity.
Defined.

(** X24.  [/addfeed] of a url that is already configured, from a logged-in
    sender and with a url that can be fetched, replies that the feed was
    added under the new name, although no row is stored: both tables and
    the set of logged-in users are as before and the feed keeps the name it
    had.  The ignored insert still uses up an id: the counter of
    [rss_feeds] is one higher afterwards. *)
Theorem addfeed_existing_reports_success : forall crawler m app f,
  user_in (from_user_id m) (authenticated_users app) = true ->
  3 <= List.length (split 2 (text m)) ->
  let url := nth 1 (split 2 (text m)) EmptyString in
  let name := nth 2 (split 2 (text m)) EmptyString in
  let app' := fst (add_feed_command_handler crawler m app) in
  fetch_feed crawler url <> None ->
  select_feed_by_url url (store app) = Some f ->
  snd (add_feed_command_handler crawler m app) = [reply_feed_added name]
  /\ rss_feeds (store app') = rss_feeds (store app)
  /\ sent_posts (store app') = sent_posts (store app)
  /\ sent_posts_seq (store app') = sent_posts_seq (store app)
  /\ authenticated_users app' = authenticated_users app
  /\ select_feed_by_url url (store app') = Some f
  /\ rss_feeds_seq (store app') = S (rss_feeds_seq (store app)).
Proof.
  intros crawler m app f Hin Hlen url name app' Hf Hsel. subst app'.
  unfold add_feed_command_handler.
  rewrite require_authentication_passes by exact Hin.
  apply Nat.ltb_ge in Hlen. rewrite Hlen. fold url name.
  destruct (fetch_feed crawler url); [|congruence].
  cbn [fst snd store authenticated_users].
  unfold add_feed. cbv zeta. rewrite Hsel.
  cbn [rss_feeds sent_posts rss_feeds_seq sent_posts_seq].
  repeat (split; [reflexivity|]). split; [exact Hsel|reflexivity].
Qed.

(** Adding the news feed again under another name: the next feed added
    after it gets id 4, not 3. *)
Lemma addfeed_existing_reports_success_witness :
  let again :=
    add_feed_command_handler (Samples.lib_news [Samples.entry_a])
      (mkMessage 1 "/addfeed http://news.example/rss Renamed")
      (mkApp Samples.store_two_feeds [1]) in
  snd again = [reply_feed_added "Renamed"]
  /\ rss_feeds (store (fst again)) = rss_feeds Samples.store_two_feeds
  /\ rss_feeds_seq (store (fst again)) = 3
  /\ map f_id (rss_feeds (add_feed "http://other.example/rss" "Other" (store (fst again))))
     = [1; 2; 4].
Proof.
  destruct (addfeed_existing_reports_success (Samples.lib_news [Samples.entry_a])
              (mkMessage 1 "/addfeed http://news.example/rss Renamed")
              (mkApp Samples.store_two_feeds [1])
              (mkFeed 1 Samples.news_url "News" None))
    as [Hreply [Hrows [_ [_ [_ [_ Hseq]]]]]].
  - reflexivity.
  - vm_compute. repeat constructor.
  - discriminate.
  - reflexivity.
  - cbv zeta. split; [exact Hreply|]. split; [exact Hrows|]. split; [exact Hseq|].
    reflexivity.
Defined.

Lemma split_addfeed_text u n :
  has_space u = false -> u <> EmptyString -> skip_space n <> EmptyString ->
  split 2 ("/addfeed " ++ u ++ " " ++ n) = ["/addfeed"; u; skip_space n].
Proof.
  intros Hu Hne Hn.
  change ("/addfeed " ++ u ++ " " ++ n)%string
    with ("/addfeed" ++ String " " (u ++ String " " n))%string.
  rewrite split_word_then by (reflexivity || discriminate).
  f_equal. rewrite split_unfold. cbn [skip_space].
  change (isspace " ") with true. cbv iota.
  destruct u as [|a u]; [congruence|].
  assert (Ha : isspace a = false)
    by (simpl in Hu; now apply orb_false_iff in Hu).
  change (String a u ++ String " " n)%string with (String a (u ++ String " " n)).
  cbn [skip_space]. rewrite Ha.
  change (String a (u ++ String " " n)) with (String a u ++ String " " n)%string.
  rewrite (take_word_append (String a u) " " n Hu eq_refl). cbn [fst snd]. f_equal.
  rewrite split_unfold. cbn [skip_space]. change (isspace " ") with true. cbv iota.
  destruct (skip_space n); [congruence|reflexivity].
Qed.

Lemma split_removefeed_text u :
  has_space u = false -> u <> EmptyString ->
  split 1 ("/removefeed " ++ u) = ["/removefeed"; u].
Proof.
  intros Hu Hne.
  change ("/removefeed " ++ u)%string with ("/removefeed" ++ String " " u)%string.
  rewrite split_word_then by (reflexivity || discriminate).
  f_equal. rewrite split_unfold. cbn [skip_space]. change (isspace " ") with true.
  cbv iota. rewrite (skip_space_word _ Hu). destruct u; [congruence|reflexivity].
Qed.

(** X25.  What [/addfeed <url> <name>] adds, [/removefeed <url>] removes:
    for a logged-in sender, a url without whitespace that can be fetched
    and a name with a visible character, the feed is configured after the
    first command, and the second one replies that it removed the feed and
    leaves no feed with that url. *)
Theorem addfeed_then_removefeed : forall crawler x u n app,
  user_in x (authenticated_users app) = true ->
  has_space u = false -> u <> EmptyString -> skip_space n <> EmptyString ->
  fetch_feed crawler u <> None ->
  schema_ok (store app) ->
  let app1 :=
    fst (add_feed_command_handler crawler (mkMessage x ("/addfeed " ++ u ++ " " ++ n)) app)
  in
  let removal := remove_feed_handler (mkMessage x ("/removefeed " ++ u)) app1 in
  (exists f, select_feed_by_url u (store app1) = Some f)
  /\ snd removal = [reply_feed_removed u]
  /\ select_feed_by_url u (store (fst removal)) = None.
Proof.
  intros crawler x u n app Hin Hu Hne Hn Hf Hok app1 removal.
  assert (Happ1 : app1 = mkApp (add_feed u (skip_space n) (store app))
                               (authenticated_users app)).
  { subst app1. unfold add_feed_command_handler.
    rewrite require_authentication_passes by exact Hin.
    cbn [text]. rewrite (split_addfeed_text u n Hu Hne Hn). cbn [List.length nth].
    change (Nat.ltb 3 3) with false. cbv iota.
    destruct (fetch_feed crawler u); [reflexivity|congruence]. }
  assert (Hok1 : schema_ok (store app1))
    by (rewrite Happ1; now apply schema_ok_add_feed).
  assert (Hsel : exists f, select_feed_by_url u (store app1) = Some f).
  { rewrite Happ1. cbn [store]. unfold add_feed at 1.
    destruct (select_feed_by_url u (store app)) as [f|] eqn:E; [now exists f|].
    exists (mkFeed (S (rss_feeds_seq (store app))) u (skip_space n) None).
    apply select_feed_by_url_unique; [|simpl; apply in_app_iff; right; now left
                                        |reflexivity].
    pose proof (schema_ok_add_feed u (skip_space n) _ Hok) as H.
    unfold add_feed in H. rewrite E in H. apply (feed_urls_unique _ H). }
  split; [exact Hsel|]. destruct Hsel as [f Hsel].
  assert (Hrem : removal
                 = (mkApp (snd (remove_feed u (store app1))) (authenticated_users app1),
                    [reply_feed_removed u])).
  { subst removal. unfold remove_feed_handler.
    rewrite require_authentication_passes
      by (rewrite Happ1; cbn [from_user_id authenticated_users]; exact Hin).
    cbn [text]. rewrite (split_removefeed_text u Hu Hne). cbn [List.length nth].
    change (Nat.ltb 2 2) with false. cbv iota.
    now rewrite (remove_feed_present _ _ _ Hsel). }
  rewrite Hrem. cbn [fst snd store]. split; [reflexivity|].
  apply select_feed_by_url_none. now apply remove_feed_url_gone.
Qed.

Lemma addfeed_then_removefeed_witness :
  snd (remove_feed_handler (mkMessage 1 "/removefeed http://news.example/rss")
         (fst (add_feed_command_handler (Samples.lib_news [Samples.entry_a])
                 (mkMessage 1 "/addfeed http://news.example/rss Daily news")
                 (mkApp empty_db [1]))))
  = [reply_feed_removed "http://news.example/rss"].
Proof.
  apply (addfeed_then_removefeed (Samples.lib_news [Samples.entry_a]) 1
           "http://news.example/rss" "Daily news" (mkApp empty_db [1])).
  - reflexivity.
  - reflexivity.
  - discriminate.
  - discriminate.
  - discriminate.
  - apply schema_ok_empty.
Defined.

Lemma has_space_differs a b : has_space a = true -> has_space b = false -> b <> a.
Proof. intros Ha Hb ->. congruence. Qed.

(** X26.  [/removefeed] takes everything after the command word as the
    url, inner and trailing whitespace included.  So when that text holds
    a whitespace character and the configured urls hold none (as all urls
    stored by [/addfeed] do), the reply is that the feed was not found and
    nothing changes. *)
Theorem removefeed_with_space_misses : forall m app,
  user_in (from_user_id m) (authenticated_users app) = true ->
  2 <= List.length (split 1 (text m)) ->
  has_space (nth 1 (split 1 (text m)) EmptyString) = true ->
  (forall f, In f (rss_feeds (store app)) -> has_space (f_url f) = false) ->
  remove_feed_handler m app = (app, [reply_feed_not_found]).
Proof.
  intros m app Hin Hlen Hsp Hurls. unfold remove_feed_handler.
  rewrite require_authentication_passes by exact Hin.
  apply Nat.ltb_ge in Hlen. rewrite Hlen.
  rewrite remove_feed_absent; [reflexivity|].
  intros g Hg. apply (has_space_differs _ _ Hsp). now apply Hurls.
Qed.

Lemma removefeed_with_space_misses_witness :
  remove_feed_handler (mkMessage 1 "/removefeed http://news.example/rss ")
    (mkApp Samples.store_two_feeds [1])
  = (mkApp Samples.store_two_feeds [1], [reply_feed_not_found]).
Proof.
  apply removefeed_with_space_misses.
  - reflexivity.
  - vm_compute. repeat constructor.
  - reflexivity.
  - intros f [<-|[<-|[]]]; reflexivity.
Defined.

Lemma append_empty_r (a : string) : (a ++ EmptyString)%string = a.
Proof. induction a as [|c a IH]; simpl; [reflexivity|now rewrite IH]. Qed.

Lemma fold_left_lines (fs : list Feed) : forall acc : string,
  fold_left (fun response_message feed_item =>
               (response_message ++ feed_line feed_item)%string) fs acc
  = (acc ++ String.concat EmptyString (map feed_line fs))%string.
Proof.
  induction fs as [|f fs IH]; intros acc.
  - simpl. now rewrite append_empty_r.
  - cbn [fold_left map]. rewrite IH, append_assoc. f_equal.
    destruct fs as [|g fs]; [simpl; now rewrite append_empty_r|reflexivity].
Qed.

(** X27.  [/listfeeds] from a logged-in sender changes nothing and gives
    one reply: "No feeds configured yet." for an empty table, and otherwise
    the heading followed by one line "• name: url" per feed, each feed
    once, in the order of the table. *)
Theorem listfeeds_lists_every_feed : forall m app,
  user_in (from_user_id m) (authenticated_users app) = true ->
  fst (list_feeds_handler m app) = app
  /\ (get_all_feeds (store app) = [] ->
      snd (list_feeds_handler m app) = [reply_no_feeds])
  /\ (get_all_feeds (store app) <> [] ->
      snd (list_feeds_handler m app)
      = [("📚 Configured feeds:" ++ Commands.newline ++ Commands.newline
          ++ String.concat EmptyString (map feed_line (get_all_feeds (store app))))%string]).
Proof.
  intros m app Hin. unfold list_feeds_handler.
  rewrite require_authentication_passes by exact Hin.
  destruct (get_all_feeds (store app)) as [|f fs] eqn:E.
  - split; [reflexivity|]. split; [reflexivity|congruence].
  - split; [reflexivity|]. split; [discriminate|]. intros _. cbn [snd].
    rewrite fold_left_lines. now rewrite !append_assoc.
Qed.

(** An empty table, and the table with the two feeds of the samples. *)
Lemma listfeeds_lists_every_feed_witness :
  snd (list_feeds_handler (mkMessage 1 "/listfeeds") (mkApp empty_db [1]))
  = [reply_no_feeds]
  /\ list_feeds_handler (mkMessage 1 "/listfeeds") (mkApp Samples.store_two_feeds [1])
     = (mkApp Samples.store_two_feeds [1],
        [("📚 Configured feeds:" ++ Commands.newline ++ Commands.newline
          ++ "• News: http://news.example/rss" ++ Commands.newline
          ++ "• Blog: http://blog.example/atom" ++ Commands.newline)%string]).
Proof.
  split.
  - apply (listfeeds_lists_every_feed (mkMessage 1 "/listfeeds") (mkApp empty_db [1]));
      reflexivity.
  - destruct (listfeeds_lists_every_feed (mkMessage 1 "/listfeeds")
                (mkApp Samples.store_two_feeds [1]) eq_refl) as [Hsame [_ Hlist]].
    rewrite (surjective_pairing (list_feeds_handler _ _)), Hsame, Hlist
      by discriminate.
    reflexivity.
Defined.
